(** * dify2wxbot: the message conversion and delivery pipeline

    A shallow embedding of the Go sources

    - [internal/store]   (the in-memory conversation store),
    - [internal/service] ([dify_service.go]: the retrying HTTP primitive and
      the backend client; the converter: [preprocessMessage],
      [postprocessDifyResponse], [ConvertAndSend]),
    - [internal/config]  ([Validate], [LoadConfig], [parseInt]),
    - [internal/wecom]   (the group robot: [uploadMedia],
      [sendMessageToWeCom] and the senders),
    - [main]             (what becomes of each configured scheduler),

    followed by the properties of the pipeline that the specification states
    and by further properties of the code.

    Go strings are byte sequences: they are [string] here (a list of 8-bit
    characters), [len] is [String.length].  Integers that never leave a small
    range ([int] loop counters, HTTP status codes, runes) are [Z] or [nat].
    Calls that leave the process (HTTP, the file system, the WeCom robot,
    [time.Sleep]) are recorded in a trace and answered by a [World]. *)

From Stdlib Require Import ZArith Lia List Ascii String Bool.
From stdpp Require Import base strings gmap list pretty.

Local Open Scope Z_scope.
Local Set Warnings "-register-all".

(* ===================================================================== *)
(** * Go strings, runes and UTF-8                                         *)
(* ===================================================================== *)

Module gostring.

(** [len(s)] *)
Definition len (s : string) : Z := Z.of_nat (String.length s).

Definition byte_val (c : ascii) : Z := Z.of_N (N_of_ascii c).
Definition byte_of (z : Z) : ascii := ascii_of_N (Z.to_N (Z.land z 255)).

Definition bytes (s : string) : list Z := List.map byte_val (list_ascii_of_string s).
Definition of_bytes (l : list Z) : string := string_of_list_ascii (List.map byte_of l).

(** Constants of Go's [runtime/utf8.go]. *)
Definition runeError : Z := 65533.     (* U+FFFD *)
Definition maxRune : Z := 1114111.     (* U+10FFFF *)
Definition runeSelf : Z := 128.
Definition t2 : Z := 192.
Definition t3 : Z := 224.
Definition t4 : Z := 240.
Definition t5 : Z := 248.
Definition tx : Z := 128.
Definition maskx : Z := 63.
Definition mask2 : Z := 31.
Definition mask3 : Z := 15.
Definition mask4 : Z := 7.
Definition rune1Max : Z := 127.
Definition rune2Max : Z := 2047.
Definition rune3Max : Z := 65535.
Definition surrogateMin : Z := 55296.
Definition surrogateMax : Z := 57343.
Definition locb : Z := 128.
Definition hicb : Z := 191.

Definition cont (b : Z) : bool := (locb <=? b) && (b <=? hicb).

(** [decoderune]: the rune at the head of a non-empty byte sequence whose
    first byte is at least [runeSelf], and the number of bytes it takes.
    An invalid or truncated sequence is [runeError] of width 1. *)
Definition decoderune (s : list Z) : Z * nat :=
  match s with
  | b0 :: b1 :: rest =>
      if (t2 <=? b0) && (b0 <? t3) then
        if cont b1 then
          let r := Z.lor (Z.shiftl (Z.land b0 mask2) 6) (Z.land b1 maskx) in
          if rune1Max <? r then (r, 2%nat) else (runeError, 1%nat)
        else (runeError, 1%nat)
      else if (t3 <=? b0) && (b0 <? t4) then
        match rest with
        | b2 :: _ =>
            if cont b1 && cont b2 then
              let r := Z.lor (Z.lor (Z.shiftl (Z.land b0 mask3) 12)
                                    (Z.shiftl (Z.land b1 maskx) 6))
                             (Z.land b2 maskx) in
              if (rune2Max <? r) && negb ((surrogateMin <=? r) && (r <=? surrogateMax))
              then (r, 3%nat) else (runeError, 1%nat)
            else (runeError, 1%nat)
        | [] => (runeError, 1%nat)
        end
      else if (t4 <=? b0) && (b0 <? t5) then
        match rest with
        | b2 :: b3 :: _ =>
            if cont b1 && cont b2 && cont b3 then
              let r := Z.lor (Z.lor (Z.lor (Z.shiftl (Z.land b0 mask4) 18)
                                           (Z.shiftl (Z.land b1 maskx) 12))
                                    (Z.shiftl (Z.land b2 maskx) 6))
                             (Z.land b3 maskx) in
              if (rune3Max <? r) && (r <=? maxRune)
              then (r, 4%nat) else (runeError, 1%nat)
            else (runeError, 1%nat)
        | _ => (runeError, 1%nat)
        end
      else (runeError, 1%nat)
  | _ => (runeError, 1%nat)
  end.

(** [for _, r := range s]: one rune per step; a byte below [runeSelf] is
    its own rune.  The fuel is the number of bytes left. *)
Fixpoint range_runes (fuel : nat) (s : list Z) : list Z :=
  match fuel with
  | O => []
  | S fuel' =>
      match s with
      | [] => []
      | b :: rest =>
          if b <? runeSelf then b :: range_runes fuel' rest
          else let '(r, n) := decoderune s in
               r :: range_runes fuel' (skipn n s)
      end
  end.

(** [[]rune(s)] *)
Definition to_runes (s : string) : list Z :=
  let b := bytes s in range_runes (List.length b) b.

(** [encoderune] *)
Definition encoderune (r : Z) : list Z :=
  if (0 <=? r) && (r <=? rune1Max) then [r]
  else if (0 <=? r) && (r <=? rune2Max) then
    [Z.lor t2 (Z.shiftr r 6); Z.lor tx (Z.land r maskx)]
  else
    let r' := if (r <? 0) || (maxRune <? r) || ((surrogateMin <=? r) && (r <=? surrogateMax))
              then runeError else r in
    if r' <=? rune3Max then
      [Z.lor t3 (Z.shiftr r' 12);
       Z.lor tx (Z.land (Z.shiftr r' 6) maskx);
       Z.lor tx (Z.land r' maskx)]
    else
      [Z.lor t4 (Z.shiftr r' 18);
       Z.lor tx (Z.land (Z.shiftr r' 12) maskx);
       Z.lor tx (Z.land (Z.shiftr r' 6) maskx);
       Z.lor tx (Z.land r' maskx)].

(** [string(runes)] *)
Definition of_runes (rs : list Z) : string :=
  of_bytes (List.concat (List.map encoderune rs)).

(** [a[:high]] on a slice of length [length l] and capacity
    [length l + spare]: the Go specification requires [high <= cap(a)] and
    panics otherwise ([None]); the elements between the length and the
    capacity of a freshly converted slice are zero. *)
Definition slice_to {A} (zero : A) (l : list A) (spare : nat) (high : nat)
  : option (list A) :=
  if (high <=? List.length l)%nat then Some (firstn high l)
  else if (high <=? List.length l + spare)%nat
       then Some (l ++ repeat zero (high - List.length l))
       else None.

(** [strings.HasPrefix] *)
Definition HasPrefix (s p : string) : bool := String.prefix p s.

(** [filepath.Ext] (on a Unix target the path separator is [/]): the
    suffix beginning at the final dot of the final path element. *)
Fixpoint ext_scan (rev_path : list ascii) (acc : list ascii) : list ascii :=
  match rev_path with
  | [] => []
  | c :: rest =>
      if Ascii.eqb c "/"%char then []
      else if Ascii.eqb c "."%char then c :: acc
      else ext_scan rest (c :: acc)
  end.

Definition Ext (path : string) : string :=
  string_of_list_ascii (ext_scan (rev (list_ascii_of_string path)) []).

Definition is_empty (s : string) : bool :=
  match s with EmptyString => true | _ => false end.

(** [filepath.Base] on a Unix target: trailing separators are dropped and
    the final element is returned; the empty path is [.], a path of
    separators only is [/]. *)
Fixpoint drop_slashes (rev_path : list ascii) : list ascii :=
  match rev_path with
  | c :: rest => if Ascii.eqb c "/"%char then drop_slashes rest else rev_path
  | [] => []
  end.

Fixpoint last_element (rev_path : list ascii) (acc : list ascii) : list ascii :=
  match rev_path with
  | [] => acc
  | c :: rest => if Ascii.eqb c "/"%char then acc else last_element rest (c :: acc)
  end.

Definition Base (path : string) : string :=
  if is_empty path then "."
  else match last_element (drop_slashes (rev (list_ascii_of_string path))) [] with
       | [] => "/"
       | l => string_of_list_ascii l
       end.

End gostring.

(* ===================================================================== *)
(** * package store: the conversation store                              *)
(* ===================================================================== *)

Module store.

(** [InMemoryConversationStore]; the [sync.RWMutex] serialises the
    operations, each of which is one atomic step here. *)
Record InMemoryConversationStore := mkStore { store_map : gmap string string }.

Definition NewInMemoryConversationStore : InMemoryConversationStore :=
  mkStore ∅.

(** [conversationID, ok := s.store[userID]]: a missing key reads as the
    zero string and [false]. *)
Definition GetConversationID (s : InMemoryConversationStore) (userID : string)
  : string * bool :=
  match store_map s !! userID with
  | Some conversationID => (conversationID, true)
  | None => (EmptyString, false)
  end.

Definition SaveConversationID (s : InMemoryConversationStore)
           (userID conversationID : string) : InMemoryConversationStore :=
  mkStore (<[userID := conversationID]> (store_map s)).

(** [uuid.New().String()] is the argument [fresh]. *)
Definition NewConversationID (fresh : string) (s : InMemoryConversationStore)
           (userID : string) : string * InMemoryConversationStore :=
  let conversationID := fresh in
  (conversationID, mkStore (<[userID := conversationID]> (store_map s))).

Definition DeleteConversationID (s : InMemoryConversationStore)
           (userID : string) : InMemoryConversationStore :=
  mkStore (delete userID (store_map s)).

(** A call on the [ConversationStore] interface. *)
Inductive Call :=
| CGet (userID : string)
| CSave (userID conversationID : string)
| CNew (userID fresh : string)
| CDelete (userID : string).

Definition step (s : InMemoryConversationStore) (c : Call) : InMemoryConversationStore :=
  match c with
  | CGet _ => s
  | CSave u id => SaveConversationID s u id
  | CNew u fresh => snd (NewConversationID fresh s u)
  | CDelete u => DeleteConversationID s u
  end.

Definition run (s : InMemoryConversationStore) (cs : list Call) : InMemoryConversationStore :=
  fold_left step cs s.

(** The calls that write an id for [u]: save and generate. *)
Definition assigns (u : string) (c : Call) : bool :=
  match c with
  | CSave v _ | CNew v _ => bool_decide (v = u)
  | _ => false
  end.

End store.

(* ===================================================================== *)
(** * Values shared by the service code                                  *)
(* ===================================================================== *)

Module golang.

(** A decoded [interface{}] of [encoding/json]. *)
Inductive JSON :=
| JNull
| JBool (b : bool)
| JNumber (text : string)
| JString (s : string)
| JArray (elems : list JSON)
| JObject (fields : gmap string JSON).

(** An operand of a formatting verb. *)
Inductive Arg := AStr (s : string) | AInt (n : Z).

(** An [error]: one made outside this code, or one made by
    [fmt.Errorf format args...]; the operand of a final [%w] is [wrapped]. *)
Inductive Error :=
| External (msg : string)
| Errorf (format : string) (args : list Arg) (wrapped : option Error).

Definition render (a : Arg) : string :=
  match a with
  | AStr s => s
  | AInt n => pretty n
  end.

(** [fmt.Sprintf] for the verbs this code uses ([%s], [%d], [%v], [%w]),
    each of which prints its operand in the default format; a verb without
    an operand prints Go's [%!v(MISSING)]. *)
Fixpoint Sprintf (format : string) (args : list string) : string :=
  match format with
  | EmptyString => EmptyString
  | String c rest =>
      if Ascii.eqb c "%"%char then
        match rest with
        | String v rest' =>
            match args with
            | a :: args' => a +:+ Sprintf rest' args'
            | [] => String "%" (String "!" (String v ("(MISSING)" +:+ Sprintf rest' [])))
            end
        | EmptyString => "%!(NOVERB)"
        end
      else String c (Sprintf rest args)
  end.

(** [err.Error()] *)
Fixpoint Error_string (e : Error) : string :=
  match e with
  | External msg => msg
  | Errorf format args wrapped =>
      Sprintf format
        (List.map render args ++
         match wrapped with Some e' => [Error_string e'] | None => [] end)
  end.

Record HttpRequest := mkRequest {
  Method : string;
  URL : string;
  ReqBody : string;
  ContentType : string;
  Authorization : string
}.

(** What the caller sees of an [*http.Response]: the status code and what
    [io.ReadAll(resp.Body)] gives. *)
Record HttpResponse := mkResponse {
  StatusCode : Z;
  Body : Error + string
}.

Definition StatusOK : Z := 200.

(** A call that leaves the process.  Logging is not recorded. *)
Inductive Event :=
| EvDo (req : HttpRequest)            (* s.httpClient.Do(req) *)
| EvSleep (seconds : Z)               (* time.Sleep(seconds * time.Second) *)
| EvGet (url : string)                (* s.httpClient.Get(url) *)
| EvCreateTemp (pattern : string)     (* os.CreateTemp with an empty dir, closed at once *)
| EvCreate (path : string)            (* os.Create(path) *)
| EvCopyToFile (path : string)        (* io.Copy(out, resp.Body) *)
| EvRemove (path : string)            (* os.Remove(path) *)
| EvOpen (path : string)              (* os.Open(path) *)
| EvReadFile (path : string)          (* io.Copy(part, file) *)
| EvSendText (message : string)       (* robot.SendTextMessage *)
| EvSendMarkdown (content : string)   (* robot.SendMarkdownMessage *)
| EvSendImage (path : string)         (* robot.SendImageMessage *)
| EvSendFile (path : string).         (* robot.SendFileMessage *)

Definition Trace := list Event.

Definition is_send (e : Event) : bool :=
  match e with
  | EvSendText _ | EvSendMarkdown _ | EvSendImage _ | EvSendFile _ => true
  | _ => false
  end.

Definition is_do (e : Event) : bool :=
  match e with EvDo _ => true | _ => false end.

(** The outcome of a Go function body: it returns, or it panics. *)
Inductive Result (A : Type) :=
| Ret (a : A)
| Panic.
Arguments Ret {A} a.
Arguments Panic {A}.

(** Computations over the trace of calls made so far. *)
Definition M (A : Type) : Type := Trace -> Result A * Trace.

Definition ret {A} (a : A) : M A := fun tr => (Ret a, tr).

Definition bind {A B} (m : M A) (k : A -> M B) : M B :=
  fun tr =>
    match m tr with
    | (Ret a, tr') => k a tr'
    | (Panic, tr') => (Panic, tr')
    end.

Definition panic {A} : M A := fun tr => (Panic, tr).

(** Make the call [e]; the answer may depend on everything done before. *)
Definition call {A} (e : Event) (answer : Trace -> A) : M A :=
  fun tr => (Ret (answer tr), tr ++ [e]).

End golang.

Import golang.

Declare Scope go_scope.
Delimit Scope go_scope with go.
Notation "x <- m ;; k" := (bind m (fun x => k))
  (at level 100, m at next level, right associativity) : go_scope.
Notation "m ;;; k" := (bind m (fun _ => k))
  (at level 100, right associativity) : go_scope.

(* ===================================================================== *)
(** * package config                                                      *)
(* ===================================================================== *)

Module config.

Record DifyConfig := mkDifyConfig {
  APIKey : string;
  BaseURL : string;
  BotType : string;
  WorkflowID : string;
  DefaultPrompt : string
}.

(** The fields of [AppConfig] that the service code reads. *)
Record AppConfig := mkAppConfig { Dify : DifyConfig }.

End config.

(* ===================================================================== *)
(** * package service: dify_service.go                                    *)
(* ===================================================================== *)

Module service.
Import gostring config.

(** ** Request and response bodies *)

Record DifyBaseRequest := mkBase {
  Inputs : option (gmap string JSON);        (* a nil map is [None] *)
  User : string;
  ResponseMode : string;
  Files : list (gmap string JSON)
}.

Record DifyChatRequest := mkChatReq {
  chat_base : DifyBaseRequest;
  Query : string;
  ConversationID : string
}.

Record DifyCompletionRequest := mkCompletionReq {
  completion_base : DifyBaseRequest;
  Prompt : string
}.

Record DifyWorkflowRequest := mkWorkflowReq {
  workflow_base : DifyBaseRequest;
  WorkflowID_ : string
}.

Record DifyAPIErrorResponse := mkAPIError {
  Code : string;
  Message : string;
  Status : Z
}.

Record DifyChatResponse := mkChatResp { Answer : string }.
Record DifyCompletionResponse := mkCompletionResp { Text : string }.
Record DifyWorkflowResponse := mkWorkflowResp {
  Data : option (gmap string JSON)           (* a nil map is [None] *)
}.

Definition difyChatMessagesPath : string := "/v1/chat-messages".
Definition difyCompletionMessagesPath : string := "/v1/completion-messages".
Definition difyWorkflowRunPath : string := "/v1/workflows/run".
Definition responseModeBlocking : string := "blocking".
Definition defaultRole : string := "员工".
Definition maxRetries : Z := 3.
Definition difyFileUploadPath : string := "/files/upload".

(** ** The world outside the process

    Every fallible call of the standard library, of the HTTP client and of
    the WeCom robot is answered here.  The calls with an effect see the
    trace of what was done before them, so that two attempts of one
    request may be answered differently. *)
Record World := mkWorld {
  (* net/http *)
  http_NewRequest : string -> string -> option Error;
  http_Do : Trace -> HttpRequest -> Error + HttpResponse;
  http_Get : Trace -> string -> Error + Z;               (* the status code *)
  (* os, io *)
  os_CreateTemp : Trace -> string -> Error + string;     (* the file's name *)
  os_Create : Trace -> string -> option Error;
  io_Copy_to_file : Trace -> string -> option Error;
  os_Open : Trace -> string -> option Error;
  io_Copy_from_file : Trace -> string -> Error + string; (* the content *)
  (* mime/multipart over a bytes.Buffer *)
  multipart_CreateFormFile : string -> option Error;
  multipart_WriteField : string -> string -> option Error;
  multipart_body : string -> string -> string -> string;
  multipart_FormDataContentType : string;
  (* encoding/json *)
  json_Marshal_chat : DifyChatRequest -> Error + string;
  json_Marshal_completion : DifyCompletionRequest -> Error + string;
  json_Marshal_workflow : DifyWorkflowRequest -> Error + string;
  json_MarshalIndent : option (gmap string JSON) -> Error + string;
  json_Unmarshal_error : string -> Error + DifyAPIErrorResponse;
  json_Unmarshal_chat : string -> Error + DifyChatResponse;
  json_Unmarshal_completion : string -> Error + DifyCompletionResponse;
  json_Unmarshal_workflow : string -> Error + DifyWorkflowResponse;
  json_Unmarshal_object : string -> Error + gmap string JSON;
  (* strings *)
  strings_ToLower : string -> string;
  (* wecom.Robot *)
  robot_SendTextMessage : Trace -> string -> option Error;
  robot_SendMarkdownMessage : Trace -> string -> option Error;
  robot_SendImageMessage : Trace -> string -> option Error;
  robot_SendFileMessage : Trace -> string -> option Error;
  (* runtime: the capacity beyond the length of a [[]rune(s)] of n runes *)
  runtime_rune_spare : nat -> nat
}.

Section Service.
Variable W : World.
Variable cfg : AppConfig.

Local Open Scope go_scope.

(** The retry loop of [doDifyRequest], [remaining] iterations from
    counter [i] on ([remaining = maxRetries - i]); the state is the pair
    of variables [(resp, err)].  [EvDo req] records the call
    [s.httpClient.Do(req)] on the one request that was built before the
    loop, and [ReqBody] is the body that request was built with: a retry
    hands the same request to the client, and what is then transmitted of
    the body is what the earlier attempts left unread in its reader, which
    the trace does not record. *)
Fixpoint attempts (req : HttpRequest) (remaining : nat) (i : Z)
         (st : option HttpResponse * option Error)
  : M (option HttpResponse * option Error) :=
  match remaining with
  | O => ret st
  | S remaining' =>
      r <- call (EvDo req) (fun tr => http_Do W tr req) ;;
      match r with
      | inr resp => ret (Some resp, None)                       (* break *)
      | inl err =>
          (if i <? maxRetries - 1
           then call (EvSleep (i + 1)) (fun _ => tt)
           else ret tt) ;;;
          attempts req remaining' (i + 1) (None, Some err)
      end
  end.

(** [doDifyRequest].  [responseStruct] is the decoder of the destination
    when one is passed ([None] for Go's [nil]) and [dst] the value the
    destination holds before the call; the result is the error and the
    value the destination holds afterwards. *)
Definition doDifyRequest {A} (method path body contentType logPrefix : string)
           (responseStruct : option (string -> Error + A)) (dst : A)
  : M (option Error * A) :=
  let fullURL := Sprintf "%s%s" [BaseURL (Dify cfg); path] in
  match http_NewRequest W method fullURL with
  | Some err =>
      ret (Some (Errorf "failed to create %s http request: %w" [AStr logPrefix] (Some err)), dst)
  | None =>
      let req := mkRequest method fullURL body contentType
                           ("Bearer " +:+ APIKey (Dify cfg)) in
      st <- attempts req (Z.to_nat maxRetries) 0 (None, None) ;;
      match st with
      | (_, Some err) =>
          ret (Some (Errorf "%s 请求在 %d 次重试后仍然失败: %w"
                            [AStr logPrefix; AInt maxRetries] (Some err)), dst)
      | (None, None) => panic                         (* resp is nil *)
      | (Some resp, None) =>
          match Body resp with
          | inl err =>
              ret (Some (Errorf "failed to read %s 响应体: %w" [AStr logPrefix] (Some err)), dst)
          | inr respBody =>
              if negb (StatusCode resp =? StatusOK) then
                match json_Unmarshal_error W respBody with
                | inr errorResponse =>
                    ret (Some (Errorf "%s 错误: 错误码: %s, 消息: %s"
                                      [AStr logPrefix; AStr (Code errorResponse);
                                       AStr (Message errorResponse)] None), dst)
                | inl _ =>
                    ret (Some (Errorf "%s 返回错误状态码 %d: %s"
                                      [AStr logPrefix; AInt (StatusCode resp);
                                       AStr respBody] None), dst)
                end
              else
                match responseStruct with
                | Some decode =>
                    match decode respBody with
                    | inl err =>
                        ret (Some (Errorf "failed to parse %s 成功响应: %w"
                                          [AStr logPrefix] (Some err)), dst)
                    | inr v => ret (None, v)
                    end
                | None => ret (None, dst)
                end
          end
      end
  end.

Definition not_configured : bool :=
  is_empty (BaseURL (Dify cfg)) || is_empty (APIKey (Dify cfg)).

(** [request.Inputs == nil] is replaced by an empty map; a missing
    ["role"] is set to [defaultRole]. *)
Definition with_role (inputs : option (gmap string JSON)) : gmap string JSON :=
  let m := match inputs with None => ∅ | Some m => m end in
  match m !! "role" with
  | Some _ => m
  | None => <["role" := JString defaultRole]> m
  end.

Definition set_base (b : DifyBaseRequest) (inputs : gmap string JSON) : DifyBaseRequest :=
  mkBase (Some inputs) (User b) responseModeBlocking (Files b).

Definition CallDifyChatAPI (request : DifyChatRequest)
  : M (DifyChatResponse * option Error) :=
  if not_configured then
    ret (mkChatResp EmptyString, Some (Errorf "dify base url 或 api key 未配置" [] None))
  else
    let request := mkChatReq (set_base (chat_base request) (with_role (Inputs (chat_base request))))
                             (Query request) (ConversationID request) in
    match json_Marshal_chat W request with
    | inl err =>
        ret (mkChatResp EmptyString,
             Some (Errorf "failed to marshal chat request body: %w" [] (Some err)))
    | inr jsonData =>
        r <- doDifyRequest "POST" difyChatMessagesPath jsonData "application/json"
                           "Chat API" (Some (json_Unmarshal_chat W)) (mkChatResp EmptyString) ;;
        let '(err, response) := r in
        match err with
        | Some e => ret (mkChatResp EmptyString, Some e)
        | None =>
            if is_empty (Answer response) then
              ret (mkChatResp EmptyString,
                   Some (Errorf "dify chat api 响应未包含有效答案" [] None))
            else ret (response, None)
        end
    end.

Definition CallDifyCompletionAPI (request : DifyCompletionRequest)
  : M (DifyCompletionResponse * option Error) :=
  if not_configured then
    ret (mkCompletionResp EmptyString, Some (Errorf "dify base url 或 api key 未配置" [] None))
  else
    let request := mkCompletionReq
                     (set_base (completion_base request)
                               (with_role (Inputs (completion_base request))))
                     (Prompt request) in
    match json_Marshal_completion W request with
    | inl err =>
        ret (mkCompletionResp EmptyString,
             Some (Errorf "failed to marshal completion request body: %w" [] (Some err)))
    | inr jsonData =>
        r <- doDifyRequest "POST" difyCompletionMessagesPath jsonData "application/json"
                           "Completion API" (Some (json_Unmarshal_completion W))
                           (mkCompletionResp EmptyString) ;;
        let '(err, response) := r in
        match err with
        | Some e => ret (mkCompletionResp EmptyString, Some e)
        | None =>
            if is_empty (Text response) then
              ret (mkCompletionResp EmptyString,
                   Some (Errorf "dify completion api 响应未包含有效文本" [] None))
            else ret (response, None)
        end
    end.

Definition CallDifyWorkflowAPI (request : DifyWorkflowRequest)
  : M (DifyWorkflowResponse * option Error) :=
  if not_configured then
    ret (mkWorkflowResp None, Some (Errorf "dify base url 或 api key 未配置" [] None))
  else
    let inputs := match Inputs (workflow_base request) with None => ∅ | Some m => m end in
    let request := mkWorkflowReq (set_base (workflow_base request) inputs)
                                 (WorkflowID_ request) in
    match json_Marshal_workflow W request with
    | inl err =>
        ret (mkWorkflowResp None,
             Some (Errorf "failed to marshal workflow request body: %w" [] (Some err)))
    | inr jsonData =>
        r <- doDifyRequest "POST" difyWorkflowRunPath jsonData "application/json"
                           "Workflow API" (Some (json_Unmarshal_workflow W))
                           (mkWorkflowResp None) ;;
        let '(err, response) := r in
        match err with
        | Some e => ret (mkWorkflowResp None, Some e)
        | None =>
            match Data response with
            | None =>
                ret (mkWorkflowResp None,
                     Some (Errorf "dify workflow api 响应未包含有效数据" [] None))
            | Some _ => ret (response, None)
            end
        end
    end.

Definition DownloadFile (fileURL outputPath : string) : M (option Error) :=
  r <- call (EvGet fileURL) (fun tr => http_Get W tr fileURL) ;;
  match r with
  | inl err =>
      ret (Some (Errorf "failed to download file from %s: %w" [AStr fileURL] (Some err)))
  | inr status =>
      if negb (status =? StatusOK) then
        ret (Some (Errorf "failed to download file, received status code %d from %s"
                          [AInt status; AStr fileURL] None))
      else
        c <- call (EvCreate outputPath) (fun tr => os_Create W tr outputPath) ;;
        match c with
        | Some err =>
            ret (Some (Errorf "failed to create local file %s: %w" [AStr outputPath] (Some err)))
        | None =>
            w <- call (EvCopyToFile outputPath) (fun tr => io_Copy_to_file W tr outputPath) ;;
            match w with
            | Some err =>
                ret (Some (Errorf "failed to write downloaded file to %s: %w"
                                  [AStr outputPath] (Some err)))
            | None => ret None
            end
        end
  end.

(** [UploadFile]; the decoded response map is read only, a nil map reads
    as the empty one. *)
Definition UploadFile (filePath user : string)
  : M (gmap string JSON * option Error) :=
  if not_configured then
    ret (∅, Some (Errorf "dify base url 或 api key 未配置" [] None))
  else
    o <- call (EvOpen filePath) (fun tr => os_Open W tr filePath) ;;
    match o with
    | Some err => ret (∅, Some (Errorf "failed to open file: %w" [] (Some err)))
    | None =>
        match multipart_CreateFormFile W (Base filePath) with
        | Some err => ret (∅, Some (Errorf "failed to create form file: %w" [] (Some err)))
        | None =>
            c <- call (EvReadFile filePath) (fun tr => io_Copy_from_file W tr filePath) ;;
            match c with
            | inl err =>
                ret (∅, Some (Errorf "failed to copy file content: %w" [] (Some err)))
            | inr content =>
                match multipart_WriteField W "user" user with
                | Some err =>
                    ret (∅, Some (Errorf "failed to write user field to form: %w" []
                                         (Some err)))
                | None =>
                    let body := multipart_body W (Base filePath) content user in
                    r <- doDifyRequest "POST" difyFileUploadPath body
                                       (multipart_FormDataContentType W)
                                       "File Upload API"
                                       (Some (json_Unmarshal_object W)) ∅ ;;
                    let '(err, response) := r in
                    match err with
                    | Some e => ret (∅, Some e)
                    | None => ret (response, None)
                    end
                end
            end
        end
    end.

(** ** The converter *)

Definition SendTextMessage (message : string) : M (option Error) :=
  call (EvSendText message) (fun tr => robot_SendTextMessage W tr message).
Definition SendMarkdownMessage (content : string) : M (option Error) :=
  call (EvSendMarkdown content) (fun tr => robot_SendMarkdownMessage W tr content).
Definition SendImageMessage (path : string) : M (option Error) :=
  call (EvSendImage path) (fun tr => robot_SendImageMessage W tr path).
Definition SendFileMessage (path : string) : M (option Error) :=
  call (EvSendFile path) (fun tr => robot_SendFileMessage W tr path).
Definition Remove (path : string) : M unit :=
  call (EvRemove path) (fun _ => tt).

(** [defer f()]: [f] runs when the body is left, by return or by panic. *)
Definition deferring {A} (deferred : M unit) (body : M A) : M A :=
  fun tr =>
    let '(r, tr') := body tr in
    match deferred tr' with
    | (Ret _, tr'') => (r, tr'')
    | (Panic, tr'') => (Panic, tr'')
    end.

Definition preprocessMessage (message : string) : string * bool * option Error :=
  if HasPrefix message "/image " then
    ("抱歉，图片生成功能暂未实现。", true, None)
  else (message, false, None).

(** [x, ok := m[key].(string)] with [ok] and [x] not the empty string. *)
Definition nonempty_string (v : option JSON) : option string :=
  match v with
  | Some (JString x) => if is_empty x then None else Some x
  | _ => None
  end.

Definition maxWeComMessageLength : Z := 2048.

Definition truncation_note : string :=
  String (ascii_of_nat 10) "... (消息已截断，请查看 Dify 后台获取完整内容)".

(** The two notices of the image branch and the two of the file branch. *)
Definition image_download_failed (imageUrl : string) : string :=
  Sprintf "Dify 返回了一张图片: %s，但下载失败。" [imageUrl].
Definition image_send_failed (imageUrl : string) : string :=
  Sprintf "Dify 返回了一张图片: %s，但发送失败。" [imageUrl].
Definition file_download_failed (fileUrl : string) : string :=
  Sprintf "Dify 返回了一个文件: %s，但下载失败。" [fileUrl].
Definition file_send_failed (fileUrl : string) : string :=
  Sprintf "Dify 返回了一个文件: %s，但发送失败。" [fileUrl].

(** The body of the [if] on a non-empty [imageUrl]. *)
Definition send_image (imageUrl : string) : M (option Error) :=
  let imageExt := Ext imageUrl in
  let imageExt := if is_empty imageExt then ".png" else imageExt in
  let pattern := "dify_image_*" +:+ imageExt in
  t <- call (EvCreateTemp pattern) (fun tr => os_CreateTemp W tr pattern) ;;
  match t with
  | inl _ => SendTextMessage (image_download_failed imageUrl)
  | inr tempFilePath =>
      d <- DownloadFile imageUrl tempFilePath ;;
      match d with
      | Some _ =>
          Remove tempFilePath ;;;
          SendTextMessage (image_download_failed imageUrl)
      | None =>
          deferring (Remove tempFilePath)
            (e <- SendImageMessage tempFilePath ;;
             match e with
             | Some _ => SendTextMessage (image_send_failed imageUrl)
             | None => ret None
             end)
      end
  end.

(** The body of the [if] on a non-empty [fileUrl]. *)
Definition send_file (fileUrl : string) : M (option Error) :=
  let fileExt := Ext fileUrl in
  let fileExt := if is_empty fileExt then ".bin" else fileExt in
  let pattern := "dify_file_*" +:+ fileExt in
  t <- call (EvCreateTemp pattern) (fun tr => os_CreateTemp W tr pattern) ;;
  match t with
  | inl _ => SendTextMessage (file_download_failed fileUrl)
  | inr tempFilePath =>
      d <- DownloadFile fileUrl tempFilePath ;;
      match d with
      | Some _ =>
          Remove tempFilePath ;;;
          SendTextMessage (file_download_failed fileUrl)
      | None =>
          deferring (Remove tempFilePath)
            (e <- SendFileMessage tempFilePath ;;
             match e with
             | Some _ => SendTextMessage (file_send_failed fileUrl)
             | None => ret None
             end)
      end
  end.

(** The tail of [postprocessDifyResponse], from the comment on plain
    text on. *)
Definition send_plain (difyResponse : string) : M (option Error) :=
  if maxWeComMessageLength <? len difyResponse then
    let runes := to_runes difyResponse in
    match slice_to 0 runes (runtime_rune_spare W (List.length runes))
                   (Z.to_nat (maxWeComMessageLength - 50)) with
    | None => panic
    | Some truncatedResponse =>
        SendTextMessage (of_runes truncatedResponse +:+ truncation_note)
    end
  else SendTextMessage difyResponse.

Definition postprocessDifyResponse (difyResponse : string) : M (option Error) :=
  match json_Unmarshal_object W difyResponse with
  | inr jsonResponse =>
      match nonempty_string (jsonResponse !! "image_url") with
      | Some imageUrl => send_image imageUrl
      | None =>
      match nonempty_string (jsonResponse !! "file_url") with
      | Some fileUrl => send_file fileUrl
      | None =>
      match nonempty_string (jsonResponse !! "markdown") with
      | Some markdownContent => SendMarkdownMessage markdownContent
      | None =>
          if bool_decide (is_Some (jsonResponse !! "data"))
             && String.eqb (BotType (Dify cfg)) "workflow"
          then SendTextMessage difyResponse
          else send_plain difyResponse
      end end end
  | inl _ => send_plain difyResponse
  end.

Definition getFileTypeFromPath (filePath : string) : string :=
  let ext := strings_ToLower W (Ext filePath) in
  if existsb (String.eqb ext) [".jpg"; ".jpeg"; ".png"; ".gif"; ".bmp"; ".webp"] then "image"
  else if existsb (String.eqb ext) [".mp3"; ".wav"; ".aac"; ".flac"] then "audio"
  else if existsb (String.eqb ext) [".mp4"; ".avi"; ".mov"; ".wmv"; ".flv"] then "video"
  else if existsb (String.eqb ext) [".txt"; ".md"; ".csv"; ".json"; ".xml"] then "text"
  else "other".

(** [case "chat":] of the switch in [ConvertAndSend]; the result is the
    pair of variables [(difyResponse, difyErr)]. *)
Definition call_chat (message user conversationID filePath : string)
  : M (string * option Error) :=
  up <- (if negb (is_empty filePath) then
           r <- UploadFile filePath user ;;
           let '(uploadResp, uploadErr) := r in
           match uploadErr with
           | Some e =>
               ret (inl (Errorf "failed to upload file to Dify: %w" [] (Some e)))
           | None =>
               match uploadResp !! "id" with
               | Some (JString fileID) =>
                   ret (inr [ ({[ "type" := JString (getFileTypeFromPath filePath);
                                  "transfer_method" := JString "local_file";
                                  "upload_file_id" := JString fileID ]}
                               : gmap string JSON) ])
               | _ => ret (inr [])
               end
           end
         else ret (inr [])) ;;
  match up with
  | inl difyErr => ret (EmptyString, Some difyErr)               (* break *)
  | inr files =>
      let req := mkChatReq (mkBase (Some ∅) user responseModeBlocking files)
                           message conversationID in
      r <- CallDifyChatAPI req ;;
      let '(resp, e) := r in
      match e with
      | Some e => ret (EmptyString, Some (Errorf "dify chat api call failed: %w" [] (Some e)))
      | None => ret (Answer resp, None)
      end
  end.

Definition call_completion (message user : string) : M (string * option Error) :=
  let req := mkCompletionReq (mkBase (Some ∅) user responseModeBlocking []) message in
  r <- CallDifyCompletionAPI req ;;
  let '(resp, e) := r in
  match e with
  | Some e => ret (EmptyString, Some (Errorf "dify completion api call failed: %w" [] (Some e)))
  | None => ret (Text resp, None)
  end.

Definition call_workflow (message user : string) : M (string * option Error) :=
  let req := mkWorkflowReq
               (mkBase (Some {[ "query" := JString message ]}) user responseModeBlocking [])
               (WorkflowID (Dify cfg)) in
  r <- CallDifyWorkflowAPI req ;;
  let '(resp, e) := r in
  match e with
  | Some e => ret (EmptyString, Some (Errorf "dify workflow api call failed: %w" [] (Some e)))
  | None =>
      match json_MarshalIndent W (Data resp) with
      | inl marshalErr =>
          ret (Sprintf "Error: failed to marshal workflow response: %v"
                       [Error_string marshalErr], None)
      | inr jsonBytes => ret (jsonBytes, None)
      end
  end.

(** The switch on the configured bot type. *)
Definition call_backend (message user conversationID filePath : string)
  : M (string * option Error) :=
  let botType := BotType (Dify cfg) in
  if String.eqb botType "chat" then call_chat message user conversationID filePath
  else if String.eqb botType "completion" then call_completion message user
  else if String.eqb botType "workflow" then call_workflow message user
  else ret (EmptyString, Some (Errorf "unsupported dify bot type: %s" [AStr botType] None)).

(** [ConvertAndSend] from the switch on: the backend call, then the
    formatter. *)
Definition call_and_deliver (message user conversationID filePath : string)
  : M (option Error) :=
  r <- call_backend message user conversationID filePath ;;
  let '(difyResponse, difyErr) := r in
  match difyErr with
  | Some e => ret (Some (Errorf "failed to call Dify API: %w" [] (Some e)))
  | None =>
      err <- postprocessDifyResponse difyResponse ;;
      match err with
      | Some e =>
          ret (Some (Errorf "failed to post-process Dify response and send to wecom: %w"
                            [] (Some e)))
      | None => ret None
      end
  end.

Definition ConvertAndSend (message user conversationID filePath : string)
  : M (option Error) :=
  let '(processedMessage, handled, err) := preprocessMessage message in
  match err with
  | Some e => ret (Some (Errorf "message preprocessing failed: %w" [] (Some e)))
  | None =>
      if handled then
        if negb (is_empty processedMessage) then SendTextMessage processedMessage
        else ret None
      else
        let message := processedMessage in
        let message :=
          if is_empty message && negb (is_empty (DefaultPrompt (Dify cfg)))
          then DefaultPrompt (Dify cfg) else message in
        if is_empty message && is_empty filePath then
          ret (Some (Errorf "message content or file path cannot be empty" [] None))
        else call_and_deliver message user conversationID filePath
  end.

End Service.

End service.

(* ===================================================================== *)
(** * The vocabulary of the specification                                 *)
(* ===================================================================== *)

Module spec.
Import gostring config service.

(** The outbound message shape the formatter decides on. *)
Inductive Shape :=
| Image (url : string)
| File (url : string)
| Markdown (content : string)
| RawText
| PlainText.

(** "Field [name] present and non-empty": a string field that is not the
    empty string. *)
Definition present_nonempty (obj : gmap string JSON) (name : string) : option string :=
  match obj !! name with
  | Some (JString s) => if String.eqb s EmptyString then None else Some s
  | _ => None
  end.

(** The decision rules of the formatter in the order of the
    specification, each a partial function on the parsed object. *)
Definition rules (botType : string) : list (gmap string JSON -> option Shape) :=
  [ (fun obj => Image <$> present_nonempty obj "image_url");
    (fun obj => File <$> present_nonempty obj "file_url");
    (fun obj => Markdown <$> present_nonempty obj "markdown");
    (fun obj => match obj !! "data" with
                | Some _ => if String.eqb botType "workflow" then Some RawText else None
                | None => None
                end) ].

Fixpoint first_match (rs : list (gmap string JSON -> option Shape))
         (obj : gmap string JSON) : option Shape :=
  match rs with
  | [] => None
  | r :: rs' => match r obj with
                | Some sh => Some sh
                | None => first_match rs' obj
                end
  end.

(** First match wins; a payload that does not parse, or that no rule
    matches, is plain text. *)
Definition decide_shape (parsed : Error + gmap string JSON) (botType : string) : Shape :=
  match parsed with
  | inl _ => PlainText
  | inr obj => default PlainText (first_match (rules botType) obj)
  end.

(** The typed sends: image, file and markdown. *)
Definition is_typed_send (e : Event) : bool :=
  match e with
  | EvSendImage _ | EvSendFile _ | EvSendMarkdown _ => true
  | _ => false
  end.

(** What the robot answers to a send made after the trace [tr]. *)
Definition robot_answer (W : World) (tr : Trace) (e : Event) : option Error :=
  match e with
  | EvSendText m => robot_SendTextMessage W tr m
  | EvSendMarkdown m => robot_SendMarkdownMessage W tr m
  | EvSendImage p => robot_SendImageMessage W tr p
  | EvSendFile p => robot_SendFileMessage W tr p
  | _ => None
  end.

Definition sends (tr : Trace) : Trace := List.filter is_send tr.

(** The pattern of the scratch file of an artifact: [prefix] and the
    extension of the URL, [default] when it has none. *)
Definition scratch_pattern (prefix default url : string) : string :=
  prefix +:+ (if is_empty (Ext url) then default else Ext url).

(** One Text [text] is sent after [tr ++ before] and [before], and the
    robot's answer to it is returned. *)
Definition text_delivered (W : World) (tr before : Trace) (text : string)
           (r : Result (option Error)) (added : Trace) : Prop :=
  added = before ++ [EvSendText text]
  /\ r = Ret (robot_SendTextMessage W (tr ++ before) text).

(** An artifact at [url] is forwarded: a scratch file is created, the
    artifact is downloaded into it and the scratch file goes out as the
    typed message [typed]; the scratch file is removed.  A failure of a
    sub-step degrades to a Text: [download_failed] when the scratch file
    cannot be created or the download fails, [send_failed], after the typed
    message, when the robot refuses it.  [r] is what the formatter returns
    and [added] the events of the invocation, in order. *)
Definition artifact_delivered (W : World) (tr : Trace) (url pattern : string)
           (typed : string -> Event) (download_failed send_failed : string)
           (r : Result (option Error)) (added : Trace) : Prop :=
  let created := [EvCreateTemp pattern] in
  match os_CreateTemp W tr pattern with
  | inl _ => text_delivered W tr created download_failed r added
  | inr path =>
      exists d downloading,
        DownloadFile W url path (tr ++ created) = (Ret d, (tr ++ created) ++ downloading)
        /\ sends downloading = []
        /\ match d with
           | Some _ =>
               text_delivered W tr (created ++ downloading ++ [EvRemove path])
                              download_failed r added
           | None =>
               match robot_answer W ((tr ++ created) ++ downloading) (typed path) with
               | None =>
                   added = created ++ downloading ++ [typed path; EvRemove path]
                   /\ r = Ret None
               | Some _ =>
                   added = created ++ downloading
                           ++ [typed path; EvSendText send_failed; EvRemove path]
                   /\ r = Ret (robot_SendTextMessage
                                 W (((tr ++ created) ++ downloading) ++ [typed path])
                                 send_failed)
               end
           end
  end.

(** What a decided shape delivers: [added] are the events of one
    invocation that starts after [tr], in order, and [r] is what the
    formatter returns.  Plain text within the limit goes out as it is; over
    the limit it is cut to the slice [runes[:2048-50]] of its runes and the
    note is appended, the slice expression panicking, with nothing sent,
    when it reaches beyond the capacity of the rune slice. *)
Definition delivered (W : World) (tr : Trace) (sh : Shape) (payload : string)
           (r : Result (option Error)) (added : Trace) : Prop :=
  match sh with
  | Image url =>
      artifact_delivered W tr url (scratch_pattern "dify_image_*" ".png" url) EvSendImage
                         (image_download_failed url) (image_send_failed url) r added
  | File url =>
      artifact_delivered W tr url (scratch_pattern "dify_file_*" ".bin" url) EvSendFile
                         (file_download_failed url) (file_send_failed url) r added
  | Markdown content =>
      added = [EvSendMarkdown content]
      /\ r = Ret (robot_SendMarkdownMessage W tr content)
  | RawText => text_delivered W tr [] payload r added
  | PlainText =>
      if len payload <=? maxWeComMessageLength
      then text_delivered W tr [] payload r added
      else
        let runes := to_runes payload in
        match slice_to 0 runes (runtime_rune_spare W (List.length runes)) 1998 with
        | Some kept => text_delivered W tr [] (of_runes kept +:+ truncation_note) r added
        | None => added = [] /\ r = Panic
        end
  end.

(** In the events [added] that follow [tr ++ before], a typed send that
    the robot accepts is the only send of the invocation, and the
    formatter returns without an error. *)
Fixpoint quiet_after_success (W : World) (tr : Trace) (r : Result (option Error))
         (before added : Trace) : Prop :=
  match added with
  | [] => True
  | e :: rest =>
      (is_typed_send e = true -> robot_answer W (tr ++ before) e = None ->
       sends before = [] /\ sends rest = [] /\ r = Ret None)
      /\ quiet_after_success W tr r (before ++ [e]) rest
  end.

(** The events of [k] failed attempts of [req], each followed by its
    backoff: attempt [i] (from 1) sleeps [i] seconds. *)
Definition backoff (req : HttpRequest) (k : nat) : Trace :=
  List.concat (List.map (fun i => [EvDo req; EvSleep (Z.of_nat i)]) (seq 1 k)).

(** The request [doDifyRequest] builds. *)
Definition request_of (cfg : AppConfig) (method path body contentType : string)
  : HttpRequest :=
  mkRequest method (BaseURL (Dify cfg) +:+ path) body contentType
            ("Bearer " +:+ APIKey (Dify cfg)).

(** The request a backend operation marshals: the inputs made non-nil (and
    given the default role by chat and completion), the response mode
    forced to blocking. *)
Definition chat_normalized (request : DifyChatRequest) : DifyChatRequest :=
  mkChatReq (set_base (chat_base request) (with_role (Inputs (chat_base request))))
            (Query request) (ConversationID request).
Definition completion_normalized (request : DifyCompletionRequest) : DifyCompletionRequest :=
  mkCompletionReq (set_base (completion_base request)
                            (with_role (Inputs (completion_base request))))
                  (Prompt request).
Definition workflow_normalized (request : DifyWorkflowRequest) : DifyWorkflowRequest :=
  mkWorkflowReq (set_base (workflow_base request)
                          (default ∅ (Inputs (workflow_base request))))
                (WorkflowID_ request).
Definition not_configured_error : Error :=
  Errorf "dify base url 或 api key 未配置" [] None.

End spec.

(* ===================================================================== *)
(** * Concrete worlds and payloads                                        *)
(* ===================================================================== *)

Module examples.
Import gostring config service.

Definition dq : string := String (ascii_of_nat 34) EmptyString.
Definition quoted (s : string) : string := dq +:+ s +:+ dq.
(** The JSON text of an object with one string field. *)
Definition object1 (key value : string) : string :=
  "{" +:+ quoted key +:+ ":" +:+ quoted value +:+ "}".

Fixpoint repeat_char (c : ascii) (n : nat) : string :=
  match n with
  | O => EmptyString
  | S n' => String c (repeat_char c n')
  end.

Definition field (key value : string) : string := quoted key +:+ ":" +:+ value.

(** What [json.Marshal] gives for the requests of the examples: no files,
    and the inputs that [ConvertAndSend] passes for each bot type. *)
Definition base_json (inputs user : string) : string :=
  field "inputs" inputs +:+ "," +:+ field "user" (quoted user) +:+ ","
  +:+ field "response_mode" (quoted "blocking").
Definition chat_json (user query conversationID : string) : string :=
  "{" +:+ base_json ("{" +:+ field "role" (quoted "员工") +:+ "}") user +:+ ","
      +:+ field "query" (quoted query) +:+ ","
      +:+ field "conversation_id" (quoted conversationID) +:+ "}".
Definition completion_json (user prompt : string) : string :=
  "{" +:+ base_json ("{" +:+ field "role" (quoted "员工") +:+ "}") user +:+ ","
      +:+ field "prompt" (quoted prompt) +:+ "}".
Definition workflow_json (user query workflowID : string) : string :=
  "{" +:+ base_json ("{" +:+ field "query" (quoted query) +:+ "}") user +:+ ","
      +:+ field "workflow_id" (quoted workflowID) +:+ "}".

(** A decoder that knows the texts of a table and rejects the rest. *)
Fixpoint decode_by {A} (table : list (string * A)) (text : string) : Error + A :=
  match table with
  | [] => inl (External "invalid character looking for beginning of value")
  | (t, a) :: rest => if String.eqb text t then inr a else decode_by rest text
  end.

Definition refused : Error := External "dial tcp: connection refused".

(** The answer to the n-th call of a kind (from 0), where [seen] counts
    the earlier calls of that kind in the trace. *)
Definition nth_answer {A} (answers : list A) (default : A)
           (seen : Event -> bool) (tr : Trace) : A :=
  nth (List.length (List.filter seen tr)) answers default.

Definition image_url : string := "http://x/y.png".
Definition image_payload : string := object1 "image_url" image_url.
Definition hello_body : string := object1 "answer" "hi there".
Definition empty_answer_body : string := object1 "answer" EmptyString.
Definition created_body : string := object1 "answer" "created".
Definition error_body : string :=
  "{" +:+ quoted "code" +:+ ":" +:+ quoted "invalid_param" +:+ ","
      +:+ quoted "message" +:+ ":" +:+ quoted "bad request" +:+ ","
      +:+ quoted "status" +:+ ":400}".

(** A world in which the backend answers the successive [Do] calls with
    [answers] (and refuses the connection afterwards), downloads answer
    with [download], and the robot accepts exactly the sends in
    [accepted]. *)
Definition world (answers : list (Error + HttpResponse)) (download : Error + Z)
           (accepted : Event -> bool) : World :=
  {| http_NewRequest := fun _ _ => None;
     http_Do := fun tr _ => nth_answer answers (inl refused) is_do tr;
     http_Get := fun _ _ => download;
     os_CreateTemp := fun _ pattern => inr ("/tmp/" +:+ pattern);
     os_Create := fun _ _ => None;
     io_Copy_to_file := fun _ _ => None;
     os_Open := fun _ _ => None;
     io_Copy_from_file := fun _ _ => inr "content";
     multipart_CreateFormFile := fun _ => None;
     multipart_WriteField := fun _ _ => None;
     multipart_body := fun name content user => name +:+ content +:+ user;
     multipart_FormDataContentType := "multipart/form-data; boundary=b";
     json_Marshal_chat :=
       fun r => inr (chat_json (User (chat_base r)) (Query r) (ConversationID r));
     json_Marshal_completion :=
       fun r => inr (completion_json (User (completion_base r)) (Prompt r));
     json_Marshal_workflow :=
       fun r => inr (workflow_json (User (workflow_base r))
                                   (match Inputs (workflow_base r) with
                                    | Some m => match m !! "query" with
                                                | Some (JString q) => q
                                                | _ => EmptyString
                                                end
                                    | None => EmptyString
                                    end)
                                   (WorkflowID_ r));
     json_MarshalIndent := fun _ => inr "{}";
     json_Unmarshal_error :=
       decode_by [(error_body, mkAPIError "invalid_param" "bad request" 400);
                  (created_body, mkAPIError EmptyString EmptyString 0)];
     json_Unmarshal_chat :=
       decode_by [(hello_body, mkChatResp "hi there");
                  (created_body, mkChatResp "created");
                  (empty_answer_body, mkChatResp EmptyString)];
     json_Unmarshal_completion := decode_by [];
     json_Unmarshal_workflow := decode_by [];
     json_Unmarshal_object :=
       decode_by [(image_payload, {[ "image_url" := JString image_url ]})];
     strings_ToLower := fun s => s;
     robot_SendTextMessage := fun _ m => if accepted (EvSendText m) then None
                                        else Some (External "wecom text message failed");
     robot_SendMarkdownMessage := fun _ m => if accepted (EvSendMarkdown m) then None
                                            else Some (External "wecom markdown message failed");
     robot_SendImageMessage := fun _ p => if accepted (EvSendImage p) then None
                                         else Some (External "failed to upload image for WeCom");
     robot_SendFileMessage := fun _ p => if accepted (EvSendFile p) then None
                                        else Some (External "failed to upload file for WeCom");
     runtime_rune_spare := fun _ => 0%nat |}.

Definition all_accepted (e : Event) : bool := true.

Definition cfg_of (botType defaultPrompt : string) : AppConfig :=
  mkAppConfig (mkDifyConfig "app-key" "https://api.dify.ai" botType "wf-1" defaultPrompt).

Definition chat_cfg : AppConfig := cfg_of "chat" EmptyString.

End examples.

(* ===================================================================== *)
(** * The conversation store: histories of calls                          *)
(* ===================================================================== *)

Module store_history.
Import store.

(** The user a call is made for. *)
Definition user_of (c : Call) : string :=
  match c with
  | CGet u | CSave u _ | CNew u _ | CDelete u => u
  end.

(** What a call does to the entry of [u]: [Some (Some id)] writes [id],
    [Some None] removes the entry, [None] leaves it alone. *)
Definition effect_on (u : string) (c : Call) : option (option string) :=
  match c with
  | CGet _ => None
  | CSave v id => if bool_decide (v = u) then Some (Some id) else None
  | CNew v fresh => if bool_decide (v = u) then Some (Some fresh) else None
  | CDelete v => if bool_decide (v = u) then Some None else None
  end.

(** The entry of [u] after the calls [cs], from the entry before them: the
    last call with an effect on [u] decides. *)
Definition last_effect (u : string) (cs : list Call) (entry : option string)
  : option string :=
  fold_left (fun acc c => default acc (effect_on u c)) cs entry.

End store_history.

(* ===================================================================== *)
(** * The pipeline: vocabulary for its traces                             *)
(* ===================================================================== *)

Module pipeline_spec.
Import gostring config service spec.

(** A computation that, from any trace, adds only events that satisfy [q]. *)
Definition emits {A} (q : Event -> Prop) (m : M A) : Prop :=
  forall tr, exists r added, m tr = (r, tr ++ added) /\ Forall q added.

(** The events of the backend stage: HTTP attempts at the AI backend, their
    backoff sleeps, and the reading of an attachment. *)
Definition is_backend_event (e : Event) : Prop :=
  match e with
  | EvDo _ | EvSleep _ | EvOpen _ | EvReadFile _ => True
  | _ => False
  end.

(** The events of the delivery stage: the download of an artifact into a
    scratch file, its removal, and the sends. *)
Definition is_delivery_event (e : Event) : Prop :=
  match e with
  | EvDo _ | EvSleep _ | EvOpen _ | EvReadFile _ => False
  | _ => True
  end.

(** Every HTTP attempt among the events is the request [req]. *)
Definition attempt_of (req : HttpRequest) (e : Event) : Prop :=
  match e with
  | EvDo r => r = req
  | EvSleep _ => True
  | _ => False
  end.

(** Every HTTP attempt among the events is a call on a request built as
    [req]: the same method, URL, content type and authorization.  The body
    is left out: of a request that is tried again, only the first attempt
    is sure to transmit the whole body. *)
Definition same_call (req : HttpRequest) (e : Event) : Prop :=
  match e with
  | EvDo r =>
      Method r = Method req /\ URL r = URL req
      /\ ContentType r = ContentType req /\ Authorization r = Authorization req
  | EvSleep _ => True
  | _ => False
  end.

(** Every HTTP attempt among the events goes to one of the URLs [urls]. *)
Definition attempt_at (urls : list string) (e : Event) : Prop :=
  match e with
  | EvDo r => In (URL r) urls
  | _ => True
  end.

(** The seconds slept in a trace. *)
Definition total_sleep (tr : Trace) : Z :=
  fold_right (fun e acc => match e with EvSleep n => n + acc | _ => acc end) 0 tr.

(** The backend endpoints a pipeline run may address: that of the
    configured bot type, after the upload endpoint when the bot type is
    chat and an attachment is given; none for another bot type. *)
Definition endpoints (cfg : AppConfig) (filePath : string) : list string :=
  let base := BaseURL (Dify cfg) in
  let botType := BotType (Dify cfg) in
  if String.eqb botType "chat" then
    (if is_empty filePath then [] else [base +:+ difyFileUploadPath])
    ++ [base +:+ difyChatMessagesPath]
  else if String.eqb botType "completion" then [base +:+ difyCompletionMessagesPath]
  else if String.eqb botType "workflow" then [base +:+ difyWorkflowRunPath]
  else [].

(** A computation that makes at most [n] HTTP attempts at the backend. *)
Definition within {A} (n : nat) (m : M A) : Prop :=
  forall tr, exists r added,
    m tr = (r, tr ++ added) /\ (List.length (List.filter is_do added) <= n)%nat.

(** Among the events [added] after [tr] there is a send, and the robot's
    answer to the last one is [o]. *)
Definition last_send_answered (W : World) (tr added : Trace) (o : option Error) : Prop :=
  exists before e after,
    added = before ++ e :: after
    /\ is_send e = true
    /\ sends after = []
    /\ robot_answer W (tr ++ before) e = o.

(** The entry [ConvertAndSend] puts in the files of a chat request for an
    uploaded attachment. *)
Definition attachment (W : World) (filePath fileID : string) : gmap string JSON :=
  {[ "type" := JString (getFileTypeFromPath W filePath);
     "transfer_method" := JString "local_file";
     "upload_file_id" := JString fileID ]}.

(** The chat request [ConvertAndSend] builds. *)
Definition chat_request (message user conversationID : string)
           (files : list (gmap string JSON)) : DifyChatRequest :=
  mkChatReq (mkBase (Some ∅) user responseModeBlocking files) message conversationID.

(** The reply of the pre-filter to a command. *)
Definition command_reply : string := "抱歉，图片生成功能暂未实现。".

(** The message that goes to the backend: the default prompt for an empty
    message when one is configured. *)
Definition effective_message (cfg : AppConfig) (message : string) : string :=
  if is_empty message && negb (is_empty (DefaultPrompt (Dify cfg)))
  then DefaultPrompt (Dify cfg) else message.

Definition text_only (e : Event) : Prop :=
  match e with EvSendText _ => True | _ => False end.

Definition no_remove (e : Event) : Prop :=
  match e with EvRemove _ => False | _ => True end.



Definition do_count (tr : Trace) : nat := List.length (List.filter is_do tr).






End pipeline_spec.

(* ===================================================================== *)
(** * More concrete worlds                                                *)
(* ===================================================================== *)

Module more_examples.
Import gostring config service examples.

Definition upload_body : string :=
  "{" +:+ field "id" (quoted "file-123") +:+ ","
      +:+ field "name" (quoted "report.txt") +:+ "}".

Definition upload_response : gmap string JSON :=
  {[ "id" := JString "file-123"; "name" := JString "report.txt" ]}.

(** The JSON text of one entry of the files of a chat request (the keys of
    a map are written in sorted order). *)
Definition file_json (f : gmap string JSON) : string :=
  let str k := match f !! k with Some (JString s) => s | _ => EmptyString end in
  "{" +:+ field "transfer_method" (quoted (str "transfer_method")) +:+ ","
      +:+ field "type" (quoted (str "type")) +:+ ","
      +:+ field "upload_file_id" (quoted (str "upload_file_id")) +:+ "}".

(** What [json.Marshal] gives for a chat request of [ConvertAndSend] with
    at most one file. *)
Definition chat_json_with_files (r : DifyChatRequest) : string :=
  match Files (chat_base r) with
  | [] => chat_json (User (chat_base r)) (Query r) (ConversationID r)
  | f :: _ =>
      "{" +:+ base_json ("{" +:+ field "role" (quoted "员工") +:+ "}") (User (chat_base r))
          +:+ "," +:+ field "files" ("[" +:+ file_json f +:+ "]") +:+ ","
          +:+ field "query" (quoted (Query r)) +:+ ","
          +:+ field "conversation_id" (quoted (ConversationID r)) +:+ "}"
  end.

Definition workflow_body : string :=
  "{" +:+ field "data" ("{" +:+ field "result" "42" +:+ "}") +:+ "}".

Definition workflow_data : gmap string JSON := {[ "result" := JNumber "42" ]}.

(** ASCII lower case, which is what [strings.ToLower] does on ASCII text. *)
Definition ascii_lower (c : ascii) : ascii :=
  let n := nat_of_ascii c in
  if (65 <=? n)%nat && (n <=? 90)%nat then ascii_of_nat (n + 32) else c.

Fixpoint lower (s : string) : string :=
  match s with
  | EmptyString => EmptyString
  | String c rest => String (ascii_lower c) (lower rest)
  end.

(** The world of [examples.world] in which, besides, the upload response
    and the workflow response decode, chat requests with a file marshal,
    a workflow result serialises or not as [indent] says, and
    [strings.ToLower] lowers ASCII. *)
Definition world2 (answers : list (Error + HttpResponse)) (download : Error + Z)
           (accepted : Event -> bool) (indent : Error + string) : World :=
  let W0 := world answers download accepted in
  {| http_NewRequest := http_NewRequest W0;
     http_Do := http_Do W0;
     http_Get := http_Get W0;
     os_CreateTemp := os_CreateTemp W0;
     os_Create := os_Create W0;
     io_Copy_to_file := io_Copy_to_file W0;
     os_Open := os_Open W0;
     io_Copy_from_file := io_Copy_from_file W0;
     multipart_CreateFormFile := multipart_CreateFormFile W0;
     multipart_WriteField := multipart_WriteField W0;
     multipart_body := multipart_body W0;
     multipart_FormDataContentType := multipart_FormDataContentType W0;
     json_Marshal_chat := fun r => inr (chat_json_with_files r);
     json_Marshal_completion := json_Marshal_completion W0;
     json_Marshal_workflow := json_Marshal_workflow W0;
     json_MarshalIndent := fun _ => indent;
     json_Unmarshal_error := json_Unmarshal_error W0;
     json_Unmarshal_chat := json_Unmarshal_chat W0;
     json_Unmarshal_completion := json_Unmarshal_completion W0;
     json_Unmarshal_workflow :=
       decode_by [(workflow_body, mkWorkflowResp (Some workflow_data))];
     json_Unmarshal_object :=
       decode_by [(image_payload, {[ "image_url" := JString image_url ]});
                  (upload_body, upload_response)];
     strings_ToLower := lower;
     robot_SendTextMessage := robot_SendTextMessage W0;
     robot_SendMarkdownMessage := robot_SendMarkdownMessage W0;
     robot_SendImageMessage := robot_SendImageMessage W0;
     robot_SendFileMessage := robot_SendFileMessage W0;
     runtime_rune_spare := runtime_rune_spare W0 |}.

Definition ok (body : string) : Error + HttpResponse := inr (mkResponse 200 (inr body)).






End more_examples.

(* ===================================================================== *)
(** * Texts of more than one byte per character                           *)
(* ===================================================================== *)

Module text_examples.
Import gostring.

(** U+00E9 in UTF-8: the bytes C3 A9. *)
Definition e_acute : string :=
  String (ascii_of_nat 195) (String (ascii_of_nat 169) EmptyString).

Fixpoint repeat_string (s : string) (n : nat) : string :=
  match n with
  | O => EmptyString
  | S n' => s +:+ repeat_string s n'
  end.

(** 2000 characters in 4000 bytes. *)
Definition accented_text : string := repeat_string e_acute 2000.

End text_examples.

(* ===================================================================== *)
(** * package config: the whole configuration, its validation and loading *)
(* ===================================================================== *)

Module fullconfig.
Import gostring.

Record WeComConfig := mkWeComConfig { WebhookURL : string }.

Record SchedulerConfig := mkSchedulerConfig {
  Enable : bool;
  CronSpec : string;
  Interval : Z;
  Unit : string;
  TargetURL : string;
  DefaultMessage : string
}.

(** [AppConfig] with all its fields; [config.AppConfig] is its part that
    the service code reads. *)
Record AppConfig := mkAppConfig {
  Dify : config.DifyConfig;
  WeCom : WeComConfig;
  AuthToken : string;
  EnableAuth : bool;
  Schedulers : list SchedulerConfig;
  LogToFile : bool;
  LogFilePath : string;
  LogMaxSizeBytes : Z;
  LogMaxBackups : Z;
  LogMaxAgeDays : Z;
  LogCompress : bool
}.

Definition service_view (c : AppConfig) : config.AppConfig :=
  config.mkAppConfig (Dify c).

Definition Validate (c : AppConfig) : option Error :=
  if is_empty (config.APIKey (Dify c)) then
    Some (Errorf "dify API Key 未配置" [] None)
  else if is_empty (config.BaseURL (Dify c)) then
    Some (Errorf "dify Base URL 未配置" [] None)
  else if is_empty (WebhookURL (WeCom c)) then
    Some (Errorf "企业微信 Webhook URL 未配置" [] None)
  else if EnableAuth c && is_empty (AuthToken c) then
    Some (Errorf "认证 Token 已开启但未配置" [] None)
  else None.

(** [strconv.Atoi] on a 64-bit target: an optional sign, then one decimal
    digit or more, the value within the range of [int]; anything else is an
    error ([None]). *)
Definition digit_value (c : ascii) : option Z :=
  let n := Z.of_nat (nat_of_ascii c) in
  if (48 <=? n) && (n <=? 57) then Some (n - 48) else None.

Fixpoint digits_value (s : string) (acc : Z) : option Z :=
  match s with
  | EmptyString => Some acc
  | String c rest =>
      match digit_value c with
      | Some d => digits_value rest (acc * 10 + d)
      | None => None
      end
  end.

Definition minInt : Z := - 2 ^ 63.
Definition maxInt : Z := 2 ^ 63 - 1.

Definition Atoi (s : string) : option Z :=
  match s with
  | EmptyString => None
  | String c rest =>
      let negative := Ascii.eqb c "-"%char in
      let body := if negative || Ascii.eqb c "+"%char then rest else s in
      if is_empty body then None
      else match digits_value body 0 with
           | Some n =>
               let v := if negative then - n else n in
               if (minInt <=? v) && (v <=? maxInt) then Some v else None
           | None => None
           end
  end.

Definition parseInt (s : string) (defaultValue : Z) : Z :=
  if is_empty s then defaultValue
  else match Atoi s with
       | Some i => i
       | None => defaultValue
       end.

(** What [os.Stat] says of the YAML file. *)
Inductive Stat :=
| Exists
| NotExist (err : Error)       (* [os.IsNotExist(err)] *)
| StatFailed (err : Error).

(** The process environment and the file system as [LoadConfig] sees them;
    [yaml_Unmarshal] decodes into the zero configuration, and
    [os.ExpandEnv(s)] is [os.Expand(s, os.Getenv)]. *)
Record Env := mkEnv {
  os_Stat : string -> Stat;
  os_ReadFile : string -> Error + string;
  os_Expand : string -> (string -> string) -> string;
  yaml_Unmarshal : string -> Error + AppConfig;
  os_Getenv : string -> string
}.

(** [filepath.Join("internal", "config", "config.yaml")] *)
Definition yamlConfigPath : string := "internal/config/config.yaml".

(** The configuration [LoadConfig] builds from the environment. *)
Definition from_environment (E : Env) : AppConfig :=
  mkAppConfig
    (config.mkDifyConfig (os_Getenv E "DIFY_API_KEY") (os_Getenv E "DIFY_BASE_URL")
                         (os_Getenv E "DIFY_BOT_TYPE") (os_Getenv E "DIFY_WORKFLOW_ID")
                         (os_Getenv E "DIFY_DEFAULT_PROMPT"))
    (mkWeComConfig (os_Getenv E "WECHAT_WEBHOOK_URL"))
    (os_Getenv E "AUTH_TOKEN")
    (String.eqb (os_Getenv E "ENABLE_AUTH") "true")
    [mkSchedulerConfig (String.eqb (os_Getenv E "SCHEDULER_ENABLE") "true")
                       (os_Getenv E "SCHEDULER_CRON_SPEC")
                       (parseInt (os_Getenv E "SCHEDULER_INTERVAL") 0)
                       (os_Getenv E "SCHEDULER_UNIT")
                       (os_Getenv E "SCHEDULER_TARGET_URL")
                       (os_Getenv E "SCHEDULER_DEFAULT_MESSAGE")]
    (String.eqb (os_Getenv E "LOG_TO_FILE") "true")
    (os_Getenv E "LOG_FILE_PATH")
    (parseInt (os_Getenv E "LOG_MAX_SIZE_MB") 100)
    (parseInt (os_Getenv E "LOG_MAX_BACKUPS") 0)
    (parseInt (os_Getenv E "LOG_MAX_AGE_DAYS") 0)
    (String.eqb (os_Getenv E "LOG_COMPRESS") "true").

Definition validated (cfg : AppConfig) : Error + AppConfig :=
  match Validate cfg with
  | Some err => inl (Errorf "配置验证失败: %v" [AStr (Error_string err)] None)
  | None => inr cfg
  end.

Definition LoadConfig (E : Env) : Error + AppConfig :=
  match os_Stat E yamlConfigPath with
  | Exists =>
      match os_ReadFile E yamlConfigPath with
      | inl readErr =>
          inl (Errorf "读取 YAML 配置失败: %v" [AStr (Error_string readErr)] None)
      | inr data =>
          let configContent := os_Expand E data (os_Getenv E) in
          match yaml_Unmarshal E configContent with
          | inl unmarshalErr =>
              inl (Errorf "解析 YAML 配置失败: %v" [AStr (Error_string unmarshalErr)] None)
          | inr cfg => validated cfg
          end
      end
  | NotExist _ => validated (from_environment E)
  | StatFailed fileErr =>
      inl (Errorf "检查 YAML 配置文件失败: %v" [AStr (Error_string fileErr)] None)
  end.

(** ** package main: what becomes of a configured scheduler *)

(** What the loop body of [main] decides for one scheduler: skipped
    because not enabled, handed to [c.AddFunc] with a spec, or not started.
    What becomes of the spec and of the schedulers after it is
    [schedule_all] below. *)
Inductive Started :=
| NotEnabled
| AddFunc (cronSpec : string)
| UnknownUnit
| InvalidInterval.

Definition start_scheduler (s : SchedulerConfig) : Started :=
  if negb (Enable s) then NotEnabled
  else if negb (is_empty (CronSpec s)) then AddFunc (CronSpec s)
  else
    let every verb :=
      if Interval s <=? 0 then InvalidInterval
      else AddFunc (Sprintf verb [render (AInt (Interval s))]) in
    if String.eqb (Unit s) "second" then every "@every %ds"
    else if String.eqb (Unit s) "minute" then every "@every %dm"
    else if String.eqb (Unit s) "hour" then every "@every %dh"
    else UnknownUnit.

(** The loop of [main] over the configured schedulers, from index [i] on.
    [cron_Parse] is the parser of [c.AddFunc]: when it rejects a spec,
    [log.Fatalf] ends the process, and no later scheduler is looked at.
    The result is the list of the specs that cron holds, in order, and the
    message of [log.Fatalf] when the process was ended. *)
Definition fatal_format (s : SchedulerConfig) : string :=
  if negb (is_empty (CronSpec s))
  then "%s：添加 Cron 表达式失败: %v"
  else "%s：添加周期性 Cron 表达式失败: %v".

Fixpoint schedule_all (cron_Parse : string -> option Error) (i : Z)
         (schedulers : list SchedulerConfig) (entries : list string)
  : list string * option string :=
  match schedulers with
  | [] => (entries, None)
  | schedulerCfg :: rest =>
      match start_scheduler schedulerCfg with
      | AddFunc cronSpec =>
          match cron_Parse cronSpec with
          | Some err =>
              let taskName := Sprintf "定时器 %d" [render (AInt i)] in
              (entries,
               Some (Sprintf (fatal_format schedulerCfg) [taskName; Error_string err]))
          | None => schedule_all cron_Parse (i + 1) rest (entries ++ [cronSpec])
          end
      | _ => schedule_all cron_Parse (i + 1) rest entries
      end
  end.

(** The specs of the schedulers of a list that are to be started, in
    order. *)
Definition to_start (schedulers : list SchedulerConfig) : list string :=
  omap (fun s => match start_scheduler s with
                 | AddFunc cronSpec => Some cronSpec
                 | _ => None
                 end) schedulers.

(** The units of a periodic scheduler, each with the letter it has in a
    cron spec. *)
Definition unit_suffix : list (string * string) :=
  [("second", "s"); ("minute", "m"); ("hour", "h")].

(** A file system without the YAML file and an environment given as a
    table. *)
Fixpoint getenv (table : list (string * string)) (name : string) : string :=
  match table with
  | [] => EmptyString
  | (n, v) :: rest => if String.eqb n name then v else getenv rest name
  end.

Definition environment_only (table : list (string * string)) : Env :=
  {| os_Stat := fun _ => NotExist (External "stat internal/config/config.yaml: no such file or directory");
     os_ReadFile := fun _ => inl (External "open internal/config/config.yaml: no such file or directory");
     os_Expand := fun s _ => s;
     yaml_Unmarshal := fun _ => inl (External "yaml: unmarshal errors");
     os_Getenv := getenv table |}.

Definition container_environment : list (string * string) :=
  [("DIFY_API_KEY", "app-key"); ("DIFY_BASE_URL", "https://api.dify.ai");
   ("DIFY_BOT_TYPE", "chat");
   ("WECHAT_WEBHOOK_URL", "https://qyapi.weixin.qq.com/cgi-bin/webhook/send?key=k-1");
   ("SCHEDULER_ENABLE", "true"); ("SCHEDULER_INTERVAL", "15");
   ("SCHEDULER_UNIT", "minute")].

End fullconfig.

(* ===================================================================== *)
(** * package wecom: the group robot                                      *)
(* ===================================================================== *)

Module wecom.
Import gostring.

Record Article := mkArticle {
  Title : string;
  Description : string;
  ArticleURL : string;
  PicURL : string
}.

(** The payloads that the senders below build. *)
Inductive Payload :=
| Content (content : string)
| MediaID (media_id : string)
| Mention (content : string) (mentioned_list mentioned_mobile_list : list string)
| Articles (articles : list Article).

(** The result of the upload endpoint. *)
Record UploadResult := mkUploadResult {
  up_ErrCode : Z;
  up_ErrMsg : string;
  up_MediaID : string;
  up_Type : string;
  up_CreatedAt : string
}.

(** The result of the webhook. *)
Record SendResult := mkSendResult {
  ErrCode : Z;
  ErrMsg : string
}.

(** The world outside the robot.  [url_Parse] gives what
    [parsedURL.Query().Get] answers for each name. *)
Record RobotWorld := mkRobotWorld {
  url_Parse : string -> Error + (string -> string);
  os_Open : Trace -> string -> option Error;
  multipart_CreateFormFile : string -> string -> option Error;
  io_Copy : Trace -> string -> Error + string;           (* the content *)
  multipart_body : string -> string -> string -> string;
  multipart_FormDataContentType : string;
  http_NewRequest : string -> string -> option Error;
  http_Do : Trace -> HttpRequest -> Error + HttpResponse;
  json_Marshal : string -> Payload -> Error + string;    (* of the message map *)
  json_Unmarshal_upload : string -> Error + UploadResult;
  json_Unmarshal_send : string -> Error + SendResult
}.

Definition uploadEndpoint : string :=
  "https://qyapi.weixin.qq.com/cgi-bin/webhook/upload_media?key=%s&type=%s".
Definition rateLimited : Z := 45009.

Section Robot.
Variable W : RobotWorld.
Variable cfg : fullconfig.AppConfig.

Local Open Scope go_scope.

Definition webhookURL : string := fullconfig.WebhookURL (fullconfig.WeCom cfg).

Definition getWebhookKey : Error + string :=
  match url_Parse W webhookURL with
  | inl err => inl (Errorf "failed to parse wecom webhook url: %w" [] (Some err))
  | inr query =>
      let key := query "key" in
      if is_empty key
      then inl (Errorf "wecom webhook url is missing 'key' parameter" [] None)
      else inr key
  end.

(** The operand of a [%w] that is not the last verb is written in its
    place among the operands, where [Error_string] prints it as Go does. *)
Definition uploadMedia (mediaFilePath mediaType : string)
  : M (string * option Error) :=
  match getWebhookKey with
  | inl err => ret (EmptyString, Some err)
  | inr key =>
      let uploadURL := Sprintf uploadEndpoint [key; mediaType] in
      o <- call (EvOpen mediaFilePath) (fun tr => os_Open W tr mediaFilePath) ;;
      match o with
      | Some err =>
          ret (EmptyString, Some (Errorf "failed to open media file: %w" [] (Some err)))
      | None =>
          match multipart_CreateFormFile W "media" (Base mediaFilePath) with
          | Some err =>
              ret (EmptyString,
                   Some (Errorf "failed to create form file for media: %w" [] (Some err)))
          | None =>
              c <- call (EvReadFile mediaFilePath)
                        (fun tr => io_Copy W tr mediaFilePath) ;;
              match c with
              | inl err =>
                  ret (EmptyString,
                       Some (Errorf "failed to copy media file content: %w" [] (Some err)))
              | inr content =>
                  let body := multipart_body W "media" (Base mediaFilePath) content in
                  match http_NewRequest W "POST" uploadURL with
                  | Some err =>
                      ret (EmptyString,
                           Some (Errorf "failed to create media upload request: %w" []
                                        (Some err)))
                  | None =>
                      let req := mkRequest "POST" uploadURL body
                                           (multipart_FormDataContentType W) EmptyString in
                      r <- call (EvDo req) (fun tr => http_Do W tr req) ;;
                      match r with
                      | inl err =>
                          ret (EmptyString,
                               Some (Errorf "failed to send media upload request: %w" []
                                            (Some err)))
                      | inr resp =>
                          match Body resp with
                          | inl err =>
                              ret (EmptyString,
                                   Some (Errorf "failed to read media upload response body: %w"
                                                [] (Some err)))
                          | inr respBody =>
                              match json_Unmarshal_upload W respBody with
                              | inl err =>
                                  ret (EmptyString,
                                       Some (Errorf
                                         "failed to parse media upload response: %w, body: %s"
                                         [AStr (Error_string err); AStr respBody] None))
                              | inr result =>
                                  if negb (up_ErrCode result =? 0) then
                                    ret (EmptyString,
                                         Some (Errorf
                                           "wecom media upload failed: %s (errcode: %d)"
                                           [AStr (up_ErrMsg result); AInt (up_ErrCode result)]
                                           None))
                                  else ret (up_MediaID result, None)
                              end
                          end
                      end
                  end
              end
          end
      end
  end.

(** [r.httpClient.Post(url, contentType, body)] *)
Definition Post (url contentType body : string) : M (Error + HttpResponse) :=
  match http_NewRequest W "POST" url with
  | Some err => ret (inl err)
  | None =>
      let req := mkRequest "POST" url body contentType EmptyString in
      call (EvDo req) (fun tr => http_Do W tr req)
  end.

Definition sendMessageToWeCom (msgType : string) (payload : Payload)
  : M (option Error) :=
  match json_Marshal W msgType payload with
  | inl err =>
      ret (Some (Errorf "failed to marshal %s message: %w" [AStr msgType] (Some err)))
  | inr jsonData =>
      r <- Post webhookURL "application/json" jsonData ;;
      match r with
      | inl err =>
          ret (Some (Errorf "failed to send %s message: %w" [AStr msgType] (Some err)))
      | inr resp =>
          if negb (StatusCode resp =? StatusOK) then
            match Body resp with
            | inl readErr =>
                ret (Some (Errorf
                  "failed to send %s message (status code %d), could not read response body: %w"
                  [AStr msgType; AInt (StatusCode resp)] (Some readErr)))
            | inr body =>
                ret (Some (Errorf "failed to send %s message (status code %d): %s"
                                  [AStr msgType; AInt (StatusCode resp); AStr body] None))
            end
          else
            match Body resp with
            | inl err =>
                ret (Some (Errorf "failed to read %s response body: %w" [AStr msgType]
                                  (Some err)))
            | inr respBody =>
                match json_Unmarshal_send W respBody with
                | inl err =>
                    ret (Some (Errorf "failed to parse %s response: %w, body: %s"
                                      [AStr msgType; AStr (Error_string err); AStr respBody]
                                      None))
                | inr result =>
                    if negb (ErrCode result =? 0) then
                      if ErrCode result =? rateLimited then
                        ret (Some (Errorf
                          "wecom %s message failed due to rate limit: %s (errcode: %d)"
                          [AStr msgType; AStr (ErrMsg result); AInt (ErrCode result)] None))
                      else
                        ret (Some (Errorf "wecom %s message failed: %s (errcode: %d)"
                          [AStr msgType; AStr (ErrMsg result); AInt (ErrCode result)] None))
                    else ret None
                end
            end
      end
  end.

Definition SendTextMessage (message : string) : M (option Error) :=
  sendMessageToWeCom "text" (Content message).

Definition SendMarkdownMessage (content : string) : M (option Error) :=
  sendMessageToWeCom "markdown" (Content content).


(** The body shared by the four senders of a media file. *)
Definition send_media (mediaType failure path : string) : M (option Error) :=
  u <- uploadMedia path mediaType ;;
  let '(mediaID, err) := u in
  match err with
  | Some e => ret (Some (Errorf failure [] (Some e)))
  | None => sendMessageToWeCom mediaType (MediaID mediaID)
  end.

Definition SendImageMessage (imageFilePath : string) : M (option Error) :=
  send_media "image" "failed to upload image for WeCom: %w" imageFilePath.



Definition SendFileMessage (filePath : string) : M (option Error) :=
  send_media "file" "failed to upload file for WeCom: %w" filePath.

Definition SendTextWithMentionMessage (content : string)
           (mentionedList mentionedMobileList : list string) : M (option Error) :=
  sendMessageToWeCom "text" (Mention content mentionedList mentionedMobileList).

Definition SendNewsMessage (articles : list Article) : M (option Error) :=
  if (Nat.eqb (List.length articles) 0) || (8 <? List.length articles)%nat then
    ret (Some (Errorf "news message must contain 1 to 8 articles" [] None))
  else sendMessageToWeCom "news" (Articles articles).

End Robot.

(** The world in which every response carries the status that [f] makes of
    its own. *)
Definition restatus (f : Z -> Z) (W : RobotWorld) : RobotWorld :=
  {| url_Parse := url_Parse W;
     os_Open := os_Open W;
     multipart_CreateFormFile := multipart_CreateFormFile W;
     io_Copy := io_Copy W;
     multipart_body := multipart_body W;
     multipart_FormDataContentType := multipart_FormDataContentType W;
     http_NewRequest := http_NewRequest W;
     http_Do := fun tr req =>
       match http_Do W tr req with
       | inl err => inl err
       | inr resp => inr (mkResponse (f (StatusCode resp)) (Body resp))
       end;
     json_Marshal := json_Marshal W;
     json_Unmarshal_upload := json_Unmarshal_upload W;
     json_Unmarshal_send := json_Unmarshal_send W |}.

(** The request that posts a message, and the request that uploads a
    media file. *)
Definition message_request (cfg : fullconfig.AppConfig) (body : string) : HttpRequest :=
  mkRequest "POST" (webhookURL cfg) body "application/json" EmptyString.





(** The webhook accepted the message [body], posted after [tr]. *)
Definition accepted (W : RobotWorld) (cfg : fullconfig.AppConfig)
           (tr : Trace) (body : string) : Prop :=
  exists resp respBody result,
    http_NewRequest W "POST" (webhookURL cfg) = None
    /\ http_Do W tr (message_request cfg body) = inr resp
    /\ StatusCode resp = StatusOK
    /\ Body resp = inr respBody
    /\ json_Unmarshal_send W respBody = inr result
    /\ ErrCode result = 0.

End wecom.

(* ===================================================================== *)
(** * A concrete WeCom endpoint                                           *)
(* ===================================================================== *)

Module wecom_examples.
Import gostring wecom examples.













End wecom_examples.

(* ===================================================================== *)
(** * The conversation store: properties                                  *)
(* ===================================================================== *)

Module store_facts.
Import store.

Lemma get_lookup (s : InMemoryConversationStore) (u : string) :
  GetConversationID s u =
  match store_map s !! u with
  | Some id => (id, true)
  | None => (EmptyString, false)
  end.
Proof. reflexivity. Qed.

Lemma get_found (s : InMemoryConversationStore) (u id : string) :
  store_map s !! u = Some id -> GetConversationID s u = (id, true).
Proof. intros H. unfold GetConversationID. by rewrite H. Qed.

Lemma get_missing (s : InMemoryConversationStore) (u : string) :
  store_map s !! u = None -> GetConversationID s u = (EmptyString, false).
Proof. intros H. unfold GetConversationID. by rewrite H. Qed.

Lemma save_lookup_same (s : InMemoryConversationStore) (u id : string) :
  store_map (SaveConversationID s u id) !! u = Some id.
Proof. simpl. apply lookup_insert_eq. Qed.

Lemma save_lookup_other (s : InMemoryConversationStore) (u v id : string) :
  u ≠ v -> store_map (SaveConversationID s u id) !! v = store_map s !! v.
Proof. intros H. simpl. by apply lookup_insert_ne. Qed.

Lemma new_lookup_other (s : InMemoryConversationStore) (u v fresh : string) :
  u ≠ v -> store_map (snd (NewConversationID fresh s u)) !! v = store_map s !! v.
Proof. intros H. simpl. by apply lookup_insert_ne. Qed.

Lemma delete_lookup_same (s : InMemoryConversationStore) (u : string) :
  store_map (DeleteConversationID s u) !! u = None.
Proof. simpl. apply lookup_delete_eq. Qed.

Lemma delete_lookup_other (s : InMemoryConversationStore) (u v : string) :
  u ≠ v -> store_map (DeleteConversationID s u) !! v = store_map s !! v.
Proof. intros H. simpl. by apply lookup_delete_ne. Qed.

Lemma save_twice (s : InMemoryConversationStore) (u id1 id2 : string) :
  SaveConversationID (SaveConversationID s u id1) u id2 = SaveConversationID s u id2.
Proof. unfold SaveConversationID. simpl. f_equal. apply insert_insert_eq. Qed.

(** A call that does not write an id for [u] keeps a missing entry missing. *)
Lemma step_keeps_missing (s : InMemoryConversationStore) (c : Call) (u : string) :
  assigns u c = false ->
  store_map s !! u = None -> store_map (step s c) !! u = None.
Proof.
  intros Hc Hs. destruct c as [w | w id | w fresh | w]; simpl in *.
  - exact Hs.
  - apply bool_decide_eq_false in Hc. by rewrite lookup_insert_ne.
  - apply bool_decide_eq_false in Hc. by rewrite lookup_insert_ne.
  - destruct (decide (w = u)) as [-> | Hne].
    + apply lookup_delete_eq.
    + by rewrite lookup_delete_ne.
Qed.

Lemma run_keeps_missing (cs : list Call) (s : InMemoryConversationStore) (u : string) :
  forallb (fun c => negb (assigns u c)) cs = true ->
  store_map s !! u = None -> store_map (run s cs) !! u = None.
Proof.
  revert s. induction cs as [| c cs IH]; intros s Hcs Hs; simpl in *.
  - exact Hs.
  - apply andb_true_iff in Hcs as [Hc Hcs].
    apply IH; [exact Hcs |].
    apply step_keeps_missing; [by apply negb_true_iff | exact Hs].
Qed.

(** Saving the same id again, any number of times. *)
Lemma save_repeat (n : nat) (s : InMemoryConversationStore) (u id : string) :
  Nat.iter n (fun s' => SaveConversationID s' u id) (SaveConversationID s u id)
  = SaveConversationID s u id.
Proof.
  induction n as [| n IH]; simpl.
  - reflexivity.
  - rewrite IH. apply save_twice.
Qed.

(** C9. After [SaveConversationID(u, id)], [GetConversationID(u)] returns
    exactly [id] with found = true; saving [id2] after [id1] for the same
    user makes the get return [id2] (last writer wins); saving the same id
    again, once or any number of times, leaves the store as it was after
    the first save, so the gets keep returning that id. *)
Theorem conversation_save_get (s : InMemoryConversationStore) (u id id1 id2 : string) :
  GetConversationID (SaveConversationID s u id) u = (id, true)
  /\ GetConversationID (SaveConversationID (SaveConversationID s u id1) u id2) u
     = (id2, true)
  /\ SaveConversationID (SaveConversationID s u id) u id = SaveConversationID s u id
  /\ (forall n : nat,
        let s' := Nat.iter n (fun s' => SaveConversationID s' u id)
                           (SaveConversationID s u id) in
        s' = SaveConversationID s u id /\ GetConversationID s' u = (id, true)).
Proof.
  assert (Hget : forall s0 i, GetConversationID (SaveConversationID s0 u i) u = (i, true)).
  { intros s0 i. apply get_found, save_lookup_same. }
  repeat split.
  - apply Hget.
  - apply Hget.
  - apply save_twice.
  - apply save_repeat.
  - rewrite save_repeat. apply Hget.
Qed.

(** C10. Every store operation touches only its own user's entry: for
    distinct users [u] and [v], save, generate and delete for [u] leave the
    mapping for [v] (and so what a get for [v] returns) unchanged; after
    [DeleteConversationID(u)] a get for [u] returns found = false, and
    keeps doing so through any further calls among which there is no save
    or generate for [u]; a later save or generate for [u] is found again. *)
Theorem conversation_frame (s : InMemoryConversationStore) (u v id fresh : string) :
  u ≠ v ->
  (store_map (SaveConversationID s u id) !! v = store_map s !! v
   /\ GetConversationID (SaveConversationID s u id) v = GetConversationID s v)
  /\ (store_map (snd (NewConversationID fresh s u)) !! v = store_map s !! v
      /\ GetConversationID (snd (NewConversationID fresh s u)) v = GetConversationID s v)
  /\ (store_map (DeleteConversationID s u) !! v = store_map s !! v
      /\ GetConversationID (DeleteConversationID s u) v = GetConversationID s v)
  /\ GetConversationID (DeleteConversationID s u) u = (EmptyString, false)
  /\ (forall cs : list Call,
        forallb (fun c => negb (assigns u c)) cs = true ->
        GetConversationID (run (DeleteConversationID s u) cs) u = (EmptyString, false))
  /\ (forall cs : list Call,
        GetConversationID
          (SaveConversationID (run (DeleteConversationID s u) cs) u id) u = (id, true)
        /\ GetConversationID
             (snd (NewConversationID fresh (run (DeleteConversationID s u) cs) u)) u
           = (fresh, true)).
Proof.
  intros Hne.
  split; [| split; [| split; [| split; [| split]]]].
  - split; [by apply save_lookup_other |].
    rewrite !get_lookup. by rewrite save_lookup_other.
  - split; [by apply new_lookup_other |].
    rewrite !get_lookup. by rewrite new_lookup_other.
  - split; [by apply delete_lookup_other |].
    rewrite !get_lookup. by rewrite delete_lookup_other.
  - apply get_missing, delete_lookup_same.
  - intros cs Hcs. apply get_missing.
    apply run_keeps_missing; [exact Hcs | apply delete_lookup_same].
  - intros cs. split.
    + apply get_found, save_lookup_same.
    + apply get_found. simpl. apply lookup_insert_eq.
Qed.

Lemma conversation_frame_witness :
  "alice" ≠ "bob"
  /\ GetConversationID
       (DeleteConversationID
          (SaveConversationID NewInMemoryConversationStore "bob" "c-7") "alice") "bob"
     = (("c-7" : string), true)
  /\ GetConversationID
       (run (DeleteConversationID
               (SaveConversationID NewInMemoryConversationStore "alice" "c-1") "alice")
            [CSave "bob" "c-2"; CDelete "bob"; CGet "alice"]) "alice"
     = (EmptyString, false).
Proof.
  assert (Hne : ("alice" : string) ≠ "bob") by discriminate.
  split; [exact Hne |].
  pose proof (conversation_frame
                (SaveConversationID NewInMemoryConversationStore "bob" "c-7")
                "alice" "bob" "c-1" "f-1" Hne) as (_ & _ & (_ & Hdel) & _).
  pose proof (conversation_frame
                (SaveConversationID NewInMemoryConversationStore "alice" "c-1")
                "alice" "bob" "c-1" "f-1" Hne) as (_ & _ & _ & _ & Hrun & _).
  split.
  - rewrite Hdel. reflexivity.
  - apply Hrun. reflexivity.
Defined.

End store_facts.

(* ===================================================================== *)
(** * Strings and runes: properties                                       *)
(* ===================================================================== *)

Module gostring_facts.
Import gostring.

Lemma length_append (s1 s2 : string) :
  String.length (s1 +:+ s2) = (String.length s1 + String.length s2)%nat.
Proof. induction s1 as [| c s1 IH]; simpl; [reflexivity | by rewrite IH]. Qed.

Lemma len_append (s1 s2 : string) : len (s1 +:+ s2) = len s1 + len s2.
Proof. unfold len. rewrite length_append. lia. Qed.

Lemma length_of_bytes (l : list Z) : String.length (of_bytes l) = List.length l.
Proof.
  unfold of_bytes. induction l as [| b l IH]; simpl; [reflexivity | by rewrite IH].
Qed.

Lemma encoderune_length (r : Z) :
  (1 <= List.length (encoderune r) <= 4)%nat.
Proof.
  unfold encoderune.
  repeat match goal with
         | |- context [if ?b then _ else _] => destruct b
         end; simpl; lia.
Qed.

Lemma encoded_length (rs : list Z) :
  (List.length rs <= List.length (List.concat (List.map encoderune rs)))%nat.
Proof.
  induction rs as [| r rs IH]; simpl; [lia |].
  rewrite List.length_app. pose proof (encoderune_length r). lia.
Qed.

(** Every rune takes at least one byte. *)
Lemma len_of_runes (rs : list Z) : Z.of_nat (List.length rs) <= len (of_runes rs).
Proof.
  unfold len, of_runes. rewrite length_of_bytes.
  pose proof (encoded_length rs). lia.
Qed.

Lemma slice_to_length {A} (zero : A) (l l' : list A) (spare high : nat) :
  slice_to zero l spare high = Some l' -> List.length l' = high.
Proof.
  unfold slice_to.
  destruct (high <=? List.length l)%nat eqn:E1.
  - intros [= <-]. apply Nat.leb_le in E1. rewrite List.length_firstn. lia.
  - destruct (high <=? List.length l + spare)%nat eqn:E2; [| discriminate].
    intros [= <-]. apply Nat.leb_gt in E1.
    rewrite List.length_app, List.repeat_length. lia.
Qed.

(** A slice expression within the length is the prefix. *)
Lemma slice_to_prefix {A} (zero : A) (l : list A) (spare high : nat) :
  (high <= List.length l)%nat -> slice_to zero l spare high = Some (firstn high l).
Proof.
  intros H. unfold slice_to. apply Nat.leb_le in H. by rewrite H.
Qed.

Lemma is_empty_spec (s : string) : is_empty s = true <-> s = EmptyString.
Proof. destruct s; simpl; split; congruence. Qed.

Lemma is_empty_eqb (s : string) : String.eqb s EmptyString = is_empty s.
Proof. destruct s; reflexivity. Qed.

End gostring_facts.

(* ===================================================================== *)
(** * Traces: properties                                                  *)
(* ===================================================================== *)

Module trace_facts.
Import gostring config service spec.

Lemma bind_call {A B} (e : Event) (answer : Trace -> A) (k : A -> M B) (tr : Trace) :
  bind (call e answer) k tr = k (answer tr) (tr ++ [e]).
Proof. reflexivity. Qed.

Lemma bind_eq {A B} (m : M A) (k : A -> M B) (tr tr' : Trace) (a : A) :
  m tr = (Ret a, tr') -> bind m k tr = k a tr'.
Proof. intros H. unfold bind. by rewrite H. Qed.

Lemma typed_is_send (e : Event) : is_typed_send e = true -> is_send e = true.
Proof. by destruct e. Qed.

Lemma sends_app (a b : Trace) : sends (a ++ b) = sends a ++ sends b.
Proof. apply List.filter_app. Qed.

Lemma sends_nil_cons (e : Event) (l : Trace) :
  sends (e :: l) = [] -> is_send e = false /\ sends l = [].
Proof. unfold sends. simpl. destruct (is_send e); [discriminate | auto]. Qed.

(** Events that are not sends can be skipped. *)
Lemma quiet_skip (W : World) (tr : Trace) (r : Result (option Error))
      (pre : Trace) : forall (before rest : Trace),
  sends pre = [] ->
  quiet_after_success W tr r (before ++ pre) rest ->
  quiet_after_success W tr r before (pre ++ rest).
Proof.
  induction pre as [| e pre IH]; intros before rest Hpre Hq; simpl.
  - by rewrite app_nil_r in Hq.
  - apply sends_nil_cons in Hpre as [He Hpre]. split.
    + intros Ht. apply typed_is_send in Ht. congruence.
    + apply IH; [exact Hpre |]. by rewrite <- app_assoc.
Qed.

(** The reading of [quiet_after_success] over every split of the events. *)
Lemma quiet_after_success_split (W : World) (tr : Trace) (r : Result (option Error))
      (added : Trace) : forall (b0 : Trace),
  quiet_after_success W tr r b0 added ->
  forall before e after,
    added = before ++ e :: after ->
    is_typed_send e = true ->
    robot_answer W (tr ++ b0 ++ before) e = None ->
    sends (b0 ++ before) = [] /\ sends after = [] /\ r = Ret None.
Proof.
  induction added as [| x added IH]; intros b0 Hq before e after Hsplit Ht Hans.
  - by destruct before.
  - destruct Hq as [Hx Hq]. destruct before as [| y before]; simpl in Hsplit.
    + injection Hsplit as -> ->. rewrite app_nil_r in *. by apply Hx.
    + injection Hsplit as -> ->.
      specialize (IH (b0 ++ [y]) Hq before e after eq_refl Ht).
      rewrite <- !app_assoc in IH. simpl in IH. by apply IH.
Qed.

Lemma DownloadFile_trace (W : World) (url path : string) (tr : Trace) :
  exists d added,
    DownloadFile W url path tr = (Ret d, tr ++ added) /\ sends added = [].
Proof.
  unfold DownloadFile. rewrite bind_call.
  destruct (http_Get W tr url) as [e | status].
  { by exists (Some (Errorf "failed to download file from %s: %w" [AStr url] (Some e))),
              [EvGet url]. }
  destruct (negb (status =? StatusOK)).
  { by eexists _, [EvGet url]. }
  rewrite bind_call.
  destruct (os_Create W (tr ++ [EvGet url]) path) as [e |].
  { eexists _, [EvGet url; EvCreate path]. unfold ret. by rewrite <- app_assoc. }
  rewrite bind_call.
  destruct (io_Copy_to_file W _ path) as [e |];
    eexists _, [EvGet url; EvCreate path; EvCopyToFile path]; unfold ret;
    by rewrite <- !app_assoc.
Qed.

End trace_facts.

(* ===================================================================== *)
(** * The formatter: properties                                           *)
(* ===================================================================== *)

Module formatter_facts.
Import gostring config service spec gostring_facts trace_facts.

Lemma nonempty_string_present (obj : gmap string JSON) (name : string) :
  nonempty_string (obj !! name) = present_nonempty obj name.
Proof.
  unfold nonempty_string, present_nonempty.
  destruct (obj !! name) as [[ | | | s | | ] |]; try reflexivity.
  by rewrite is_empty_eqb.
Qed.

(** The order of the rules, read off [decide_shape]. *)
Lemma decide_shape_unparsed (e : Error) (botType : string) :
  decide_shape (inl e) botType = PlainText.
Proof. reflexivity. Qed.

Lemma decide_shape_image (obj : gmap string JSON) (botType url : string) :
  present_nonempty obj "image_url" = Some url ->
  decide_shape (inr obj) botType = Image url.
Proof. intros H. unfold decide_shape, rules, first_match. by rewrite H. Qed.

Lemma decide_shape_file (obj : gmap string JSON) (botType url : string) :
  present_nonempty obj "image_url" = None ->
  present_nonempty obj "file_url" = Some url ->
  decide_shape (inr obj) botType = File url.
Proof. intros H1 H2. unfold decide_shape, rules, first_match. by rewrite H1, H2. Qed.

Lemma decide_shape_markdown (obj : gmap string JSON) (botType content : string) :
  present_nonempty obj "image_url" = None ->
  present_nonempty obj "file_url" = None ->
  present_nonempty obj "markdown" = Some content ->
  decide_shape (inr obj) botType = Markdown content.
Proof.
  intros H1 H2 H3. unfold decide_shape, rules, first_match. by rewrite H1, H2, H3.
Qed.

Lemma decide_shape_workflow_data (obj : gmap string JSON) (d : JSON) :
  present_nonempty obj "image_url" = None ->
  present_nonempty obj "file_url" = None ->
  present_nonempty obj "markdown" = None ->
  obj !! "data" = Some d ->
  decide_shape (inr obj) "workflow" = RawText.
Proof.
  intros H1 H2 H3 H4. unfold decide_shape, rules, first_match.
  by rewrite H1, H2, H3, H4.
Qed.

Lemma decide_shape_otherwise (obj : gmap string JSON) (botType : string) :
  present_nonempty obj "image_url" = None ->
  present_nonempty obj "file_url" = None ->
  present_nonempty obj "markdown" = None ->
  obj !! "data" = None \/ botType <> "workflow" ->
  decide_shape (inr obj) botType = PlainText.
Proof.
  intros H1 H2 H3 H4. unfold decide_shape, rules, first_match.
  rewrite H1, H2, H3. simpl.
  destruct (obj !! "data") as [d |]; [| reflexivity].
  destruct H4 as [H4 | H4]; [discriminate |].
  apply String.eqb_neq in H4. by rewrite H4.
Qed.

(** The branch [postprocessDifyResponse] takes is the shape decided by the
    rules of the specification. *)
Lemma postprocess_by_shape (W : World) (cfg : AppConfig) (payload : string) :
  postprocessDifyResponse W cfg payload =
  match decide_shape (json_Unmarshal_object W payload) (BotType (Dify cfg)) with
  | Image url => send_image W url
  | File url => send_file W url
  | Markdown content => SendMarkdownMessage W content
  | RawText => SendTextMessage W payload
  | PlainText => send_plain W payload
  end.
Proof.
  unfold postprocessDifyResponse, decide_shape.
  destruct (json_Unmarshal_object W payload) as [e | obj]; [reflexivity |].
  unfold rules, first_match. rewrite !nonempty_string_present.
  destruct (present_nonempty obj "image_url") as [url |]; [reflexivity |].
  destruct (present_nonempty obj "file_url") as [url |]; [reflexivity |].
  destruct (present_nonempty obj "markdown") as [content |]; [reflexivity |].
  simpl. destruct (obj !! "data") as [d |] eqn:Hd.
  - rewrite bool_decide_eq_true_2 by eauto. simpl.
    destruct (String.eqb (BotType (Dify cfg)) "workflow"); reflexivity.
  - rewrite bool_decide_eq_false_2 by (intros [x Hx]; discriminate). reflexivity.
Qed.

Lemma len_truncation_note : len truncation_note = 64.
Proof. reflexivity. Qed.

(** A payload within the limit goes out as it is. *)
Lemma send_plain_within_limit (W : World) (payload : string) (tr : Trace) :
  len payload <= maxWeComMessageLength ->
  send_plain W payload tr
  = (Ret (robot_SendTextMessage W tr payload), tr ++ [EvSendText payload]).
Proof.
  intros H. unfold send_plain.
  destruct (maxWeComMessageLength <? len payload) eqn:E.
  - apply Z.ltb_lt in E. lia.
  - reflexivity.
Qed.

(** A payload over the limit: the first 1998 runes and the note, or a
    panic of the slice expression when the rune slice is too short. *)
Lemma send_plain_over_limit (W : World) (payload : string) (tr : Trace) :
  maxWeComMessageLength < len payload ->
  match slice_to 0 (to_runes payload)
                 (runtime_rune_spare W (List.length (to_runes payload))) 1998 with
  | Some runes =>
      let text := of_runes runes +:+ truncation_note in
      send_plain W payload tr
      = (Ret (robot_SendTextMessage W tr text), tr ++ [EvSendText text])
  | None => send_plain W payload tr = (Panic, tr)
  end.
Proof.
  intros H. unfold send_plain.
  apply Z.ltb_lt in H. rewrite H.
  change (Z.to_nat (maxWeComMessageLength - 50)) with 1998%nat.
  destruct (slice_to 0 (to_runes payload) _ 1998); reflexivity.
Qed.

(** With 1998 runes or more the payload is cut after a whole rune: the
    text is the first 1998 runes, encoded again, and the note. *)
Lemma send_plain_whole_runes (W : World) (payload : string) (tr : Trace) :
  maxWeComMessageLength < len payload ->
  (1998 <= List.length (to_runes payload))%nat ->
  let text := of_runes (firstn 1998 (to_runes payload)) +:+ truncation_note in
  send_plain W payload tr
  = (Ret (robot_SendTextMessage W tr text), tr ++ [EvSendText text]).
Proof.
  intros Hlen Hrunes.
  pose proof (send_plain_over_limit W payload tr Hlen) as H.
  by rewrite slice_to_prefix in H.
Qed.

(** C1 (what the code does). On the plain-text path a payload of more
    than 2048 bytes is never brought within the limit: either the slice
    expression panics and nothing is sent, or exactly one Text is sent,
    made of 1998 runes and the 64-byte note, which is 2062 bytes or more.
    The bound of 2048 bytes on the text sent does not hold. *)
Theorem truncated_text_exceeds_limit
        (W : World) (cfg : AppConfig) (payload : string) (tr : Trace) :
  decide_shape (json_Unmarshal_object W payload) (BotType (Dify cfg)) = PlainText ->
  2048 < len payload ->
  match postprocessDifyResponse W cfg payload tr with
  | (Panic, tr') => tr' = tr
  | (Ret r, tr') =>
      exists text, tr' = tr ++ [EvSendText text]
                   /\ r = robot_SendTextMessage W tr text
                   /\ 2062 <= len text
  end.
Proof.
  intros Hshape Hlen. rewrite postprocess_by_shape, Hshape.
  pose proof (send_plain_over_limit W payload tr Hlen) as H.
  destruct (slice_to 0 (to_runes payload) _ 1998) as [runes |] eqn:Hs.
  - simpl in H. rewrite H.
    exists (of_runes runes +:+ truncation_note). repeat split.
    rewrite len_append, len_truncation_note.
    pose proof (len_of_runes runes) as Hr.
    apply slice_to_length in Hs. rewrite Hs in Hr. lia.
  - rewrite H. reflexivity.
Qed.

Lemma truncated_text_exceeds_limit_witness :
  let W := examples.world [] (inr 200) examples.all_accepted in
  let payload := examples.repeat_char "a" 2049 in
  decide_shape (json_Unmarshal_object W payload) "chat" = PlainText
  /\ 2048 < len payload
  /\ match postprocessDifyResponse W examples.chat_cfg payload [] with
     | (Panic, tr') => tr' = []
     | (Ret r, tr') =>
         exists text, tr' = [] ++ [EvSendText text]
                      /\ r = robot_SendTextMessage W [] text
                      /\ 2062 <= len text
     end.
Proof.
  intros W payload.
  assert (H1 : decide_shape (json_Unmarshal_object W payload) "chat" = PlainText)
    by (vm_compute; reflexivity).
  assert (H2 : 2048 < len payload) by (vm_compute; reflexivity).
  split; [exact H1 |]. split; [exact H2 |].
  exact (truncated_text_exceeds_limit W examples.chat_cfg payload [] H1 H2).
Defined.

(** At the boundary: 2048 bytes go out unmodified, and 2049 bytes of ASCII
    go out as a Text of 2062 bytes. *)
Lemma plain_text_boundary :
  let W := examples.world [] (inr 200) examples.all_accepted in
  postprocessDifyResponse W examples.chat_cfg (examples.repeat_char "a" 2048) []
  = (Ret None, [EvSendText (examples.repeat_char "a" 2048)])
  /\ exists text,
      postprocessDifyResponse W examples.chat_cfg (examples.repeat_char "a" 2049) []
      = (Ret None, [EvSendText text])
      /\ len text = 2062
      /\ text = examples.repeat_char "a" 1998 +:+ truncation_note.
Proof.
  intros W. split.
  - vm_compute. reflexivity.
  - eexists. split; [vm_compute; reflexivity |].
    split; vm_compute; reflexivity.
Qed.

Lemma deferring_remove {A} (path : string) (body : M A) (tr : Trace) :
  deferring (Remove path) body tr
  = (fst (body tr), snd (body tr) ++ [EvRemove path]).
Proof. unfold deferring. by destruct (body tr). Qed.

Lemma image_notices (url : string) :
  image_download_failed url = "Dify 返回了一张图片: " +:+ url +:+ "，但下载失败。"
  /\ image_send_failed url = "Dify 返回了一张图片: " +:+ url +:+ "，但发送失败。".
Proof. split; reflexivity. Qed.

Lemma send_image_cases (W : World) (url : string) (tr : Trace) :
  let pattern := "dify_image_*" +:+ (if is_empty (Ext url) then ".png" else Ext url) in
  let tr1 := tr ++ [EvCreateTemp pattern] in
  match os_CreateTemp W tr pattern with
  | inl _ =>
      send_image W url tr
      = (Ret (robot_SendTextMessage W tr1 (image_download_failed url)),
         tr1 ++ [EvSendText (image_download_failed url)])
  | inr path =>
      exists d downloading,
        DownloadFile W url path tr1 = (Ret d, tr1 ++ downloading)
        /\ sends downloading = []
        /\ let tr2 := tr1 ++ downloading in
           match d with
           | Some _ =>
               send_image W url tr
               = (Ret (robot_SendTextMessage W (tr2 ++ [EvRemove path])
                                             (image_download_failed url)),
                  tr2 ++ [EvRemove path; EvSendText (image_download_failed url)])
           | None =>
               match robot_SendImageMessage W tr2 path with
               | Some _ =>
                   send_image W url tr
                   = (Ret (robot_SendTextMessage W (tr2 ++ [EvSendImage path])
                                                 (image_send_failed url)),
                      tr2 ++ [EvSendImage path; EvSendText (image_send_failed url);
                              EvRemove path])
               | None =>
                   send_image W url tr
                   = (Ret None, tr2 ++ [EvSendImage path; EvRemove path])
               end
           end
  end.
Proof.
  intros pattern tr1. unfold send_image. fold pattern. rewrite bind_call. fold tr1.
  destruct (os_CreateTemp W tr pattern) as [e | path]; [reflexivity |].
  destruct (DownloadFile_trace W url path tr1) as (d & downloading & Hd & Hs).
  exists d, downloading. split; [exact Hd |]. split; [exact Hs |].
  cbv zeta. set (tr2 := tr1 ++ downloading) in *. rewrite (bind_eq _ _ _ _ _ Hd).
  destruct d as [e |].
  - unfold Remove. rewrite bind_call. unfold SendTextMessage, call.
    by rewrite <- app_assoc.
  - rewrite deferring_remove. unfold SendImageMessage. rewrite bind_call.
    destruct (robot_SendImageMessage W tr2 path) as [e |].
    + unfold SendTextMessage, call. simpl. by rewrite <- !app_assoc.
    + unfold ret. simpl. by rewrite <- !app_assoc.
Qed.

Lemma file_notices (url : string) :
  file_download_failed url = "Dify 返回了一个文件: " +:+ url +:+ "，但下载失败。"
  /\ file_send_failed url = "Dify 返回了一个文件: " +:+ url +:+ "，但发送失败。".
Proof. split; reflexivity. Qed.

Lemma send_file_cases (W : World) (url : string) (tr : Trace) :
  let pattern := "dify_file_*" +:+ (if is_empty (Ext url) then ".bin" else Ext url) in
  let tr1 := tr ++ [EvCreateTemp pattern] in
  match os_CreateTemp W tr pattern with
  | inl _ =>
      send_file W url tr
      = (Ret (robot_SendTextMessage W tr1 (file_download_failed url)),
         tr1 ++ [EvSendText (file_download_failed url)])
  | inr path =>
      exists d downloading,
        DownloadFile W url path tr1 = (Ret d, tr1 ++ downloading)
        /\ sends downloading = []
        /\ let tr2 := tr1 ++ downloading in
           match d with
           | Some _ =>
               send_file W url tr
               = (Ret (robot_SendTextMessage W (tr2 ++ [EvRemove path])
                                             (file_download_failed url)),
                  tr2 ++ [EvRemove path; EvSendText (file_download_failed url)])
           | None =>
               match robot_SendFileMessage W tr2 path with
               | Some _ =>
                   send_file W url tr
                   = (Ret (robot_SendTextMessage W (tr2 ++ [EvSendFile path])
                                                 (file_send_failed url)),
                      tr2 ++ [EvSendFile path; EvSendText (file_send_failed url);
                              EvRemove path])
               | None =>
                   send_file W url tr
                   = (Ret None, tr2 ++ [EvSendFile path; EvRemove path])
               end
           end
  end.
Proof.
  intros pattern tr1. unfold send_file. fold pattern. rewrite bind_call. fold tr1.
  destruct (os_CreateTemp W tr pattern) as [e | path]; [reflexivity |].
  destruct (DownloadFile_trace W url path tr1) as (d & downloading & Hd & Hs).
  exists d, downloading. split; [exact Hd |]. split; [exact Hs |].
  cbv zeta. set (tr2 := tr1 ++ downloading) in *. rewrite (bind_eq _ _ _ _ _ Hd).
  destruct d as [e |].
  - unfold Remove. rewrite bind_call. unfold SendTextMessage, call.
    by rewrite <- app_assoc.
  - rewrite deferring_remove. unfold SendFileMessage. rewrite bind_call.
    destruct (robot_SendFileMessage W tr2 path) as [e |].
    + unfold SendTextMessage, call. simpl. by rewrite <- !app_assoc.
    + unfold ret. simpl. by rewrite <- !app_assoc.
Qed.

(** The events of an artifact branch: the scratch file, the download,
    then [tail]. *)
Lemma quiet_artifact (W : World) (tr : Trace) (r : Result (option Error))
      (pattern : string) (downloading tail : Trace) :
  sends downloading = [] ->
  quiet_after_success W tr r ([EvCreateTemp pattern] ++ downloading) tail ->
  quiet_after_success W tr r [] ([EvCreateTemp pattern] ++ downloading ++ tail).
Proof.
  intros Hs Hq. rewrite app_assoc. apply quiet_skip; [| exact Hq].
  rewrite sends_app, Hs. reflexivity.
Qed.

Lemma sends_artifact (pattern : string) (downloading tail : Trace) :
  sends downloading = [] ->
  sends ([EvCreateTemp pattern] ++ downloading ++ tail) = sends tail.
Proof. intros Hs. by rewrite !sends_app, Hs. Qed.

Lemma trace_artifact (tr : Trace) (pattern : string) (downloading tail : Trace) :
  ((tr ++ [EvCreateTemp pattern]) ++ downloading) ++ tail
  = tr ++ [EvCreateTemp pattern] ++ downloading ++ tail.
Proof. by rewrite <- !app_assoc. Qed.

Ltac quiet :=
  simpl;
  repeat match goal with
         | |- _ /\ _ => split
         | |- True => exact I
         | |- _ = true -> _ -> _ =>
             let Ht := fresh "Ht" in
             let Hans := fresh "Hans" in
             intros Ht Hans; try discriminate Ht
         end.

Lemma trace_artifact_prefix (tr : Trace) (pattern : string) (downloading : Trace) :
  tr ++ EvCreateTemp pattern :: downloading
  = (tr ++ [EvCreateTemp pattern]) ++ downloading.
Proof. by rewrite <- app_assoc. Qed.

Lemma artifact_outcome (W : World) (tr : Trace) (url pattern : string)
      (typed : string -> Event) (download_failed send_failed : string)
      (m : M (option Error)) :
  (forall path, is_send (typed path) = true) ->
  (let tr1 := tr ++ [EvCreateTemp pattern] in
   match os_CreateTemp W tr pattern with
   | inl _ =>
       m tr = (Ret (robot_SendTextMessage W tr1 download_failed),
               tr1 ++ [EvSendText download_failed])
   | inr path =>
       exists d downloading,
         DownloadFile W url path tr1 = (Ret d, tr1 ++ downloading)
         /\ sends downloading = []
         /\ let tr2 := tr1 ++ downloading in
            match d with
            | Some _ =>
                m tr = (Ret (robot_SendTextMessage W (tr2 ++ [EvRemove path])
                                                   download_failed),
                        tr2 ++ [EvRemove path; EvSendText download_failed])
            | None =>
                match robot_answer W tr2 (typed path) with
                | Some _ =>
                    m tr = (Ret (robot_SendTextMessage W (tr2 ++ [typed path]) send_failed),
                            tr2 ++ [typed path; EvSendText send_failed; EvRemove path])
                | None => m tr = (Ret None, tr2 ++ [typed path; EvRemove path])
                end
            end
   end) ->
  exists r added,
    m tr = (r, tr ++ added)
    /\ artifact_delivered W tr url pattern typed download_failed send_failed r added
    /\ quiet_after_success W tr r [] added.
Proof.
  intros Htyped H. cbv zeta in H. unfold artifact_delivered, text_delivered. cbv zeta.
  destruct (os_CreateTemp W tr pattern) as [e | path].
  { eexists _, [EvCreateTemp pattern; EvSendText _].
    rewrite H, <- app_assoc. split; [reflexivity |].
    split; [by split |]. quiet. }
  destruct H as (d & downloading & Hd & Hs & H).
  destruct d as [e |].
  { eexists _, ([EvCreateTemp pattern] ++ downloading ++ [EvRemove path; EvSendText _]).
    rewrite H. split; [f_equal; apply trace_artifact |].
    split.
    - exists (Some e), downloading. split; [exact Hd |]. split; [exact Hs |].
      split; [by rewrite <- !app_assoc |].
      by rewrite <- !app_assoc.
    - apply quiet_artifact; [exact Hs |]. quiet. }
  pose proof (Htyped path) as Hsend.
  destruct (robot_answer W _ (typed path)) as [e |] eqn:Hans0.
  - eexists _, ([EvCreateTemp pattern] ++ downloading
                  ++ [typed path; EvSendText _; EvRemove path]).
    rewrite H. split; [f_equal; apply trace_artifact |].
    split.
    + exists None, downloading. split; [exact Hd |]. split; [exact Hs |].
      rewrite Hans0. by split.
    + apply quiet_artifact; [exact Hs |]. simpl. split.
      * intros _ Hans. exfalso. rewrite trace_artifact_prefix in Hans. congruence.
      * quiet.
  - eexists _, ([EvCreateTemp pattern] ++ downloading ++ [typed path; EvRemove path]).
    rewrite H. split; [f_equal; apply trace_artifact |].
    split.
    + exists None, downloading. split; [exact Hd |]. split; [exact Hs |].
      rewrite Hans0. by split.
    + apply quiet_artifact; [exact Hs |]. simpl. split.
      * intros _ _. split; [exact Hs |]. by split.
      * quiet.
Qed.

Lemma send_image_outcome (W : World) (url payload : string) (tr : Trace) :
  exists r added,
    send_image W url tr = (r, tr ++ added)
    /\ delivered W tr (Image url) payload r added
    /\ quiet_after_success W tr r [] added.
Proof.
  apply artifact_outcome; [by intros path |].
  exact (send_image_cases W url tr).
Qed.

Lemma send_file_outcome (W : World) (url payload : string) (tr : Trace) :
  exists r added,
    send_file W url tr = (r, tr ++ added)
    /\ delivered W tr (File url) payload r added
    /\ quiet_after_success W tr r [] added.
Proof.
  apply artifact_outcome; [by intros path |].
  exact (send_file_cases W url tr).
Qed.

Lemma send_plain_outcome (W : World) (payload : string) (tr : Trace) :
  exists r added,
    send_plain W payload tr = (r, tr ++ added)
    /\ delivered W tr PlainText payload r added
    /\ quiet_after_success W tr r [] added.
Proof.
  unfold delivered, text_delivered.
  destruct (len payload <=? maxWeComMessageLength) eqn:Hle.
  - apply Z.leb_le in Hle. eexists _, [EvSendText payload].
    rewrite send_plain_within_limit by exact Hle.
    split; [reflexivity |]. split; [| quiet].
    split; [reflexivity |]. by rewrite app_nil_r.
  - apply Z.leb_gt in Hle.
    pose proof (send_plain_over_limit W payload tr ltac:(lia)) as H. cbv zeta.
    destruct (slice_to 0 (to_runes payload) _ 1998) as [runes |].
    + simpl in H. eexists _, [EvSendText _]. rewrite H.
      split; [reflexivity |]. split; [| quiet].
      split; [reflexivity |]. by rewrite app_nil_r.
    + exists Panic, []. rewrite H, app_nil_r.
      split; [reflexivity |]. split; [| quiet]. by split.
Qed.

(** The formatter on any payload: the events are those of the decided
    shape, and a typed send that succeeds is the only send. *)
Lemma formatter_outcome (W : World) (cfg : AppConfig) (payload : string) (tr : Trace) :
  exists r added,
    postprocessDifyResponse W cfg payload tr = (r, tr ++ added)
    /\ delivered W tr (decide_shape (json_Unmarshal_object W payload) (BotType (Dify cfg)))
                 payload r added
    /\ quiet_after_success W tr r [] added.
Proof.
  rewrite postprocess_by_shape.
  destruct (decide_shape _ _) as [url | url | content | |].
  - apply send_image_outcome.
  - apply send_file_outcome.
  - eexists _, [EvSendMarkdown content]. split; [reflexivity |].
    split; [by split |]. quiet; try reflexivity.
    simpl in Hans. rewrite app_nil_r in Hans. by rewrite Hans.
  - eexists _, [EvSendText payload]. split; [reflexivity |].
    split; [| quiet]. split; [reflexivity |]. by rewrite app_nil_r.
  - apply send_plain_outcome.
Qed.

(** C3. For every payload the outbound shape is decided by the first
    matching rule, in this order, over the payload parsed as a JSON
    object: a non-empty string field image_url, Image; else a non-empty
    file_url, File; else a non-empty markdown, Markdown; else a data field
    with the bot type workflow, the raw payload as Text; otherwise, and
    when the payload does not parse, plain text.  The events and the
    result of the invocation are exactly those of that shape: an Image or
    a File is downloaded into a scratch file and sent as such, a Text
    notice taking its place only when the scratch file or the download
    failed and following it only when the robot refused it; Markdown and
    the raw payload go out as they are; plain text goes out as it is
    within the limit and cut, with the note, over it.  Once a typed send
    (image, file, markdown) succeeds it is the only send of the
    invocation: none comes before, none after, and the formatter returns
    no error. *)
Theorem formatter_decision_order
        (W : World) (cfg : AppConfig) (payload : string) (tr : Trace) :
  exists r added,
    postprocessDifyResponse W cfg payload tr = (r, tr ++ added)
    /\ delivered W tr (decide_shape (json_Unmarshal_object W payload) (BotType (Dify cfg)))
                 payload r added
    /\ (forall before e after,
          added = before ++ e :: after ->
          is_typed_send e = true ->
          robot_answer W (tr ++ before) e = None ->
          sends before = [] /\ sends after = [] /\ r = Ret None).
Proof.
  destruct (formatter_outcome W cfg payload tr) as (r & added & Heq & Hd & Hq).
  exists r, added. split; [exact Heq |]. split; [exact Hd |].
  intros before e after Hsplit Ht Hans.
  exact (quiet_after_success_split W tr r added [] Hq before e after Hsplit Ht Hans).
Qed.

Lemma formatter_decision_order_witness :
  let W := examples.world [] (inr 200) examples.all_accepted in
  let path := "/tmp/dify_image_*.png" in
  postprocessDifyResponse W examples.chat_cfg examples.image_payload []
  = (Ret None,
     [EvCreateTemp "dify_image_*.png"; EvGet examples.image_url; EvCreate path;
      EvCopyToFile path; EvSendImage path; EvRemove path])
  /\ decide_shape (json_Unmarshal_object W examples.image_payload) "chat"
     = Image examples.image_url.
Proof.
  intros W path.
  destruct (formatter_decision_order W examples.chat_cfg examples.image_payload [])
    as (r & added & Heq & _ & Hquiet).
  assert (Hadded : added = [EvCreateTemp "dify_image_*.png"; EvGet examples.image_url]
                           ++ EvCreate path :: [EvCopyToFile path]
                           ++ EvSendImage path :: [EvRemove path]).
  { pose proof Heq as H. vm_compute in H. by injection H as _ <-. }
  destruct (Hquiet [EvCreateTemp "dify_image_*.png"; EvGet examples.image_url;
                    EvCreate path; EvCopyToFile path]
                   (EvSendImage path) [EvRemove path] Hadded eq_refl eq_refl)
    as (_ & _ & ->).
  split; [| reflexivity].
  rewrite Heq, Hadded. reflexivity.
Defined.

(** C4. For a payload whose JSON object has a non-empty image_url, a
    failure to create the scratch file, to download, or to deliver the
    Image does not become the formatter's own error: a Text that names the
    URL and says that the download or the delivery failed is sent, and the
    formatter returns what the robot answers to that Text.  On a download
    failure the scratch file is removed and the Text is the only send, so
    no Image message goes out. *)
Theorem image_failures_degrade_to_text
        (W : World) (cfg : AppConfig) (payload : string)
        (obj : gmap string JSON) (url : string) (tr : Trace) :
  json_Unmarshal_object W payload = inr obj ->
  nonempty_string (obj !! "image_url") = Some url ->
  let pattern := "dify_image_*" +:+ (if is_empty (Ext url) then ".png" else Ext url) in
  let download_notice := "Dify 返回了一张图片: " +:+ url +:+ "，但下载失败。" in
  let send_notice := "Dify 返回了一张图片: " +:+ url +:+ "，但发送失败。" in
  let tr1 := tr ++ [EvCreateTemp pattern] in
  match os_CreateTemp W tr pattern with
  | inl _ =>
      postprocessDifyResponse W cfg payload tr
      = (Ret (robot_SendTextMessage W tr1 download_notice),
         tr1 ++ [EvSendText download_notice])
  | inr path =>
      exists d downloading,
        DownloadFile W url path tr1 = (Ret d, tr1 ++ downloading)
        /\ sends downloading = []
        /\ let tr2 := tr1 ++ downloading in
           match d with
           | Some _ =>
               postprocessDifyResponse W cfg payload tr
               = (Ret (robot_SendTextMessage W (tr2 ++ [EvRemove path]) download_notice),
                  tr2 ++ [EvRemove path; EvSendText download_notice])
               /\ sends ([EvCreateTemp pattern] ++ downloading
                           ++ [EvRemove path; EvSendText download_notice])
                  = [EvSendText download_notice]
           | None =>
               match robot_SendImageMessage W tr2 path with
               | Some _ =>
                   postprocessDifyResponse W cfg payload tr
                   = (Ret (robot_SendTextMessage W (tr2 ++ [EvSendImage path]) send_notice),
                      tr2 ++ [EvSendImage path; EvSendText send_notice; EvRemove path])
               | None =>
                   postprocessDifyResponse W cfg payload tr
                   = (Ret None, tr2 ++ [EvSendImage path; EvRemove path])
               end
           end
  end.
Proof.
  intros Hparse Hurl pattern download_notice send_notice tr1.
  assert (Hpost : postprocessDifyResponse W cfg payload = send_image W url).
  { unfold postprocessDifyResponse. by rewrite Hparse, Hurl. }
  rewrite Hpost.
  change download_notice with (image_download_failed url).
  change send_notice with (image_send_failed url).
  pose proof (send_image_cases W url tr) as H. cbv zeta in H.
  fold pattern in H. fold tr1 in H.
  destruct (os_CreateTemp W tr pattern) as [e | path]; [exact H |].
  destruct H as (d & downloading & Hd & Hs & H).
  exists d, downloading. split; [exact Hd |]. split; [exact Hs |].
  cbv zeta. destruct d as [e |]; [| exact H].
  split; [exact H |]. by rewrite sends_artifact.
Qed.

Lemma image_failures_degrade_to_text_witness :
  let W := examples.world [] (inr 404) examples.all_accepted in
  let obj : gmap string JSON := {[ "image_url" := JString examples.image_url ]} in
  let notice := "Dify 返回了一张图片: http://x/y.png，但下载失败。" in
  json_Unmarshal_object W examples.image_payload = inr obj
  /\ nonempty_string (obj !! "image_url") = Some examples.image_url
  /\ postprocessDifyResponse W examples.chat_cfg examples.image_payload []
     = (Ret None,
        [EvCreateTemp "dify_image_*.png"; EvGet examples.image_url;
         EvRemove "/tmp/dify_image_*.png"; EvSendText notice]).
Proof.
  intros W obj notice.
  assert (H1 : json_Unmarshal_object W examples.image_payload = inr obj)
    by reflexivity.
  assert (H2 : nonempty_string (obj !! "image_url") = Some examples.image_url)
    by reflexivity.
  split; [exact H1 |]. split; [exact H2 |].
  pose proof (image_failures_degrade_to_text W examples.chat_cfg examples.image_payload
                obj examples.image_url [] H1 H2) as H.
  cbv zeta in H.
  destruct H as (d & downloading & Hd & _ & H).
  vm_compute in Hd. injection Hd as <- <-.
  destruct H as [H _]. rewrite H. reflexivity.
Defined.

End formatter_facts.

(* ===================================================================== *)
(** * The backend client and the orchestrator: properties                 *)
(* ===================================================================== *)

Module service_facts.
Import gostring config service spec gostring_facts trace_facts.

Lemma append_empty (s : string) : s +:+ EmptyString = s.
Proof.
  induction s as [| c s IH]; [reflexivity |].
  change (String c (s +:+ EmptyString) = String c s). by rewrite IH.
Qed.

Lemma fullURL_append (base path : string) : Sprintf "%s%s" [base; path] = base +:+ path.
Proof. simpl. by rewrite append_empty. Qed.

(** One iteration of the retry loop. *)
Lemma attempts_step (W : World) (req : HttpRequest) (n : nat) (i : Z)
      (st : option HttpResponse * option Error) (tr : Trace) :
  attempts W req (S n) i st tr =
  match http_Do W tr req with
  | inr resp => (Ret (Some resp, None), tr ++ [EvDo req])
  | inl err =>
      if i <? maxRetries - 1
      then attempts W req n (i + 1) (None, Some err) (tr ++ [EvDo req; EvSleep (i + 1)])
      else attempts W req n (i + 1) (None, Some err) (tr ++ [EvDo req])
  end.
Proof.
  simpl. rewrite bind_call.
  destruct (http_Do W tr req) as [err | resp]; [| reflexivity].
  destruct (i <? maxRetries - 1).
  - rewrite bind_call. by rewrite <- app_assoc.
  - reflexivity.
Qed.

(** The retry loop, attempt by attempt. *)
Lemma attempts_unfold (W : World) (req : HttpRequest) (tr : Trace) :
  match http_Do W tr req with
  | inr resp =>
      attempts W req 3 0 (None, None) tr
      = (Ret (Some resp, None), tr ++ backoff req 0 ++ [EvDo req])
  | inl _ =>
      match http_Do W (tr ++ backoff req 1) req with
      | inr resp =>
          attempts W req 3 0 (None, None) tr
          = (Ret (Some resp, None), tr ++ backoff req 1 ++ [EvDo req])
      | inl _ =>
          match http_Do W (tr ++ backoff req 2) req with
          | inr resp =>
              attempts W req 3 0 (None, None) tr
              = (Ret (Some resp, None), tr ++ backoff req 2 ++ [EvDo req])
          | inl e =>
              attempts W req 3 0 (None, None) tr
              = (Ret (None, Some e), tr ++ backoff req 2 ++ [EvDo req])
          end
      end
  end.
Proof.
  change (backoff req 0) with (@nil Event).
  change (backoff req 1) with [EvDo req; EvSleep 1].
  change (backoff req 2) with [EvDo req; EvSleep 1; EvDo req; EvSleep 2].
  rewrite attempts_step.
  destruct (http_Do W tr req) as [e1 | resp]; [| reflexivity].
  change (0 <? maxRetries - 1) with true. cbv iota. change (0 + 1) with 1.
  rewrite attempts_step.
  destruct (http_Do W (tr ++ [EvDo req; EvSleep 1]) req) as [e2 | resp];
    [| by rewrite <- app_assoc].
  change (1 <? maxRetries - 1) with true. cbv iota. change (1 + 1) with 2.
  rewrite <- app_assoc. simpl app.
  rewrite attempts_step.
  destruct (http_Do W (tr ++ [EvDo req; EvSleep 1; EvDo req; EvSleep 2]) req)
    as [e3 | resp]; [| by rewrite <- app_assoc].
  change (2 <? maxRetries - 1) with false. cbv iota.
  simpl. unfold ret. by rewrite <- app_assoc.
Qed.

(** [doDifyRequest] once the request is built: the loop, then the
    reading of the loop's variables. *)
Lemma doDifyRequest_loop {A} (W : World) (cfg : AppConfig)
      (method path body contentType logPrefix : string)
      (responseStruct : option (string -> Error + A)) (dst : A) (tr tr' : Trace)
      (st : option HttpResponse * option Error) :
  http_NewRequest W method (BaseURL (Dify cfg) +:+ path) = None ->
  attempts W (request_of cfg method path body contentType) 3 0 (None, None) tr
  = (Ret st, tr') ->
  doDifyRequest W cfg method path body contentType logPrefix responseStruct dst tr
  = match st with
    | (_, Some err) =>
        (Ret (Some (Errorf "%s 请求在 %d 次重试后仍然失败: %w"
                           [AStr logPrefix; AInt maxRetries] (Some err)), dst), tr')
    | (None, None) => (Panic, tr')
    | (Some resp, None) =>
        match Body resp with
        | inl err =>
            (Ret (Some (Errorf "failed to read %s 响应体: %w" [AStr logPrefix] (Some err)),
                  dst), tr')
        | inr respBody =>
            if negb (StatusCode resp =? StatusOK) then
              match json_Unmarshal_error W respBody with
              | inr errorResponse =>
                  (Ret (Some (Errorf "%s 错误: 错误码: %s, 消息: %s"
                                     [AStr logPrefix; AStr (Code errorResponse);
                                      AStr (Message errorResponse)] None), dst), tr')
              | inl _ =>
                  (Ret (Some (Errorf "%s 返回错误状态码 %d: %s"
                                     [AStr logPrefix; AInt (StatusCode resp);
                                      AStr respBody] None), dst), tr')
              end
            else
              match responseStruct with
              | Some decode =>
                  match decode respBody with
                  | inl err =>
                      (Ret (Some (Errorf "failed to parse %s 成功响应: %w"
                                         [AStr logPrefix] (Some err)), dst), tr')
                  | inr v => (Ret (None, v), tr')
                  end
              | None => (Ret (None, dst), tr')
              end
        end
    end.
Proof.
  intros Hnew Hloop. unfold doDifyRequest.
  rewrite fullURL_append, Hnew.
  change (Z.to_nat maxRetries) with 3%nat.
  change (mkRequest method (BaseURL (Dify cfg) +:+ path) body contentType
                    ("Bearer " +:+ APIKey (Dify cfg)))
    with (request_of cfg method path body contentType).
  rewrite (bind_eq _ _ _ _ _ Hloop).
  destruct st as [[resp |] [err |]]; try reflexivity.
  destruct (Body resp) as [err | respBody]; [reflexivity |].
  destruct (negb (StatusCode resp =? StatusOK)).
  - destruct (json_Unmarshal_error W respBody); reflexivity.
  - destruct responseStruct as [decode |]; [| reflexivity].
    destruct (decode respBody); reflexivity.
Qed.

Lemma doDifyRequest_no_request {A} (W : World) (cfg : AppConfig)
      (method path body contentType logPrefix : string)
      (responseStruct : option (string -> Error + A)) (dst : A) (tr : Trace) (err : Error) :
  http_NewRequest W method (BaseURL (Dify cfg) +:+ path) = Some err ->
  doDifyRequest W cfg method path body contentType logPrefix responseStruct dst tr
  = (Ret (Some (Errorf "failed to create %s http request: %w" [AStr logPrefix] (Some err)),
          dst), tr).
Proof.
  intros Hnew. unfold doDifyRequest. by rewrite fullURL_append, Hnew.
Qed.

(** A response, of whatever status, ends the call where the loop ended. *)
Lemma doDifyRequest_response {A} (W : World) (cfg : AppConfig)
      (method path body contentType logPrefix : string)
      (responseStruct : option (string -> Error + A)) (dst : A) (tr tr' : Trace)
      (resp : HttpResponse) :
  http_NewRequest W method (BaseURL (Dify cfg) +:+ path) = None ->
  attempts W (request_of cfg method path body contentType) 3 0 (None, None) tr
  = (Ret (Some resp, None), tr') ->
  exists res,
    doDifyRequest W cfg method path body contentType logPrefix responseStruct dst tr
    = (Ret res, tr').
Proof.
  intros Hnew Hloop.
  rewrite (doDifyRequest_loop W cfg _ _ _ _ _ _ _ _ _ _ Hnew Hloop).
  destruct (Body resp) as [err | respBody]; [eauto |].
  destruct (negb (StatusCode resp =? StatusOK)).
  - destruct (json_Unmarshal_error W respBody); eauto.
  - destruct responseStruct as [decode |]; [| eauto].
    destruct (decode respBody); eauto.
Qed.

Lemma attempts_of_backoff (req : HttpRequest) (k : nat) :
  List.length (List.filter is_do (backoff req k ++ [EvDo req])) = S k.
Proof.
  unfold backoff. generalize 1%nat. induction k as [| k IH]; intros start; simpl.
  - reflexivity.
  - by rewrite IH.
Qed.

(** C5. Every call of [doDifyRequest] makes at most 3 attempts.  When the
    request cannot be built there is none.  Otherwise the events of the call
    are [k] failed attempts, the i-th of them followed by a sleep of i
    seconds (i = 1, 2), and one last attempt, with k < 3: each of the first
    k attempts failed at transport level, and the last one either yielded an
    HTTP response, of whatever status, after which no attempt is made, or it
    was the third transport failure and the call fails with the error that
    wraps it. *)
Theorem retry_policy {A} (W : World) (cfg : AppConfig)
        (method path body contentType logPrefix : string)
        (responseStruct : option (string -> Error + A)) (dst : A) (tr : Trace) :
  let req := request_of cfg method path body contentType in
  let answer (k : nat) := http_Do W (tr ++ backoff req k) req in
  match http_NewRequest W method (BaseURL (Dify cfg) +:+ path) with
  | Some err =>
      doDifyRequest W cfg method path body contentType logPrefix responseStruct dst tr
      = (Ret (Some (Errorf "failed to create %s http request: %w"
                           [AStr logPrefix] (Some err)), dst), tr)
  | None =>
      exists (r : Result (option Error * A)) (k : nat),
        doDifyRequest W cfg method path body contentType logPrefix responseStruct dst tr
        = (r, tr ++ backoff req k ++ [EvDo req])
        /\ (k < 3)%nat
        /\ (List.length (List.filter is_do (backoff req k ++ [EvDo req])) <= 3)%nat
        /\ (forall j : nat, (j < k)%nat -> exists e, answer j = inl e)
        /\ ((exists resp, answer k = inr resp)
            \/ (k = 2%nat
                /\ exists e,
                    answer 2%nat = inl e
                    /\ r = Ret (Some (Errorf "%s 请求在 %d 次重试后仍然失败: %w"
                                             [AStr logPrefix; AInt 3] (Some e)), dst)))
  end.
Proof.
  intros req answer.
  destruct (http_NewRequest W method (BaseURL (Dify cfg) +:+ path)) as [err |] eqn:Hnew.
  { by apply doDifyRequest_no_request. }
  pose proof (attempts_unfold W req tr) as H.
  assert (Hans0 : answer 0%nat = http_Do W tr req).
  { unfold answer. change (backoff req 0) with (@nil Event). by rewrite app_nil_r. }
  rewrite <- Hans0 in H. fold (answer 1%nat) in H. fold (answer 2%nat) in H.
  assert (Hfail : forall k : nat,
             (forall j : nat, (j < k)%nat -> exists e, answer j = inl e) ->
             forall e, answer k = inl e ->
             forall j : nat, (j < S k)%nat -> exists e, answer j = inl e).
  { intros k Hk e He j Hj. destruct (decide (j = k)) as [-> | Hne]; [eauto |].
    apply Hk. lia. }
  destruct (answer 0%nat) as [e0 | resp] eqn:H0.
  2:{ destruct (doDifyRequest_response W cfg _ _ _ _ logPrefix responseStruct dst
                                       _ _ _ Hnew H) as [res Hres].
      exists (Ret res), 0%nat. rewrite Hres, attempts_of_backoff.
      split; [reflexivity |]. split; [lia |]. split; [lia |].
      split; [intros j Hj; lia |]. left. rewrite ?H0. eauto. }
  destruct (answer 1%nat) as [e1 | resp] eqn:H1.
  2:{ destruct (doDifyRequest_response W cfg _ _ _ _ logPrefix responseStruct dst
                                       _ _ _ Hnew H) as [res Hres].
      exists (Ret res), 1%nat. rewrite Hres, attempts_of_backoff.
      split; [reflexivity |]. split; [lia |]. split; [lia |].
      split; [| left; rewrite ?H1; eauto].
      apply (Hfail 0%nat) with (e := e0); [intros j Hj; lia | exact H0]. }
  assert (Hboth : forall j : nat, (j < 2)%nat -> exists e, answer j = inl e).
  { apply (Hfail 1%nat) with (e := e1); [| exact H1].
    apply (Hfail 0%nat) with (e := e0); [intros j Hj; lia | exact H0]. }
  destruct (answer 2%nat) as [e2 | resp] eqn:H2.
  - eexists _, 2%nat.
    rewrite (doDifyRequest_loop W cfg _ _ _ _ _ _ _ _ _ _ Hnew H), attempts_of_backoff.
    split; [reflexivity |]. split; [lia |]. split; [lia |].
    split; [exact Hboth |]. right. split; [reflexivity |].
    exists e2. rewrite ?H2. by split.
  - destruct (doDifyRequest_response W cfg _ _ _ _ logPrefix responseStruct dst
                                     _ _ _ Hnew H) as [res Hres].
    exists (Ret res), 2%nat. rewrite Hres, attempts_of_backoff.
    split; [reflexivity |]. split; [lia |]. split; [lia |].
    split; [exact Hboth |]. left. rewrite ?H2. eauto.
Qed.

Lemma retry_policy_witness :
  let W := examples.world [] (inr 200) examples.all_accepted in
  let req := request_of examples.chat_cfg "POST" difyChatMessagesPath "{}"
                        "application/json" in
  http_NewRequest W "POST" (BaseURL (Dify examples.chat_cfg) +:+ difyChatMessagesPath)
  = None
  /\ doDifyRequest W examples.chat_cfg "POST" difyChatMessagesPath "{}" "application/json"
                   "Chat API" (Some (json_Unmarshal_chat W)) (mkChatResp EmptyString) []
     = (Ret (Some (Errorf "%s 请求在 %d 次重试后仍然失败: %w"
                          [AStr "Chat API"; AInt 3] (Some examples.refused)),
             mkChatResp EmptyString),
        [EvDo req; EvSleep 1; EvDo req; EvSleep 2; EvDo req]).
Proof.
  intros W req.
  assert (Hnew : http_NewRequest W "POST"
                   (BaseURL (Dify examples.chat_cfg) +:+ difyChatMessagesPath) = None)
    by reflexivity.
  split; [exact Hnew |].
  destruct (retry_policy W examples.chat_cfg "POST" difyChatMessagesPath "{}"
              "application/json" "Chat API" (Some (json_Unmarshal_chat W))
              (mkChatResp EmptyString) [])
    as (r & k & Heq & _ & _ & _ & [[resp Hresp] | (-> & e & He & ->)]).
  - exfalso. simpl in Hresp. unfold examples.nth_answer in Hresp.
    destruct (List.length _) in Hresp; discriminate.
  - rewrite Heq. vm_compute in He. injection He as <-. reflexivity.
Defined.

(** C2 (amended). For every call of [doDifyRequest] that completes the
    round trip (an attempt yields a response whose body can be read): if
    the status is 200 and a destination was supplied, the body is decoded
    into it and the call succeeds, a decode failure being a terminal error
    of its own kind; if the status is any other code, 2xx codes other than
    200 included, the call fails terminally, with the code and message of
    a structured error body when the body decodes as one, and with the raw
    status and body text otherwise.  Nothing is attempted after the
    response. *)
Theorem status_interpretation {A} (W : World) (cfg : AppConfig)
        (method path body contentType logPrefix : string)
        (responseStruct : option (string -> Error + A)) (dst : A) (tr tr' : Trace)
        (resp : HttpResponse) (respBody : string) :
  http_NewRequest W method (BaseURL (Dify cfg) +:+ path) = None ->
  attempts W (request_of cfg method path body contentType) 3 0 (None, None) tr
  = (Ret (Some resp, None), tr') ->
  Body resp = inr respBody ->
  let result :=
    doDifyRequest W cfg method path body contentType logPrefix responseStruct dst tr in
  (StatusCode resp = 200 ->
   match responseStruct with
   | Some decode =>
       match decode respBody with
       | inr v => result = (Ret (None, v), tr')
       | inl err =>
           result = (Ret (Some (Errorf "failed to parse %s 成功响应: %w"
                                       [AStr logPrefix] (Some err)), dst), tr')
       end
   | None => result = (Ret (None, dst), tr')
   end)
  /\ (StatusCode resp <> 200 ->
      match json_Unmarshal_error W respBody with
      | inr errorResponse =>
          result = (Ret (Some (Errorf "%s 错误: 错误码: %s, 消息: %s"
                                      [AStr logPrefix; AStr (Code errorResponse);
                                       AStr (Message errorResponse)] None), dst), tr')
      | inl _ =>
          result = (Ret (Some (Errorf "%s 返回错误状态码 %d: %s"
                                      [AStr logPrefix; AInt (StatusCode resp);
                                       AStr respBody] None), dst), tr')
      end).
Proof.
  intros Hnew Hloop Hbody result. subst result.
  rewrite (doDifyRequest_loop W cfg _ _ _ _ _ _ _ _ _ _ Hnew Hloop), Hbody.
  split; intros Hstatus.
  - rewrite Hstatus. change (negb (200 =? StatusOK)) with false. cbv iota.
    destruct responseStruct as [decode |]; [| reflexivity].
    destruct (decode respBody); reflexivity.
  - assert (Hne : negb (StatusCode resp =? StatusOK) = true).
    { apply negb_true_iff, Z.eqb_neq. exact Hstatus. }
    rewrite Hne. destruct (json_Unmarshal_error W respBody); reflexivity.
Qed.

Lemma status_interpretation_witness :
  let ok := mkResponse 200 (inr examples.hello_body) in
  let W := examples.world [inr ok] (inr 200) examples.all_accepted in
  let req := request_of examples.chat_cfg "POST" difyChatMessagesPath "{}"
                        "application/json" in
  attempts W req 3 0 (None, None) [] = (Ret (Some ok, None), [EvDo req])
  /\ doDifyRequest W examples.chat_cfg "POST" difyChatMessagesPath "{}" "application/json"
                   "Chat API" (Some (json_Unmarshal_chat W)) (mkChatResp EmptyString) []
     = (Ret (None, mkChatResp "hi there"), [EvDo req]).
Proof.
  intros ok W req.
  assert (Hloop : attempts W req 3 0 (None, None) [] = (Ret (Some ok, None), [EvDo req]))
    by reflexivity.
  split; [exact Hloop |].
  destruct (status_interpretation W examples.chat_cfg "POST" difyChatMessagesPath "{}"
              "application/json" "Chat API" (Some (json_Unmarshal_chat W))
              (mkChatResp EmptyString) [] [EvDo req] ok examples.hello_body
              eq_refl Hloop eq_refl) as [H200 _].
  exact (H200 eq_refl).
Defined.

(** C2 as stated fails at status 201 Created: the status is a 2xx code, a
    destination is supplied and the body decodes into it, yet the call
    fails, with the error built from the body read as an error body. *)
Lemma created_status_is_an_error :
  let created := mkResponse 201 (inr examples.created_body) in
  let W := examples.world [inr created] (inr 200) examples.all_accepted in
  let req := request_of examples.chat_cfg "POST" difyChatMessagesPath "{}"
                        "application/json" in
  (200 <= StatusCode created < 300)
  /\ json_Unmarshal_chat W examples.created_body = inr (mkChatResp "created")
  /\ doDifyRequest W examples.chat_cfg "POST" difyChatMessagesPath "{}" "application/json"
                   "Chat API" (Some (json_Unmarshal_chat W)) (mkChatResp EmptyString) []
     = (Ret (Some (Errorf "%s 错误: 错误码: %s, 消息: %s"
                          [AStr "Chat API"; AStr EmptyString; AStr EmptyString] None),
             mkChatResp EmptyString),
        [EvDo req]).
Proof.
  intros created W req. split; [simpl; lia |]. split; reflexivity.
Qed.

Lemma not_configured_iff (cfg : AppConfig) :
  not_configured cfg = true
  <-> BaseURL (Dify cfg) = EmptyString \/ APIKey (Dify cfg) = EmptyString.
Proof.
  unfold not_configured. rewrite orb_true_iff, !is_empty_spec. reflexivity.
Qed.

Lemma bind_unfold {A B} (m : M A) (k : A -> M B) (tr : Trace) :
  bind m k tr = match m tr with
                | (Ret a, tr') => k a tr'
                | (Panic, tr') => (Panic, tr')
                end.
Proof. reflexivity. Qed.

(** [CallDifyChatAPI], configured and with a request that marshals, in
    terms of what [doDifyRequest] leaves in the destination. *)
Lemma CallDifyChatAPI_configured (W : World) (cfg : AppConfig)
      (request : DifyChatRequest) (jsonData : string) (tr : Trace) :
  not_configured cfg = false ->
  json_Marshal_chat W (chat_normalized request) = inr jsonData ->
  CallDifyChatAPI W cfg request tr =
  match doDifyRequest W cfg "POST" difyChatMessagesPath jsonData "application/json"
                      "Chat API" (Some (json_Unmarshal_chat W))
                      (mkChatResp EmptyString) tr with
  | (Ret (Some e, _), tr') => (Ret (mkChatResp EmptyString, Some e), tr')
  | (Ret (None, response), tr') =>
      if is_empty (Answer response)
      then (Ret (mkChatResp EmptyString,
                 Some (Errorf "dify chat api 响应未包含有效答案" [] None)), tr')
      else (Ret (response, None), tr')
  | (Panic, tr') => (Panic, tr')
  end.
Proof.
  intros Hcfg Hm. unfold CallDifyChatAPI. rewrite Hcfg.
  fold (chat_normalized request). rewrite Hm, bind_unfold.
  destruct (doDifyRequest _ _ _ _ _ _ _ _ _ _) as [[[[e |] response] |] tr'];
    try reflexivity.
  destruct (is_empty (Answer response)); reflexivity.
Qed.

Lemma CallDifyCompletionAPI_configured (W : World) (cfg : AppConfig)
      (request : DifyCompletionRequest) (jsonData : string) (tr : Trace) :
  not_configured cfg = false ->
  json_Marshal_completion W (completion_normalized request) = inr jsonData ->
  CallDifyCompletionAPI W cfg request tr =
  match doDifyRequest W cfg "POST" difyCompletionMessagesPath jsonData "application/json"
                      "Completion API" (Some (json_Unmarshal_completion W))
                      (mkCompletionResp EmptyString) tr with
  | (Ret (Some e, _), tr') => (Ret (mkCompletionResp EmptyString, Some e), tr')
  | (Ret (None, response), tr') =>
      if is_empty (Text response)
      then (Ret (mkCompletionResp EmptyString,
                 Some (Errorf "dify completion api 响应未包含有效文本" [] None)), tr')
      else (Ret (response, None), tr')
  | (Panic, tr') => (Panic, tr')
  end.
Proof.
  intros Hcfg Hm. unfold CallDifyCompletionAPI. rewrite Hcfg.
  fold (completion_normalized request). rewrite Hm, bind_unfold.
  destruct (doDifyRequest _ _ _ _ _ _ _ _ _ _) as [[[[e |] response] |] tr'];
    try reflexivity.
  destruct (is_empty (Text response)); reflexivity.
Qed.

Lemma CallDifyWorkflowAPI_configured (W : World) (cfg : AppConfig)
      (request : DifyWorkflowRequest) (jsonData : string) (tr : Trace) :
  not_configured cfg = false ->
  json_Marshal_workflow W (workflow_normalized request) = inr jsonData ->
  CallDifyWorkflowAPI W cfg request tr =
  match doDifyRequest W cfg "POST" difyWorkflowRunPath jsonData "application/json"
                      "Workflow API" (Some (json_Unmarshal_workflow W))
                      (mkWorkflowResp None) tr with
  | (Ret (Some e, _), tr') => (Ret (mkWorkflowResp None, Some e), tr')
  | (Ret (None, response), tr') =>
      match Data response with
      | None => (Ret (mkWorkflowResp None,
                      Some (Errorf "dify workflow api 响应未包含有效数据" [] None)), tr')
      | Some _ => (Ret (response, None), tr')
      end
  | (Panic, tr') => (Panic, tr')
  end.
Proof.
  intros Hcfg Hm. unfold CallDifyWorkflowAPI. rewrite Hcfg.
  change (mkWorkflowReq _ (WorkflowID_ request)) with (workflow_normalized request).
  rewrite Hm, bind_unfold.
  destruct (doDifyRequest _ _ _ _ _ _ _ _ _ _) as [[[[e |] response] |] tr'];
    try reflexivity.
  destruct (Data response); reflexivity.
Qed.

Lemma CallDifyChatAPI_success (W : World) (cfg : AppConfig)
      (request : DifyChatRequest) (tr tr' : Trace) (resp : DifyChatResponse) :
  CallDifyChatAPI W cfg request tr = (Ret (resp, None), tr') ->
  Answer resp <> EmptyString.
Proof.
  destruct (not_configured cfg) eqn:Hcfg.
  { unfold CallDifyChatAPI. rewrite Hcfg. discriminate. }
  destruct (json_Marshal_chat W (chat_normalized request)) as [e | jsonData] eqn:Hm.
  { unfold CallDifyChatAPI. rewrite Hcfg. fold (chat_normalized request).
    rewrite Hm. discriminate. }
  rewrite (CallDifyChatAPI_configured W cfg request jsonData tr Hcfg Hm).
  destruct (doDifyRequest _ _ _ _ _ _ _ _ _ _) as [[[[e |] response] |] tr1];
    try discriminate.
  destruct (is_empty (Answer response)) eqn:He; [discriminate |].
  intros [= <- _] Habs. apply is_empty_spec in Habs. congruence.
Qed.

Lemma CallDifyCompletionAPI_success (W : World) (cfg : AppConfig)
      (request : DifyCompletionRequest) (tr tr' : Trace) (resp : DifyCompletionResponse) :
  CallDifyCompletionAPI W cfg request tr = (Ret (resp, None), tr') ->
  Text resp <> EmptyString.
Proof.
  destruct (not_configured cfg) eqn:Hcfg.
  { unfold CallDifyCompletionAPI. rewrite Hcfg. discriminate. }
  destruct (json_Marshal_completion W (completion_normalized request))
    as [e | jsonData] eqn:Hm.
  { unfold CallDifyCompletionAPI. rewrite Hcfg. fold (completion_normalized request).
    rewrite Hm. discriminate. }
  rewrite (CallDifyCompletionAPI_configured W cfg request jsonData tr Hcfg Hm).
  destruct (doDifyRequest _ _ _ _ _ _ _ _ _ _) as [[[[e |] response] |] tr1];
    try discriminate.
  destruct (is_empty (Text response)) eqn:He; [discriminate |].
  intros [= <- _] Habs. apply is_empty_spec in Habs. congruence.
Qed.

Lemma CallDifyWorkflowAPI_success (W : World) (cfg : AppConfig)
      (request : DifyWorkflowRequest) (tr tr' : Trace) (resp : DifyWorkflowResponse) :
  CallDifyWorkflowAPI W cfg request tr = (Ret (resp, None), tr') ->
  Data resp <> None.
Proof.
  destruct (not_configured cfg) eqn:Hcfg.
  { unfold CallDifyWorkflowAPI. rewrite Hcfg. discriminate. }
  destruct (json_Marshal_workflow W (workflow_normalized request))
    as [e | jsonData] eqn:Hm.
  { unfold CallDifyWorkflowAPI. rewrite Hcfg.
    change (mkWorkflowReq _ (WorkflowID_ request)) with (workflow_normalized request).
    rewrite Hm. discriminate. }
  rewrite (CallDifyWorkflowAPI_configured W cfg request jsonData tr Hcfg Hm).
  destruct (doDifyRequest _ _ _ _ _ _ _ _ _ _) as [[[[e |] response] |] tr1];
    try discriminate.
  destruct (Data response) as [d |] eqn:Hd; [| discriminate].
  intros [= <- _]. congruence.
Qed.

(** C7. A successful backend call never yields an empty payload: when
    [CallDifyChatAPI] returns without an error the answer is not the empty
    string, likewise the text of [CallDifyCompletionAPI] and the data
    object of [CallDifyWorkflowAPI] (not nil); and whenever the request
    went through and the decoded answer (text, data) is empty (nil), the
    operation returns the zero response and an error. *)
Theorem successful_calls_carry_a_payload (W : World) (cfg : AppConfig) :
  (forall request tr tr' resp,
      CallDifyChatAPI W cfg request tr = (Ret (resp, None), tr') ->
      Answer resp <> EmptyString)
  /\ (forall request tr tr' resp,
         CallDifyCompletionAPI W cfg request tr = (Ret (resp, None), tr') ->
         Text resp <> EmptyString)
  /\ (forall request tr tr' resp,
         CallDifyWorkflowAPI W cfg request tr = (Ret (resp, None), tr') ->
         Data resp <> None)
  /\ (forall request jsonData tr tr' response,
         not_configured cfg = false ->
         json_Marshal_chat W (chat_normalized request) = inr jsonData ->
         doDifyRequest W cfg "POST" difyChatMessagesPath jsonData "application/json"
                       "Chat API" (Some (json_Unmarshal_chat W))
                       (mkChatResp EmptyString) tr
         = (Ret (None, response), tr') ->
         Answer response = EmptyString ->
         CallDifyChatAPI W cfg request tr
         = (Ret (mkChatResp EmptyString,
                 Some (Errorf "dify chat api 响应未包含有效答案" [] None)), tr'))
  /\ (forall request jsonData tr tr' response,
         not_configured cfg = false ->
         json_Marshal_completion W (completion_normalized request) = inr jsonData ->
         doDifyRequest W cfg "POST" difyCompletionMessagesPath jsonData "application/json"
                       "Completion API" (Some (json_Unmarshal_completion W))
                       (mkCompletionResp EmptyString) tr
         = (Ret (None, response), tr') ->
         Text response = EmptyString ->
         CallDifyCompletionAPI W cfg request tr
         = (Ret (mkCompletionResp EmptyString,
                 Some (Errorf "dify completion api 响应未包含有效文本" [] None)), tr'))
  /\ (forall request jsonData tr tr' response,
         not_configured cfg = false ->
         json_Marshal_workflow W (workflow_normalized request) = inr jsonData ->
         doDifyRequest W cfg "POST" difyWorkflowRunPath jsonData "application/json"
                       "Workflow API" (Some (json_Unmarshal_workflow W))
                       (mkWorkflowResp None) tr
         = (Ret (None, response), tr') ->
         Data response = None ->
         CallDifyWorkflowAPI W cfg request tr
         = (Ret (mkWorkflowResp None,
                 Some (Errorf "dify workflow api 响应未包含有效数据" [] None)), tr')).
Proof.
  split; [intros request tr tr' resp; apply CallDifyChatAPI_success |].
  split; [intros request tr tr' resp; apply CallDifyCompletionAPI_success |].
  split; [intros request tr tr' resp; apply CallDifyWorkflowAPI_success |].
  split; [| split].
  - intros request jsonData tr tr' response Hcfg Hm Hdo Hempty.
    rewrite (CallDifyChatAPI_configured W cfg request jsonData tr Hcfg Hm), Hdo, Hempty.
    reflexivity.
  - intros request jsonData tr tr' response Hcfg Hm Hdo Hempty.
    rewrite (CallDifyCompletionAPI_configured W cfg request jsonData tr Hcfg Hm),
      Hdo, Hempty.
    reflexivity.
  - intros request jsonData tr tr' response Hcfg Hm Hdo Hempty.
    rewrite (CallDifyWorkflowAPI_configured W cfg request jsonData tr Hcfg Hm),
      Hdo, Hempty.
    reflexivity.
Qed.

Lemma successful_calls_carry_a_payload_witness :
  let ok body := inr (mkResponse 200 (inr body)) : Error + HttpResponse in
  let W1 := examples.world [ok examples.hello_body] (inr 200) examples.all_accepted in
  let W2 := examples.world [ok examples.empty_answer_body] (inr 200)
                           examples.all_accepted in
  let request := mkChatReq (mkBase (Some ∅) "u1" responseModeBlocking []) "hello"
                           EmptyString in
  let req := request_of examples.chat_cfg "POST" difyChatMessagesPath
                        (examples.chat_json "u1" "hello" EmptyString) "application/json" in
  (CallDifyChatAPI W1 examples.chat_cfg request []
   = (Ret (mkChatResp "hi there", None), [EvDo req])
   /\ Answer (mkChatResp "hi there") <> EmptyString)
  /\ CallDifyChatAPI W2 examples.chat_cfg request []
     = (Ret (mkChatResp EmptyString,
             Some (Errorf "dify chat api 响应未包含有效答案" [] None)), [EvDo req]).
Proof.
  intros ok W1 W2 request req.
  destruct (successful_calls_carry_a_payload W1 examples.chat_cfg) as (Hchat & _).
  destruct (successful_calls_carry_a_payload W2 examples.chat_cfg)
    as (_ & _ & _ & Hempty & _).
  assert (Hrun : CallDifyChatAPI W1 examples.chat_cfg request []
                 = (Ret (mkChatResp "hi there", None), [EvDo req]))
    by reflexivity.
  split.
  - split; [exact Hrun |]. exact (Hchat request [] [EvDo req] _ Hrun).
  - apply (Hempty request (examples.chat_json "u1" "hello" EmptyString) [] [EvDo req]
                  (mkChatResp EmptyString)); reflexivity.
Defined.

(** C6 (amended). Configuration errors come before any call that leaves
    the process: with an empty base URL or API key each backend operation
    (chat, completion, workflow, file upload) returns the configuration
    error at once; and, when the pre-filter does not short-circuit (the
    message does not begin with the command prefix), [ConvertAndSend]
    returns an error for a bot type outside chat, completion and workflow
    without a backend operation or an outbound send. *)
Theorem configuration_errors_come_first (W : World) (cfg : AppConfig) :
  (BaseURL (Dify cfg) = EmptyString \/ APIKey (Dify cfg) = EmptyString ->
   (forall request tr,
       CallDifyChatAPI W cfg request tr
       = (Ret (mkChatResp EmptyString, Some not_configured_error), tr))
   /\ (forall request tr,
          CallDifyCompletionAPI W cfg request tr
          = (Ret (mkCompletionResp EmptyString, Some not_configured_error), tr))
   /\ (forall request tr,
          CallDifyWorkflowAPI W cfg request tr
          = (Ret (mkWorkflowResp None, Some not_configured_error), tr))
   /\ (forall filePath user tr,
          UploadFile W cfg filePath user tr = (Ret (∅, Some not_configured_error), tr)))
  /\ (BotType (Dify cfg) <> "chat" ->
      BotType (Dify cfg) <> "completion" ->
      BotType (Dify cfg) <> "workflow" ->
      forall message user conversationID filePath tr,
        HasPrefix message "/image " = false ->
        exists err,
          ConvertAndSend W cfg message user conversationID filePath tr
          = (Ret (Some err), tr)
          /\ (err = Errorf "message content or file path cannot be empty" [] None
              \/ err = Errorf "failed to call Dify API: %w" []
                         (Some (Errorf "unsupported dify bot type: %s"
                                       [AStr (BotType (Dify cfg))] None)))).
Proof.
  split.
  - intros Hcfg. apply not_configured_iff in Hcfg.
    repeat split; intros.
    + unfold CallDifyChatAPI. by rewrite Hcfg.
    + unfold CallDifyCompletionAPI. by rewrite Hcfg.
    + unfold CallDifyWorkflowAPI. by rewrite Hcfg.
    + unfold UploadFile. by rewrite Hcfg.
  - intros Hchat Hcompletion Hworkflow message user conversationID filePath tr Hprefix.
    unfold ConvertAndSend, preprocessMessage. rewrite Hprefix.
    destruct (is_empty _ && is_empty filePath).
    + eexists. split; [reflexivity |]. by left.
    + eexists. split; [| by right].
      unfold call_and_deliver, call_backend.
      apply String.eqb_neq in Hchat, Hcompletion, Hworkflow.
      rewrite Hchat, Hcompletion, Hworkflow. reflexivity.
Qed.

Lemma configuration_errors_come_first_witness :
  let W := examples.world [] (inr 200) examples.all_accepted in
  let cfg := mkAppConfig (mkDifyConfig "app-key" EmptyString "unknown" "wf-1"
                                       EmptyString) in
  (BaseURL (Dify cfg) = EmptyString \/ APIKey (Dify cfg) = EmptyString)
  /\ UploadFile W cfg "/tmp/report.txt" "u1" [] = (Ret (∅, Some not_configured_error), [])
  /\ HasPrefix "hello" "/image " = false
  /\ ConvertAndSend W cfg "hello" "u1" EmptyString EmptyString []
     = (Ret (Some (Errorf "failed to call Dify API: %w" []
                          (Some (Errorf "unsupported dify bot type: %s"
                                        [AStr "unknown"] None)))), []).
Proof.
  intros W cfg.
  destruct (configuration_errors_come_first W cfg) as [Hbackend Htype].
  assert (Hcfg : BaseURL (Dify cfg) = EmptyString \/ APIKey (Dify cfg) = EmptyString)
    by (left; reflexivity).
  destruct (Hbackend Hcfg) as (_ & _ & _ & Hupload).
  split; [exact Hcfg |]. split; [apply Hupload |]. split; [reflexivity |].
  destruct (Htype ltac:(discriminate) ltac:(discriminate) ltac:(discriminate)
                  "hello" "u1" EmptyString EmptyString [] eq_refl)
    as (err & Hrun & [-> | ->]).
  - vm_compute in Hrun. discriminate Hrun.
  - exact Hrun.
Defined.

(** C6 as stated fails when the pre-filter short-circuits: with the bot
    type "unknown" and a message that begins with the command prefix, the
    reply of the pre-filter is sent as Text and no error is returned. *)
Lemma unsupported_type_behind_prefilter :
  let W := examples.world [] (inr 200) examples.all_accepted in
  let cfg := examples.cfg_of "unknown" EmptyString in
  BotType (Dify cfg) <> "chat" /\ BotType (Dify cfg) <> "completion"
  /\ BotType (Dify cfg) <> "workflow"
  /\ ConvertAndSend W cfg "/image cat" "u1" EmptyString EmptyString []
     = (Ret None, [EvSendText "抱歉，图片生成功能暂未实现。"]).
Proof.
  intros W cfg. repeat split; try discriminate.
Qed.

(** C8. In [ConvertAndSend], the pre-filter not short-circuiting: an empty
    message with a default prompt configured is replaced by the default
    prompt, which is what goes to the backend call and from there to the
    formatter; an empty message with no default prompt and no attachment
    path fails at once with an error, before any backend call or send. *)
Theorem empty_message_handling
        (W : World) (cfg : AppConfig) (user conversationID filePath : string)
        (tr : Trace) :
  preprocessMessage EmptyString = (EmptyString, false, None)
  /\ (DefaultPrompt (Dify cfg) <> EmptyString ->
      ConvertAndSend W cfg EmptyString user conversationID filePath tr
      = call_and_deliver W cfg (DefaultPrompt (Dify cfg)) user conversationID filePath tr)
  /\ (DefaultPrompt (Dify cfg) = EmptyString ->
      filePath = EmptyString ->
      ConvertAndSend W cfg EmptyString user conversationID filePath tr
      = (Ret (Some (Errorf "message content or file path cannot be empty" [] None)), tr)).
Proof.
  split; [reflexivity |]. split.
  - intros Hprompt. unfold ConvertAndSend. simpl.
    destruct (DefaultPrompt (Dify cfg)) as [| c s] eqn:Hp; [congruence |].
    reflexivity.
  - intros Hprompt ->. unfold ConvertAndSend. simpl. by rewrite Hprompt.
Qed.

Lemma empty_message_handling_witness :
  let ok body := inr (mkResponse 200 (inr body)) : Error + HttpResponse in
  let W := examples.world [ok examples.hello_body] (inr 200) examples.all_accepted in
  let cfg := examples.cfg_of "chat" "daily report" in
  let req := request_of cfg "POST" difyChatMessagesPath
                        (examples.chat_json "u1" "daily report" EmptyString)
                        "application/json" in
  DefaultPrompt (Dify cfg) <> EmptyString
  /\ ConvertAndSend W cfg EmptyString "u1" EmptyString EmptyString []
     = (Ret None, [EvDo req; EvSendText "hi there"])
  /\ ConvertAndSend W examples.chat_cfg EmptyString "u1" EmptyString EmptyString []
     = (Ret (Some (Errorf "message content or file path cannot be empty" [] None)), []).
Proof.
  intros ok W cfg req.
  assert (Hp : DefaultPrompt (Dify cfg) <> EmptyString) by discriminate.
  split; [exact Hp |]. split.
  - destruct (empty_message_handling W cfg "u1" EmptyString EmptyString [])
      as (_ & Hsubst & _).
    rewrite (Hsubst Hp). reflexivity.
  - destruct (empty_message_handling W examples.chat_cfg "u1" EmptyString EmptyString [])
      as (_ & _ & Hfail).
    exact (Hfail eq_refl eq_refl).
Defined.

End service_facts.

(* ===================================================================== *)
(** * The conversation store: histories, commutation, deletion            *)
(* ===================================================================== *)

Module store_history_facts.
Import store store_history.

Lemma step_entry (s : InMemoryConversationStore) (c : Call) (u : string) :
  store_map (step s c) !! u = default (store_map s !! u) (effect_on u c).
Proof.
  destruct c as [v | v id | v fresh | v]; simpl.
  - reflexivity.
  - case_bool_decide as Hv.
    + subst v. apply lookup_insert_eq.
    + by apply lookup_insert_ne.
  - case_bool_decide as Hv.
    + subst v. apply lookup_insert_eq.
    + by apply lookup_insert_ne.
  - case_bool_decide as Hv.
    + subst v. apply lookup_delete_eq.
    + by apply lookup_delete_ne.
Qed.

Lemma run_entry (cs : list Call) (s : InMemoryConversationStore) (u : string) :
  store_map (run s cs) !! u = last_effect u cs (store_map s !! u).
Proof.
  revert s. induction cs as [| c cs IH]; intros s; [reflexivity |].
  unfold run, last_effect in *. simpl. rewrite IH. by rewrite step_entry.
Qed.

(** X1. After any sequence of calls, the entry of a user, and so what a get
    for that user returns, is decided by the last save, generate or delete
    made for that user (by the entry before the calls when there is none):
    calls for other users and gets never matter. *)
Theorem entry_after_calls (cs : list Call) (s : InMemoryConversationStore) (u : string) :
  store_map (run s cs) !! u = last_effect u cs (store_map s !! u)
  /\ GetConversationID (run s cs) u
     = match last_effect u cs (store_map s !! u) with
       | Some id => (id, true)
       | None => (EmptyString, false)
       end.
Proof.
  pose proof (run_entry cs s u) as H.
  split; [exact H |]. unfold GetConversationID. by rewrite H.
Qed.

Lemma store_ext (s1 s2 : InMemoryConversationStore) :
  (forall u, store_map s1 !! u = store_map s2 !! u) -> s1 = s2.
Proof.
  destruct s1 as [m1], s2 as [m2]. simpl. intros H. f_equal. by apply map_eq.
Qed.

(** X2. Calls made for different users commute: either order leaves the same
    store. *)
Theorem calls_for_distinct_users_commute
        (s : InMemoryConversationStore) (c1 c2 : Call) :
  user_of c1 <> user_of c2 ->
  run s [c1; c2] = run s [c2; c1].
Proof.
  intros Hne. apply store_ext. intros u.
  rewrite (run_entry [c1; c2] s u), (run_entry [c2; c1] s u).
  unfold last_effect. simpl.
  assert (H : effect_on u c1 = None \/ effect_on u c2 = None).
  { destruct (decide (user_of c1 = u)) as [H1 | H1].
    - right. destruct c2 as [v | v id | v fresh | v]; simpl in *; try reflexivity;
        rewrite bool_decide_eq_false_2; congruence.
    - left. destruct c1 as [v | v id | v fresh | v]; simpl in *; try reflexivity;
        rewrite bool_decide_eq_false_2; congruence. }
  destruct H as [-> | ->]; reflexivity.
Qed.

Lemma calls_for_distinct_users_commute_witness :
  user_of (CSave "alice" "c-1") <> user_of (CDelete "bob")
  /\ run (SaveConversationID NewInMemoryConversationStore "bob" "c-9")
         [CSave "alice" "c-1"; CDelete "bob"]
     = run (SaveConversationID NewInMemoryConversationStore "bob" "c-9")
           [CDelete "bob"; CSave "alice" "c-1"].
Proof.
  assert (H : user_of (CSave "alice" "c-1") <> user_of (CDelete "bob")) by discriminate.
  split; [exact H |].
  exact (calls_for_distinct_users_commute _ _ _ H).
Defined.

(** X3. A fresh store has no entry; deleting a user without an entry leaves the
    store as it is; deleting twice is deleting once; and a delete undoes a
    save or a generate for a user that had no entry. *)
Theorem delete_is_idempotent (s : InMemoryConversationStore) (u id fresh : string) :
  GetConversationID NewInMemoryConversationStore u = (EmptyString, false)
  /\ (store_map s !! u = None -> DeleteConversationID s u = s)
  /\ DeleteConversationID (DeleteConversationID s u) u = DeleteConversationID s u
  /\ (store_map s !! u = None ->
      DeleteConversationID (SaveConversationID s u id) u = s
      /\ DeleteConversationID (snd (NewConversationID fresh s u)) u = s).
Proof.
  split; [reflexivity |]. split; [| split].
  - intros H. destruct s as [m]. unfold DeleteConversationID. simpl in *.
    f_equal. by apply delete_id.
  - unfold DeleteConversationID. simpl. f_equal. apply delete_delete_eq.
  - intros H. destruct s as [m].
    unfold DeleteConversationID, SaveConversationID, NewConversationID. simpl in *.
    split; f_equal; by apply delete_insert_id.
Qed.

Lemma delete_is_idempotent_witness :
  store_map (SaveConversationID NewInMemoryConversationStore "bob" "c-9") !! "alice" = None
  /\ DeleteConversationID
       (SaveConversationID NewInMemoryConversationStore "bob" "c-9") "alice"
     = SaveConversationID NewInMemoryConversationStore "bob" "c-9"
  /\ DeleteConversationID
       (SaveConversationID
          (SaveConversationID NewInMemoryConversationStore "bob" "c-9") "alice" "c-1")
       "alice"
     = SaveConversationID NewInMemoryConversationStore "bob" "c-9".
Proof.
  assert (H : store_map (SaveConversationID NewInMemoryConversationStore "bob" "c-9")
              !! "alice" = None) by reflexivity.
  destruct (delete_is_idempotent
              (SaveConversationID NewInMemoryConversationStore "bob" "c-9")
              "alice" "c-1" "f-1") as (_ & Habsent & _ & Hundo).
  split; [exact H |]. split; [exact (Habsent H) |].
  exact (proj1 (Hundo H)).
Defined.

End store_history_facts.

(* ===================================================================== *)
(** * The pipeline: what its stages emit                                  *)
(* ===================================================================== *)

Module pipeline_facts.
Import gostring config service spec pipeline_spec.
Import gostring_facts trace_facts formatter_facts service_facts.

Lemma emits_ret {A} (q : Event -> Prop) (a : A) : emits q (ret a).
Proof. intros tr. exists (Ret a), []. by rewrite app_nil_r. Qed.

Lemma emits_panic {A} (q : Event -> Prop) : emits q (@panic A).
Proof. intros tr. exists Panic, []. by rewrite app_nil_r. Qed.

Lemma emits_call {A} (q : Event -> Prop) (e : Event) (answer : Trace -> A) :
  q e -> emits q (call e answer).
Proof. intros He tr. exists (Ret (answer tr)), [e]. split; [reflexivity |]. by constructor. Qed.

Lemma emits_bind {A B} (q : Event -> Prop) (m : M A) (k : A -> M B) :
  emits q m -> (forall a, emits q (k a)) -> emits q (bind m k).
Proof.
  intros Hm Hk tr. destruct (Hm tr) as (r & added & Heq & Hq).
  unfold bind. rewrite Heq. destruct r as [a |].
  - destruct (Hk a (tr ++ added)) as (r' & added' & Heq' & Hq').
    exists r', (added ++ added'). rewrite Heq', app_assoc.
    split; [reflexivity |]. by apply Forall_app.
  - by exists Panic, added.
Qed.

Lemma emits_weaken {A} (q q' : Event -> Prop) (m : M A) :
  (forall e, q e -> q' e) -> emits q m -> emits q' m.
Proof.
  intros Hqq Hm tr. destruct (Hm tr) as (r & added & Heq & Hq).
  exists r, added. split; [exact Heq |].
  by apply (Forall_impl _ _ _ Hq).
Qed.

Lemma emits_deferring {A} (q : Event -> Prop) (path : string) (body : M A) :
  q (EvRemove path) -> emits q body -> emits q (deferring (Remove path) body).
Proof.
  intros Hr Hb tr. destruct (Hb tr) as (r & added & Heq & Hq).
  rewrite deferring_remove, Heq. simpl.
  exists r, (added ++ [EvRemove path]). rewrite app_assoc.
  split; [reflexivity |]. apply Forall_app. split; [exact Hq |]. by constructor.
Qed.

Ltac emit :=
  repeat first
    [ apply emits_ret
    | apply emits_panic
    | apply emits_call; first [exact I | reflexivity | by simpl; auto]
    | apply emits_bind; [| intros ?]
    | match goal with
      | |- emits _ (match ?x with _ => _ end) => destruct x
      | |- emits _ (if ?b then _ else _) => destruct b
      end ].

Lemma attempts_emits (W : World) (req : HttpRequest) (n : nat) :
  forall (i : Z) (st : option HttpResponse * option Error),
    emits (attempt_of req) (attempts W req n i st).
Proof.
  induction n as [| n IH]; intros i st; simpl.
  - apply emits_ret.
  - apply emits_bind; [by apply emits_call |]. intros [err | resp]; [| apply emits_ret].
    apply emits_bind; [| intros _; apply IH].
    destruct (i <? maxRetries - 1); [by apply emits_call | apply emits_ret].
Qed.

(** Every attempt of one call of [doDifyRequest] is a call on the one
    request built before the loop. *)
Lemma doDifyRequest_emits {A} (W : World) (cfg : AppConfig)
      (method path body contentType logPrefix : string)
      (responseStruct : option (string -> Error + A)) (dst : A) :
  emits (attempt_of (request_of cfg method path body contentType))
        (doDifyRequest W cfg method path body contentType logPrefix responseStruct dst).
Proof.
  unfold doDifyRequest. rewrite fullURL_append.
  destruct (http_NewRequest W method _); [apply emits_ret |].
  apply emits_bind; [apply attempts_emits |].
  intros [[resp |] [err |]]; emit.
Qed.

Lemma attempt_of_backend (req : HttpRequest) (e : Event) :
  attempt_of req e -> is_backend_event e.
Proof. by destruct e. Qed.

Lemma attempt_of_at (req : HttpRequest) (urls : list string) (e : Event) :
  In (URL req) urls -> attempt_of req e -> attempt_at urls e.
Proof. intros Hin. destruct e; simpl; try done. by intros ->. Qed.

(** The events of a backend operation are attempts at its endpoint. *)
Lemma CallDifyChatAPI_emits (W : World) (cfg : AppConfig) (request : DifyChatRequest) :
  emits (fun e => is_backend_event e
                  /\ attempt_at [BaseURL (Dify cfg) +:+ difyChatMessagesPath] e)
        (CallDifyChatAPI W cfg request).
Proof.
  unfold CallDifyChatAPI. destruct (not_configured cfg); [apply emits_ret |].
  destruct (json_Marshal_chat W _) as [e | jsonData]; [apply emits_ret |].
  apply emits_bind.
  - eapply emits_weaken; [| apply doDifyRequest_emits].
    intros e He. split; [by eapply attempt_of_backend |].
    eapply attempt_of_at; [| exact He]. by left.
  - intros [[e |] response]; emit.
Qed.

Lemma CallDifyCompletionAPI_emits (W : World) (cfg : AppConfig)
      (request : DifyCompletionRequest) :
  emits (fun e => is_backend_event e
                  /\ attempt_at [BaseURL (Dify cfg) +:+ difyCompletionMessagesPath] e)
        (CallDifyCompletionAPI W cfg request).
Proof.
  unfold CallDifyCompletionAPI. destruct (not_configured cfg); [apply emits_ret |].
  destruct (json_Marshal_completion W _) as [e | jsonData]; [apply emits_ret |].
  apply emits_bind.
  - eapply emits_weaken; [| apply doDifyRequest_emits].
    intros e He. split; [by eapply attempt_of_backend |].
    eapply attempt_of_at; [| exact He]. by left.
  - intros [[e |] response]; emit.
Qed.

Lemma CallDifyWorkflowAPI_emits (W : World) (cfg : AppConfig)
      (request : DifyWorkflowRequest) :
  emits (fun e => is_backend_event e
                  /\ attempt_at [BaseURL (Dify cfg) +:+ difyWorkflowRunPath] e)
        (CallDifyWorkflowAPI W cfg request).
Proof.
  unfold CallDifyWorkflowAPI. destruct (not_configured cfg); [apply emits_ret |].
  destruct (json_Marshal_workflow W _) as [e | jsonData]; [apply emits_ret |].
  apply emits_bind.
  - eapply emits_weaken; [| apply doDifyRequest_emits].
    intros e He. split; [by eapply attempt_of_backend |].
    eapply attempt_of_at; [| exact He]. by left.
  - intros [[e |] response]; emit.
Qed.

Lemma UploadFile_emits (W : World) (cfg : AppConfig) (filePath user : string) :
  emits (fun e => is_backend_event e
                  /\ attempt_at [BaseURL (Dify cfg) +:+ difyFileUploadPath] e)
        (UploadFile W cfg filePath user).
Proof.
  unfold UploadFile. destruct (not_configured cfg); [apply emits_ret |].
  apply emits_bind; [by apply emits_call |]. intros [e |]; [apply emits_ret |].
  destruct (multipart_CreateFormFile W _); [apply emits_ret |].
  apply emits_bind; [by apply emits_call |]. intros [e | content]; [apply emits_ret |].
  destruct (multipart_WriteField W _ _); [apply emits_ret |].
  apply emits_bind.
  - eapply emits_weaken; [| apply doDifyRequest_emits].
    intros e He. split; [by eapply attempt_of_backend |].
    eapply attempt_of_at; [| exact He]. by left.
  - intros [[e |] response]; emit.
Qed.

Lemma emits_and {A} (p q : Event -> Prop) (m : M A) :
  emits p m -> emits q m -> emits (fun e => p e /\ q e) m.
Proof.
  intros Hp Hq tr. destruct (Hp tr) as (r & added & Heq & Hpa).
  destruct (Hq tr) as (r' & added' & Heq' & Hqa).
  rewrite Heq in Heq'. injection Heq' as <- Happ. apply app_inv_head in Happ as <-.
  exists r, added. split; [exact Heq |].
  apply Forall_forall. intros e He. split.
  - by apply (proj1 (Forall_forall p added) Hpa).
  - by apply (proj1 (Forall_forall q added) Hqa).
Qed.

Lemma attempt_at_more (urls urls' : list string) (e : Event) :
  (forall u, In u urls -> In u urls') -> attempt_at urls e -> attempt_at urls' e.
Proof. intros H. destruct e; simpl; auto. Qed.

Lemma call_chat_emits (W : World) (cfg : AppConfig)
      (message user conversationID filePath : string) :
  emits (fun e => is_backend_event e
                  /\ attempt_at ((if is_empty filePath then []
                                  else [BaseURL (Dify cfg) +:+ difyFileUploadPath])
                                 ++ [BaseURL (Dify cfg) +:+ difyChatMessagesPath]) e)
        (call_chat W cfg message user conversationID filePath).
Proof.
  unfold call_chat. apply emits_bind.
  - destruct (is_empty filePath); simpl; [apply emits_ret |].
    apply emits_bind.
    + eapply emits_weaken; [| apply UploadFile_emits].
      intros e [Hb Ha]. split; [exact Hb |].
      eapply attempt_at_more; [| exact Ha]. intros u [<- | []]. by left.
    + intros [uploadResp [e |]]; [apply emits_ret |].
      destruct (uploadResp !! "id") as [[ | | | fileID | | ] |]; apply emits_ret.
  - intros [difyErr | files]; [apply emits_ret |].
    apply emits_bind.
    + eapply emits_weaken; [| apply CallDifyChatAPI_emits].
      intros e [Hb Ha]. split; [exact Hb |].
      eapply attempt_at_more; [| exact Ha]. intros u [<- | []].
      apply in_or_app. right. by left.
    + intros [resp [e |]]; apply emits_ret.
Qed.

Lemma call_backend_emits (W : World) (cfg : AppConfig)
      (message user conversationID filePath : string) :
  emits (fun e => is_backend_event e /\ attempt_at (endpoints cfg filePath) e)
        (call_backend W cfg message user conversationID filePath).
Proof.
  unfold call_backend, endpoints.
  destruct (String.eqb (BotType (Dify cfg)) "chat"); [apply call_chat_emits |].
  destruct (String.eqb (BotType (Dify cfg)) "completion").
  { unfold call_completion. apply emits_bind; [apply CallDifyCompletionAPI_emits |].
    intros [resp [e |]]; apply emits_ret. }
  destruct (String.eqb (BotType (Dify cfg)) "workflow"); [| apply emits_ret].
  unfold call_workflow. apply emits_bind; [apply CallDifyWorkflowAPI_emits |].
  intros [resp [e |]]; [apply emits_ret |].
  destruct (json_MarshalIndent W (Data resp)); apply emits_ret.
Qed.

Lemma DownloadFile_emits (W : World) (url path : string) :
  emits is_delivery_event (DownloadFile W url path).
Proof. unfold DownloadFile. emit. Qed.

Lemma postprocess_emits (W : World) (cfg : AppConfig) (payload : string) :
  emits is_delivery_event (postprocessDifyResponse W cfg payload).
Proof.
  rewrite postprocess_by_shape.
  destruct (decide_shape _ _) as [url | url | content | |].
  - unfold send_image. apply emits_bind; [by apply emits_call |].
    intros [e | path]; [by apply emits_call |].
    apply emits_bind; [apply DownloadFile_emits |].
    intros [e |].
    + apply emits_bind; [by apply emits_call |]. intros _. by apply emits_call.
    + apply emits_deferring; [exact I |].
      apply emits_bind; [by apply emits_call |].
      intros [e |]; [by apply emits_call | apply emits_ret].
  - unfold send_file. apply emits_bind; [by apply emits_call |].
    intros [e | path]; [by apply emits_call |].
    apply emits_bind; [apply DownloadFile_emits |].
    intros [e |].
    + apply emits_bind; [by apply emits_call |]. intros _. by apply emits_call.
    + apply emits_deferring; [exact I |].
      apply emits_bind; [by apply emits_call |].
      intros [e |]; [by apply emits_call | apply emits_ret].
  - by apply emits_call.
  - by apply emits_call.
  - unfold send_plain. destruct (_ <? _).
    + destruct (slice_to _ _ _ _); [by apply emits_call | apply emits_panic].
    + by apply emits_call.
Qed.

(** The events of [doDifyRequest]: none, or [k < 3] failed attempts with
    their sleeps and a last attempt; it returns (it does not panic). *)
Lemma doDifyRequest_shape {A} (W : World) (cfg : AppConfig)
      (method path body contentType logPrefix : string)
      (responseStruct : option (string -> Error + A)) (dst : A) (tr : Trace) :
  let req := request_of cfg method path body contentType in
  exists res added,
    doDifyRequest W cfg method path body contentType logPrefix responseStruct dst tr
    = (Ret res, tr ++ added)
    /\ match http_NewRequest W method (BaseURL (Dify cfg) +:+ path) with
       | Some _ => added = []
       | None => exists k, (k < 3)%nat /\ added = backoff req k ++ [EvDo req]
       end.
Proof.
  intros req.
  destruct (http_NewRequest W method (BaseURL (Dify cfg) +:+ path)) as [err |] eqn:Hnew.
  { eexists _, []. rewrite app_nil_r.
    split; [by apply doDifyRequest_no_request | reflexivity]. }
  pose proof (attempts_unfold W req tr) as H.
  destruct (http_Do W tr req) as [e0 | resp].
  2:{ destruct (doDifyRequest_response W cfg _ _ _ _ logPrefix responseStruct dst
                                       _ _ _ Hnew H) as [res Hres].
      exists res, (backoff req 0 ++ [EvDo req]). split; [exact Hres |].
      exists 0%nat. split; [lia | reflexivity]. }
  destruct (http_Do W (tr ++ backoff req 1) req) as [e1 | resp].
  2:{ destruct (doDifyRequest_response W cfg _ _ _ _ logPrefix responseStruct dst
                                       _ _ _ Hnew H) as [res Hres].
      exists res, (backoff req 1 ++ [EvDo req]). split; [exact Hres |].
      exists 1%nat. split; [lia | reflexivity]. }
  destruct (http_Do W (tr ++ backoff req 2) req) as [e2 | resp].
  - eexists _, (backoff req 2 ++ [EvDo req]).
    rewrite (doDifyRequest_loop W cfg _ _ _ _ _ _ _ _ _ _ Hnew H).
    split; [reflexivity |]. exists 2%nat. split; [lia | reflexivity].
  - destruct (doDifyRequest_response W cfg _ _ _ _ logPrefix responseStruct dst
                                     _ _ _ Hnew H) as [res Hres].
    exists res, (backoff req 2 ++ [EvDo req]). split; [exact Hres |].
    exists 2%nat. split; [lia | reflexivity].
Qed.

Lemma backoff_cases (req : HttpRequest) (k : nat) :
  (k < 3)%nat ->
  backoff req k = []
  \/ backoff req k = [EvDo req; EvSleep 1]
  \/ backoff req k = [EvDo req; EvSleep 1; EvDo req; EvSleep 2].
Proof.
  intros Hk. destruct k as [| [| [| k]]]; [by left | by right; left | by right; right | lia].
Qed.

Lemma attempt_of_same_call (req : HttpRequest) (e : Event) :
  attempt_of req e -> same_call req e.
Proof. destruct e; simpl; try done. by intros ->. Qed.

(** X4. Retry budget of one call: [doDifyRequest] always returns; it calls
    the client at most 3 times, every time on the request built once
    before the loop (the same method, URL, content type and
    authorization), the first time with the whole body; it sleeps at most
    3 seconds in all, and never after its last attempt: the call ends with
    an attempt whenever it made one.  Nothing is said of the body that a
    retry transmits. *)
Theorem retry_budget {A} (W : World) (cfg : AppConfig)
        (method path body contentType logPrefix : string)
        (responseStruct : option (string -> Error + A)) (dst : A) (tr : Trace) :
  let req := request_of cfg method path body contentType in
  exists res added,
    doDifyRequest W cfg method path body contentType logPrefix responseStruct dst tr
    = (Ret res, tr ++ added)
    /\ Forall (same_call req) added
    /\ (do_count added <= 3)%nat
    /\ 0 <= total_sleep added <= 3
    /\ (added = []
        \/ (exists rest, added = EvDo req :: rest)
           /\ exists r, last added = Some (EvDo r)).
Proof.
  intros req.
  destruct (doDifyRequest_shape W cfg method path body contentType logPrefix
                                responseStruct dst tr) as (res & added & Heq & Hshape).
  exists res, added. split; [exact Heq |].
  destruct (http_NewRequest W method _).
  { subst added. unfold do_count, total_sleep. simpl.
    repeat split; try (by left); try constructor; lia. }
  destruct Hshape as (k & Hk & ->). fold req. unfold do_count, total_sleep.
  assert (Hsame : same_call req (EvDo req)) by (by apply attempt_of_same_call).
  destruct (backoff_cases req k Hk) as [-> | [-> | ->]];
    (split; [repeat (apply Forall_cons_2; [first [exact Hsame | exact I] |]);
             constructor |]);
    (split; [simpl; lia |]); (split; [simpl; lia |]);
    right; (split; [by eexists | by exists req]).
Qed.

Lemma within_ret {A} (n : nat) (a : A) : within n (ret a).
Proof. intros tr. exists (Ret a), []. rewrite app_nil_r. split; [reflexivity | simpl; lia]. Qed.

Lemma within_bind {A B} (a b : nat) (m : M A) (k : A -> M B) :
  within a m -> (forall x, within b (k x)) -> within (a + b) (bind m k).
Proof.
  intros Hm Hk tr. destruct (Hm tr) as (r & added & Heq & Hn).
  unfold bind. rewrite Heq. destruct r as [x |].
  - destruct (Hk x (tr ++ added)) as (r' & added' & Heq' & Hn').
    exists r', (added ++ added'). rewrite Heq', app_assoc.
    split; [reflexivity |]. rewrite List.filter_app, List.length_app. lia.
  - exists Panic, added. split; [reflexivity | lia].
Qed.

Lemma within_weaken {A} (n n' : nat) (m : M A) :
  (n <= n')%nat -> within n m -> within n' m.
Proof.
  intros Hle Hm tr. destruct (Hm tr) as (r & added & Heq & Hn).
  exists r, added. split; [exact Heq | lia].
Qed.

Lemma filter_do_nil (q : Event -> Prop) (l : Trace) :
  (forall e, q e -> is_do e = false) -> Forall q l -> List.filter is_do l = [].
Proof.
  intros Hq. induction l as [| e l IH]; intros Hl; [reflexivity |].
  apply Forall_cons in Hl as [He Hl]. simpl. rewrite (Hq e He). by apply IH.
Qed.

Lemma no_do_within {A} (q : Event -> Prop) (m : M A) :
  (forall e, q e -> is_do e = false) -> emits q m -> within 0 m.
Proof.
  intros Hq Hm tr. destruct (Hm tr) as (r & added & Heq & Hadded).
  exists r, added. split; [exact Heq |].
  rewrite (filter_do_nil q added Hq Hadded). simpl. lia.
Qed.

Lemma doDifyRequest_within {A} (W : World) (cfg : AppConfig)
      (method path body contentType logPrefix : string)
      (responseStruct : option (string -> Error + A)) (dst : A) :
  within 3 (doDifyRequest W cfg method path body contentType logPrefix responseStruct dst).
Proof.
  intros tr.
  destruct (doDifyRequest_shape W cfg method path body contentType logPrefix
                                responseStruct dst tr) as (res & added & Heq & Hshape).
  exists (Ret res), added. split; [exact Heq |].
  destruct (http_NewRequest W method _); [subst added; simpl; lia |].
  destruct Hshape as (k & Hk & ->). rewrite attempts_of_backoff. lia.
Qed.

Lemma CallDifyChatAPI_within (W : World) (cfg : AppConfig) (request : DifyChatRequest) :
  within 3 (CallDifyChatAPI W cfg request).
Proof.
  unfold CallDifyChatAPI. destruct (not_configured cfg); [apply within_ret |].
  destruct (json_Marshal_chat W _); [apply within_ret |].
  apply (within_bind 3 0); [apply doDifyRequest_within |].
  intros [[e |] response]; [apply within_ret |].
  destruct (is_empty _); apply within_ret.
Qed.

Lemma CallDifyCompletionAPI_within (W : World) (cfg : AppConfig)
      (request : DifyCompletionRequest) :
  within 3 (CallDifyCompletionAPI W cfg request).
Proof.
  unfold CallDifyCompletionAPI. destruct (not_configured cfg); [apply within_ret |].
  destruct (json_Marshal_completion W _); [apply within_ret |].
  apply (within_bind 3 0); [apply doDifyRequest_within |].
  intros [[e |] response]; [apply within_ret |].
  destruct (is_empty _); apply within_ret.
Qed.

Lemma CallDifyWorkflowAPI_within (W : World) (cfg : AppConfig)
      (request : DifyWorkflowRequest) :
  within 3 (CallDifyWorkflowAPI W cfg request).
Proof.
  unfold CallDifyWorkflowAPI. destruct (not_configured cfg); [apply within_ret |].
  destruct (json_Marshal_workflow W _); [apply within_ret |].
  apply (within_bind 3 0); [apply doDifyRequest_within |].
  intros [[e |] response]; [apply within_ret |].
  destruct (Data _); apply within_ret.
Qed.

Lemma within_call {A} (e : Event) (answer : Trace -> A) :
  is_do e = false -> within 0 (call e answer).
Proof.
  intros He tr. exists (Ret (answer tr)), [e]. split; [reflexivity |].
  simpl. rewrite He. simpl. lia.
Qed.

Lemma UploadFile_within (W : World) (cfg : AppConfig) (filePath user : string) :
  within 3 (UploadFile W cfg filePath user).
Proof.
  unfold UploadFile. destruct (not_configured cfg); [apply within_ret |].
  apply (within_bind 0 3); [by apply within_call |]. intros [e |]; [apply within_ret |].
  destruct (multipart_CreateFormFile W _); [apply within_ret |].
  apply (within_bind 0 3); [by apply within_call |].
  intros [e | content]; [apply within_ret |].
  destruct (multipart_WriteField W _ _); [apply within_ret |].
  apply (within_bind 3 0); [apply doDifyRequest_within |].
  intros [[e |] response]; apply within_ret.
Qed.

Lemma call_backend_within (W : World) (cfg : AppConfig)
      (message user conversationID filePath : string) :
  within (3 * List.length (endpoints cfg filePath))
         (call_backend W cfg message user conversationID filePath).
Proof.
  unfold call_backend, endpoints.
  destruct (String.eqb (BotType (Dify cfg)) "chat").
  { unfold call_chat. destruct (is_empty filePath); simpl.
    - apply (within_bind 0 3); [apply within_ret |].
      intros [difyErr | files]; [apply within_ret |].
      apply (within_bind 3 0); [apply CallDifyChatAPI_within |].
      intros [resp [e |]]; apply within_ret.
    - apply (within_bind 3 3).
      + apply (within_bind 3 0); [apply UploadFile_within |].
        intros [uploadResp [e |]]; [apply within_ret |].
        destruct (uploadResp !! "id") as [[ | | | fileID | | ] |]; apply within_ret.
      + intros [difyErr | files]; [apply within_ret |].
        apply (within_bind 3 0); [apply CallDifyChatAPI_within |].
        intros [resp [e |]]; apply within_ret. }
  destruct (String.eqb (BotType (Dify cfg)) "completion").
  { unfold call_completion. apply (within_bind 3 0); [apply CallDifyCompletionAPI_within |].
    intros [resp [e |]]; apply within_ret. }
  destruct (String.eqb (BotType (Dify cfg)) "workflow"); [| apply within_ret].
  unfold call_workflow. apply (within_bind 3 0); [apply CallDifyWorkflowAPI_within |].
  intros [resp [e |]]; [apply within_ret |].
  destruct (json_MarshalIndent W (Data resp)); apply within_ret.
Qed.



(** [ConvertAndSend] in two stages: the backend stage, then the delivery
    stage, each with the events it may add. *)
Lemma ConvertAndSend_stages (W : World) (cfg : AppConfig)
      (message user conversationID filePath : string) (tr : Trace) :
  exists r backend delivery,
    ConvertAndSend W cfg message user conversationID filePath tr
    = (r, tr ++ backend ++ delivery)
    /\ Forall (fun e => is_backend_event e /\ attempt_at (endpoints cfg filePath) e) backend
    /\ (List.length (List.filter is_do backend) <= 3 * List.length (endpoints cfg filePath))%nat
    /\ Forall is_delivery_event delivery.
Proof.
  unfold ConvertAndSend, preprocessMessage.
  destruct (HasPrefix message "/image ").
  { eexists _, (@nil Event), [EvSendText _]. simpl. split; [reflexivity |].
    split; [constructor |]. split; [lia |]. by repeat constructor. }
  destruct (is_empty _ && is_empty filePath).
  { eexists _, (@nil Event), (@nil Event). simpl. rewrite app_nil_r.
    split; [reflexivity |].
    split; [constructor |]. split; [lia | constructor]. }
  match goal with
  | |- context [call_and_deliver W cfg ?m _ _ _] => set (msg := m)
  end.
  unfold call_and_deliver.
  destruct (call_backend_emits W cfg msg user conversationID filePath tr)
    as (rb & backend & Hb & Hbackend).
  destruct (call_backend_within W cfg msg user conversationID filePath tr)
    as (rb' & backend' & Hb' & Hcount).
  rewrite Hb in Hb'. injection Hb' as <- Happ. apply app_inv_head in Happ as <-.
  unfold bind. rewrite Hb.
  destruct rb as [[difyResponse [e |]] |].
  - exists (Ret (Some (Errorf "failed to call Dify API: %w" [] (Some e)))), backend,
           (@nil Event).
    rewrite app_nil_r. split; [reflexivity |]. split; [exact Hbackend |].
    split; [exact Hcount | constructor].
  - destruct (postprocess_emits W cfg difyResponse (tr ++ backend))
      as (rp & delivery & Hp & Hdelivery).
    rewrite Hp, <- app_assoc.
    destruct rp as [[e |] |]; eexists _, backend, delivery;
      (split; [reflexivity |]); (split; [exact Hbackend |]); by split.
  - exists Panic, backend, (@nil Event). rewrite app_nil_r. split; [reflexivity |].
    split; [exact Hbackend |]. split; [exact Hcount | constructor].
Qed.

(** X5. The pipeline runs one way: in every run of [ConvertAndSend] the events
    at the AI backend (attempts, sleeps, reading the attachment) all come
    before the events of delivery (download into a scratch file, removal,
    sends); the backend is never addressed once delivery has begun. *)
Theorem pipeline_runs_one_way (W : World) (cfg : AppConfig)
        (message user conversationID filePath : string) (tr : Trace) :
  exists r backend delivery,
    ConvertAndSend W cfg message user conversationID filePath tr
    = (r, tr ++ backend ++ delivery)
    /\ Forall is_backend_event backend
    /\ Forall is_delivery_event delivery.
Proof.
  destruct (ConvertAndSend_stages W cfg message user conversationID filePath tr)
    as (r & backend & delivery & Heq & Hb & _ & Hd).
  exists r, backend, delivery. split; [exact Heq |]. split; [| exact Hd].
  apply (Forall_impl _ _ _ Hb). by intros e [He _].
Qed.

















Lemma last_send_single (W : World) (tr before : Trace) (e : Event) (after : Trace)
      (o : option Error) :
  is_send e = true -> sends after = [] ->
  robot_answer W (tr ++ before) e = o ->
  last_send_answered W tr (before ++ e :: after) o.
Proof. intros He Ha Ho. by exists before, e, after. Qed.

Lemma last_send_artifact (W : World) (tr : Trace) (pattern : string)
      (downloading mid : Trace) (e : Event) (after : Trace) (o : option Error) :
  is_send e = true -> sends after = [] ->
  robot_answer W (((tr ++ [EvCreateTemp pattern]) ++ downloading) ++ mid) e = o ->
  last_send_answered W tr ([EvCreateTemp pattern] ++ downloading ++ mid ++ e :: after) o.
Proof.
  intros He Ha Ho.
  exists ([EvCreateTemp pattern] ++ downloading ++ mid), e, after.
  split; [by rewrite <- !app_assoc |]. split; [exact He |]. split; [exact Ha |].
  rewrite <- Ho. f_equal. by rewrite <- !app_assoc.
Qed.

Lemma send_image_last_send (W : World) (url : string) (tr tr' : Trace) (o : option Error) :
  send_image W url tr = (Ret o, tr') ->
  exists added, tr' = tr ++ added /\ last_send_answered W tr added o.
Proof.
  pose proof (send_image_cases W url tr) as H. cbv zeta in H.
  set (pattern := "dify_image_*" +:+ _) in H.
  destruct (os_CreateTemp W tr pattern) as [e | path].
  { rewrite H. intros [= <- <-]. exists [EvCreateTemp pattern; EvSendText (image_download_failed url)].
    split; [by rewrite <- app_assoc |].
    by apply (last_send_single W tr [EvCreateTemp pattern] _ []). }
  destruct H as (d & downloading & _ & Hs & H).
  destruct d as [e |].
  { rewrite H. intros [= <- <-].
    exists ([EvCreateTemp pattern] ++ downloading ++ [EvRemove path]
              ++ [EvSendText (image_download_failed url)]).
    split; [by rewrite <- !app_assoc |].
    by apply (last_send_artifact W tr pattern downloading [EvRemove path] _ []). }
  destruct (robot_SendImageMessage W _ path) as [e |] eqn:Himg.
  - rewrite H. intros [= <- <-].
    exists ([EvCreateTemp pattern] ++ downloading ++ [EvSendImage path]
              ++ EvSendText (image_send_failed url) :: [EvRemove path]).
    split; [by rewrite <- !app_assoc |].
    by apply (last_send_artifact W tr pattern downloading [EvSendImage path]).
  - rewrite H. intros [= <- <-].
    exists ([EvCreateTemp pattern] ++ downloading ++ [] ++ EvSendImage path :: [EvRemove path]).
    split; [by rewrite <- !app_assoc |].
    apply (last_send_artifact W tr pattern downloading []); try reflexivity.
    simpl. by rewrite app_nil_r.
Qed.

Lemma send_file_last_send (W : World) (url : string) (tr tr' : Trace) (o : option Error) :
  send_file W url tr = (Ret o, tr') ->
  exists added, tr' = tr ++ added /\ last_send_answered W tr added o.
Proof.
  pose proof (send_file_cases W url tr) as H. cbv zeta in H.
  set (pattern := "dify_file_*" +:+ _) in H.
  destruct (os_CreateTemp W tr pattern) as [e | path].
  { rewrite H. intros [= <- <-]. exists [EvCreateTemp pattern; EvSendText (file_download_failed url)].
    split; [by rewrite <- app_assoc |].
    by apply (last_send_single W tr [EvCreateTemp pattern] _ []). }
  destruct H as (d & downloading & _ & Hs & H).
  destruct d as [e |].
  { rewrite H. intros [= <- <-].
    exists ([EvCreateTemp pattern] ++ downloading ++ [EvRemove path]
              ++ [EvSendText (file_download_failed url)]).
    split; [by rewrite <- !app_assoc |].
    by apply (last_send_artifact W tr pattern downloading [EvRemove path] _ []). }
  destruct (robot_SendFileMessage W _ path) as [e |] eqn:Hfile.
  - rewrite H. intros [= <- <-].
    exists ([EvCreateTemp pattern] ++ downloading ++ [EvSendFile path]
              ++ EvSendText (file_send_failed url) :: [EvRemove path]).
    split; [by rewrite <- !app_assoc |].
    by apply (last_send_artifact W tr pattern downloading [EvSendFile path]).
  - rewrite H. intros [= <- <-].
    exists ([EvCreateTemp pattern] ++ downloading ++ [] ++ EvSendFile path :: [EvRemove path]).
    split; [by rewrite <- !app_assoc |].
    apply (last_send_artifact W tr pattern downloading []); try reflexivity.
    simpl. by rewrite app_nil_r.
Qed.

Lemma postprocess_last_send (W : World) (cfg : AppConfig) (payload : string)
      (tr tr' : Trace) (o : option Error) :
  postprocessDifyResponse W cfg payload tr = (Ret o, tr') ->
  exists added, tr' = tr ++ added /\ last_send_answered W tr added o.
Proof.
  rewrite postprocess_by_shape.
  destruct (decide_shape _ _) as [url | url | content | |].
  - apply send_image_last_send.
  - apply send_file_last_send.
  - intros [= <- <-]. exists [EvSendMarkdown content]. split; [reflexivity |].
    apply (last_send_single W tr [] _ []); try reflexivity. by rewrite app_nil_r.
  - intros [= <- <-]. exists [EvSendText payload]. split; [reflexivity |].
    apply (last_send_single W tr [] _ []); try reflexivity. by rewrite app_nil_r.
  - unfold send_plain. destruct (_ <? _).
    + destruct (slice_to _ _ _ _) as [runes |]; [| discriminate].
      intros [= <- <-]. eexists. split; [reflexivity |].
      apply (last_send_single W tr [] _ []); try reflexivity. by rewrite app_nil_r.
    + intros [= <- <-]. exists [EvSendText payload]. split; [reflexivity |].
      apply (last_send_single W tr [] _ []); try reflexivity. by rewrite app_nil_r.
Qed.

(** X7. What the formatter returns is what the robot answered to the last
    message it sent: it returns nil exactly when that message was accepted,
    and an error of an earlier step (scratch file, download, image or file
    delivery) is never what it returns. *)
Theorem formatter_returns_the_last_answer
        (W : World) (cfg : AppConfig) (payload : string)
        (tr tr' : Trace) (o : option Error) :
  postprocessDifyResponse W cfg payload tr = (Ret o, tr') ->
  exists added, tr' = tr ++ added /\ last_send_answered W tr added o.
Proof. apply postprocess_last_send. Qed.

Lemma formatter_returns_the_last_answer_witness :
  let W := examples.world [] (inr 404) examples.all_accepted in
  postprocessDifyResponse W examples.chat_cfg examples.image_payload []
  = (Ret None,
     [EvCreateTemp "dify_image_*.png"; EvGet examples.image_url;
      EvRemove "/tmp/dify_image_*.png"]
       ++ [EvSendText (image_download_failed examples.image_url)])
  /\ exists added,
      [EvCreateTemp "dify_image_*.png"; EvGet examples.image_url;
       EvRemove "/tmp/dify_image_*.png"]
        ++ [EvSendText (image_download_failed examples.image_url)] = [] ++ added
      /\ last_send_answered W [] added None.
Proof.
  intros W.
  assert (H : postprocessDifyResponse W examples.chat_cfg examples.image_payload []
              = (Ret None,
                 [EvCreateTemp "dify_image_*.png"; EvGet examples.image_url;
                  EvRemove "/tmp/dify_image_*.png"]
                   ++ [EvSendText (image_download_failed examples.image_url)]))
    by reflexivity.
  split; [exact H |].
  exact (formatter_returns_the_last_answer W examples.chat_cfg examples.image_payload
           [] _ None H).
Defined.

Lemma call_and_deliver_unfold (W : World) (cfg : AppConfig)
      (message user conversationID filePath : string) (tr : Trace) :
  call_and_deliver W cfg message user conversationID filePath tr =
  match call_backend W cfg message user conversationID filePath tr with
  | (Ret (_, Some e), t) =>
      (Ret (Some (Errorf "failed to call Dify API: %w" [] (Some e))), t)
  | (Ret (difyResponse, None), t) =>
      match postprocessDifyResponse W cfg difyResponse t with
      | (Ret (Some e), t') =>
          (Ret (Some (Errorf "failed to post-process Dify response and send to wecom: %w"
                             [] (Some e))), t')
      | (Ret None, t') => (Ret None, t')
      | (Panic, t') => (Panic, t')
      end
  | (Panic, t) => (Panic, t)
  end.
Proof.
  unfold call_and_deliver. rewrite bind_unfold.
  destruct (call_backend _ _ _ _ _ _ tr) as [[[difyResponse [e |]] |] t]; try reflexivity.
  rewrite bind_unfold.
  destruct (postprocessDifyResponse _ _ _ t) as [[[e |] |] t']; reflexivity.
Qed.

Lemma ConvertAndSend_unfold (W : World) (cfg : AppConfig)
      (message user conversationID filePath : string) (tr : Trace) :
  ConvertAndSend W cfg message user conversationID filePath tr =
  if HasPrefix message "/image " then
    (Ret (robot_SendTextMessage W tr command_reply), tr ++ [EvSendText command_reply])
  else if is_empty (effective_message cfg message) && is_empty filePath then
    (Ret (Some (Errorf "message content or file path cannot be empty" [] None)), tr)
  else call_and_deliver W cfg (effective_message cfg message) user conversationID filePath tr.
Proof.
  unfold ConvertAndSend, preprocessMessage, effective_message.
  destruct (HasPrefix message "/image "); [reflexivity |].
  simpl. destruct (_ && is_empty filePath); reflexivity.
Qed.

Lemma backend_events_no_sends (l : Trace) :
  Forall is_backend_event l -> sends l = [].
Proof.
  induction l as [| e l IH]; intros H; [reflexivity |].
  apply Forall_cons in H as [He Hl]. unfold sends in *. simpl.
  destruct e; simpl in *; try done; by apply IH.
Qed.

(** X8. When [ConvertAndSend] returns nil, a message went out and the robot
    accepted the last one that was sent. *)
Theorem nil_means_delivered (W : World) (cfg : AppConfig)
        (message user conversationID filePath : string) (tr tr' : Trace) :
  ConvertAndSend W cfg message user conversationID filePath tr = (Ret None, tr') ->
  exists added, tr' = tr ++ added /\ last_send_answered W tr added None.
Proof.
  rewrite ConvertAndSend_unfold.
  destruct (HasPrefix message "/image ").
  { intros [= Hans <-]. exists [EvSendText command_reply]. split; [reflexivity |].
    apply (last_send_single W tr [] _ []); try reflexivity. by rewrite app_nil_r. }
  destruct (_ && _); [discriminate |].
  rewrite call_and_deliver_unfold.
  destruct (call_backend_emits W cfg (effective_message cfg message) user
                               conversationID filePath tr)
    as (rb & backend & Hb & Hbackend).
  rewrite Hb. destruct rb as [[difyResponse [e |]] |]; try discriminate.
  destruct (postprocessDifyResponse W cfg difyResponse (tr ++ backend))
    as [[[e |] |] t'] eqn:Hp; try discriminate.
  intros [= <-].
  destruct (postprocess_last_send W cfg difyResponse _ _ _ Hp)
    as (delivery & -> & before & e & after & -> & He & Hafter & Hans).
  exists (backend ++ before ++ e :: after). split; [by rewrite <- app_assoc |].
  exists (backend ++ before), e, after.
  split; [by rewrite <- app_assoc |]. split; [exact He |]. split; [exact Hafter |].
  by rewrite app_assoc.
Qed.

Lemma nil_means_delivered_witness :
  let ok body := inr (mkResponse 200 (inr body)) : Error + HttpResponse in
  let W := examples.world [ok examples.hello_body] (inr 200) examples.all_accepted in
  let req := request_of examples.chat_cfg "POST" difyChatMessagesPath
                        (examples.chat_json "u1" "hello" EmptyString) "application/json" in
  ConvertAndSend W examples.chat_cfg "hello" "u1" EmptyString EmptyString []
  = (Ret None, [EvDo req; EvSendText "hi there"])
  /\ exists added,
      [EvDo req; EvSendText "hi there"] = [] ++ added
      /\ last_send_answered W [] added None.
Proof.
  intros ok W req.
  assert (H : ConvertAndSend W examples.chat_cfg "hello" "u1" EmptyString EmptyString []
              = (Ret None, [EvDo req; EvSendText "hi there"])) by reflexivity.
  split; [exact H |].
  exact (nil_means_delivered W examples.chat_cfg "hello" "u1" EmptyString EmptyString
           [] _ H).
Defined.

(** X9. When the backend stage fails (the message is not a command of the
    pre-filter and the error returned is the one that wraps a backend
    failure), nothing was delivered: the run made backend events only, no
    download, no scratch file, no send. *)
Theorem backend_failure_sends_nothing (W : World) (cfg : AppConfig)
        (message user conversationID filePath : string) (tr tr' : Trace)
        (cause : option Error) :
  HasPrefix message "/image " = false ->
  ConvertAndSend W cfg message user conversationID filePath tr
  = (Ret (Some (Errorf "failed to call Dify API: %w" [] cause)), tr') ->
  exists added,
    tr' = tr ++ added /\ Forall is_backend_event added /\ sends added = [].
Proof.
  intros Hprefix. rewrite ConvertAndSend_unfold, Hprefix.
  destruct (_ && _); [discriminate |].
  rewrite call_and_deliver_unfold.
  destruct (call_backend_emits W cfg (effective_message cfg message) user
                               conversationID filePath tr)
    as (rb & backend & Hb & Hbackend).
  rewrite Hb. destruct rb as [[difyResponse [e |]] |]; try discriminate.
  - intros [= _ <-]. exists backend.
    assert (Hbe : Forall is_backend_event backend).
    { apply (Forall_impl _ _ _ Hbackend). by intros x [Hx _]. }
    split; [reflexivity |]. split; [exact Hbe |]. by apply backend_events_no_sends.
  - destruct (postprocessDifyResponse W cfg difyResponse (tr ++ backend))
      as [[[e |] |] t']; discriminate.
Qed.

Lemma backend_failure_sends_nothing_witness :
  let W := examples.world [] (inr 200) examples.all_accepted in
  let req := request_of examples.chat_cfg "POST" difyChatMessagesPath
                        (examples.chat_json "u1" "hello" EmptyString) "application/json" in
  let cause := Errorf "dify chat api call failed: %w" []
                 (Some (Errorf "%s 请求在 %d 次重试后仍然失败: %w"
                               [AStr "Chat API"; AInt 3] (Some examples.refused))) in
  HasPrefix "hello" "/image " = false
  /\ ConvertAndSend W examples.chat_cfg "hello" "u1" EmptyString EmptyString []
     = (Ret (Some (Errorf "failed to call Dify API: %w" [] (Some cause))),
        [EvDo req; EvSleep 1; EvDo req; EvSleep 2; EvDo req])
  /\ sends [EvDo req; EvSleep 1; EvDo req; EvSleep 2; EvDo req] = [].
Proof.
  intros W req cause.
  assert (H1 : HasPrefix "hello" "/image " = false) by reflexivity.
  assert (H2 : ConvertAndSend W examples.chat_cfg "hello" "u1" EmptyString EmptyString []
               = (Ret (Some (Errorf "failed to call Dify API: %w" [] (Some cause))),
                  [EvDo req; EvSleep 1; EvDo req; EvSleep 2; EvDo req]))
    by reflexivity.
  split; [exact H1 |]. split; [exact H2 |].
  destruct (backend_failure_sends_nothing W examples.chat_cfg "hello" "u1" EmptyString
              EmptyString [] _ _ H1 H2) as (added & Heq & _ & Hs).
  simpl in Heq. by rewrite Heq.
Defined.

(** X10. A command of the pre-filter never reaches the backend: for a message
    that begins with the command prefix, whatever the configuration, the
    bot type and the attachment, the run is one Text send of the fixed
    reply, and what it returns is the robot's answer to it, unwrapped. *)
Theorem commands_never_reach_the_backend (W : World) (cfg : AppConfig)
        (message user conversationID filePath : string) (tr : Trace) :
  HasPrefix message "/image " = true ->
  ConvertAndSend W cfg message user conversationID filePath tr
  = (Ret (robot_SendTextMessage W tr command_reply), tr ++ [EvSendText command_reply]).
Proof. intros H. by rewrite ConvertAndSend_unfold, H. Qed.

Lemma commands_never_reach_the_backend_witness :
  let W := examples.world [] (inr 200) (fun _ => false) in
  let cfg := mkAppConfig (mkDifyConfig EmptyString EmptyString "workflow" EmptyString
                                       EmptyString) in
  HasPrefix "/image a cat" "/image " = true
  /\ ConvertAndSend W cfg "/image a cat" "u1" "c-1" "/tmp/cat.png" []
     = (Ret (Some (External "wecom text message failed")), [EvSendText command_reply]).
Proof.
  intros W cfg. split; [reflexivity |].
  exact (commands_never_reach_the_backend W cfg "/image a cat" "u1" "c-1" "/tmp/cat.png"
           [] eq_refl).
Defined.

(** X11. [DownloadFile]: one GET first; the local file is created and written
    only after a 200; nothing else is touched (the file is not removed on a
    failure: that is left to the caller); and nil is returned exactly when
    the server answered 200, the file was created and the body was written
    to it. *)
Theorem download_touches_the_file_only_after_200
        (W : World) (url path : string) (tr : Trace) :
  exists r rest,
    DownloadFile W url path tr = (Ret r, tr ++ EvGet url :: rest)
    /\ (rest <> [] -> http_Get W tr url = inr 200)
    /\ Forall (fun e => e = EvCreate path \/ e = EvCopyToFile path) rest
    /\ (r = None <->
        http_Get W tr url = inr 200
        /\ os_Create W (tr ++ [EvGet url]) path = None
        /\ io_Copy_to_file W (tr ++ [EvGet url; EvCreate path]) path = None).
Proof.
  unfold DownloadFile. rewrite bind_call.
  destruct (http_Get W tr url) as [e | status].
  { eexists _, []. split; [reflexivity |]. split; [done |]. split; [constructor |].
    split; [discriminate | by intros [? _]]. }
  destruct (status =? StatusOK) eqn:Hs; simpl.
  2:{ eexists _, []. split; [reflexivity |]. split; [done |]. split; [constructor |].
      split; [discriminate |]. intros [[= ->] _]. discriminate. }
  apply Z.eqb_eq in Hs. subst status. rewrite bind_call.
  destruct (os_Create W (tr ++ [EvGet url]) path) as [e |].
  { eexists _, [EvCreate path]. unfold ret. rewrite <- app_assoc.
    split; [reflexivity |]. split; [done |].
    split; [repeat (apply Forall_cons_2; [first [by left | by right] |]); constructor |].
    split; [discriminate | by intros (_ & ? & _)]. }
  rewrite bind_call, <- app_assoc. simpl.
  destruct (io_Copy_to_file W (tr ++ [EvGet url; EvCreate path]) path) as [e |];
    eexists _, [EvCreate path; EvCopyToFile path]; unfold ret; rewrite <- app_assoc;
    (split; [reflexivity |]); (split; [done |]);
    (split; [repeat (apply Forall_cons_2; [first [by left | by right] |]); constructor |]).
  - split; [discriminate | by intros (_ & _ & ?)].
  - by split.
Qed.

(** The requests of [UploadFile] as the trace records them. *)
Lemma UploadFile_requests
      (W : World) (cfg : AppConfig) (filePath user : string) (tr : Trace) :
  exists r added,
    UploadFile W cfg filePath user tr = (r, tr ++ added)
    /\ ((forall req, ~ In (EvDo req) added)
        \/ not_configured cfg = false
           /\ os_Open W tr filePath = None
           /\ exists content rest,
               io_Copy_from_file W (tr ++ [EvOpen filePath]) filePath = inr content
               /\ let form := request_of cfg "POST" difyFileUploadPath
                                         (multipart_body W (Base filePath) content user)
                                         (multipart_FormDataContentType W) in
                  added = [EvOpen filePath; EvReadFile filePath] ++ rest
                  /\ Forall (attempt_of form) rest).
Proof.
  unfold UploadFile. destruct (not_configured cfg) eqn:Hcfg.
  { eexists _, []. rewrite app_nil_r. split; [reflexivity | left; by intros req []]. }
  rewrite bind_call. destruct (os_Open W tr filePath) as [e |] eqn:Hopen.
  { eexists _, [EvOpen filePath]. split; [reflexivity |].
    left. intros req [H | []]. discriminate. }
  destruct (multipart_CreateFormFile W _).
  { eexists _, [EvOpen filePath]. split; [reflexivity |].
    left. intros req [H | []]. discriminate. }
  rewrite bind_call.
  destruct (io_Copy_from_file W (tr ++ [EvOpen filePath]) filePath) as [e | content] eqn:Hread.
  { eexists _, [EvOpen filePath; EvReadFile filePath]. unfold ret. rewrite <- app_assoc.
    split; [reflexivity |]. left. intros req [H | [H | []]]; discriminate. }
  destruct (multipart_WriteField W _ _).
  { eexists _, [EvOpen filePath; EvReadFile filePath]. unfold ret. rewrite <- app_assoc.
    split; [reflexivity |]. left. intros req [H | [H | []]]; discriminate. }
  rewrite bind_unfold.
  destruct (doDifyRequest_emits W cfg "POST" difyFileUploadPath
              (multipart_body W (Base filePath) content user)
              (multipart_FormDataContentType W) "File Upload API"
              (Some (json_Unmarshal_object W)) (∅ : gmap string JSON)
              ((tr ++ [EvOpen filePath]) ++ [EvReadFile filePath]))
    as (r & added & Heq & Hadded).
  rewrite Heq.
  destruct r as [[[e |] response] |];
    eexists _, ([EvOpen filePath; EvReadFile filePath] ++ added); unfold ret;
    (split; [by rewrite <- !app_assoc |]);
    right; (split; [reflexivity |]); (split; [reflexivity |]);
    exists content, added; by repeat split.
Qed.

(** X12. [UploadFile] addresses the backend only after the file was opened
    and read with a configured service: every call of the client it makes
    is a POST to the upload endpoint with the multipart content type and
    the bearer token, and the first of them carries as its body the
    multipart form of the content just read and of the user.  Nothing is
    said of the body that a retry transmits. *)
Theorem upload_sends_what_it_read
        (W : World) (cfg : AppConfig) (filePath user : string) (tr : Trace) :
  exists r added,
    UploadFile W cfg filePath user tr = (r, tr ++ added)
    /\ forall before req after,
        added = before ++ EvDo req :: after ->
        not_configured cfg = false
        /\ os_Open W tr filePath = None
        /\ exists content,
            io_Copy_from_file W (tr ++ [EvOpen filePath]) filePath = inr content
            /\ let form := request_of cfg "POST" difyFileUploadPath
                                      (multipart_body W (Base filePath) content user)
                                      (multipart_FormDataContentType W) in
               same_call form (EvDo req)
               /\ (do_count before = 0%nat -> req = form).
Proof.
  destruct (UploadFile_requests W cfg filePath user tr)
    as (r & added & Heq & [Hnone | (Hcfg & Hopen & content & rest & Hread & H)]).
  { exists r, added. split; [exact Heq |]. intros before req after ->.
    exfalso. apply (Hnone req). apply in_elt. }
  cbv zeta in H. destruct H as [-> Hrest].
  exists r, ([EvOpen filePath; EvReadFile filePath] ++ rest). split; [exact Heq |].
  intros before req after Hsplit.
  split; [exact Hcfg |]. split; [exact Hopen |]. exists content. split; [exact Hread |].
  cbv zeta.
  assert (Hin : In (EvDo req) rest).
  { assert (H : In (EvDo req) ([EvOpen filePath; EvReadFile filePath] ++ rest))
      by (rewrite Hsplit; apply in_elt).
    destruct H as [H | [H | H]]; [discriminate | discriminate | exact H]. }
  assert (Hreq : attempt_of
                   (request_of cfg "POST" difyFileUploadPath
                               (multipart_body W (Base filePath) content user)
                               (multipart_FormDataContentType W)) (EvDo req)).
  { apply list_elem_of_In in Hin. exact (proj1 (Forall_forall _ _) Hrest _ Hin). }
  split; [by apply attempt_of_same_call |]. intros _. exact Hreq.
Qed.

Lemma call_chat_unfold (W : World) (cfg : AppConfig)
      (message user conversationID filePath : string) (tr : Trace) :
  is_empty filePath = false ->
  call_chat W cfg message user conversationID filePath tr =
  match UploadFile W cfg filePath user tr with
  | (Ret (_, Some e), t) =>
      (Ret (EmptyString, Some (Errorf "failed to upload file to Dify: %w" [] (Some e))), t)
  | (Ret (uploadResp, None), t) =>
      let files := match uploadResp !! "id" with
                   | Some (JString fileID) => [attachment W filePath fileID]
                   | _ => []
                   end in
      match CallDifyChatAPI W cfg (chat_request message user conversationID files) t with
      | (Ret (_, Some e), t') =>
          (Ret (EmptyString, Some (Errorf "dify chat api call failed: %w" [] (Some e))), t')
      | (Ret (resp, None), t') => (Ret (Answer resp, None), t')
      | (Panic, t') => (Panic, t')
      end
  | (Panic, t) => (Panic, t)
  end.
Proof.
  intros Hfp. unfold call_chat. rewrite Hfp. simpl.
  rewrite !bind_unfold.
  destruct (UploadFile W cfg filePath user tr) as [[[uploadResp [e |]] |] t]; try reflexivity.
  unfold chat_request, attachment.
  destruct (uploadResp !! "id") as [[ | | | fileID | | ] |]; unfold ret;
    rewrite bind_unfold;
    match goal with
    | |- context [CallDifyChatAPI W cfg ?r t] =>
        destruct (CallDifyChatAPI W cfg r t) as [[[resp [e |]] |] t']
    end; reflexivity.
Qed.

(** X13. A failed upload of the attachment aborts the run: with the chat bot
    type, [ConvertAndSend] returns the upload error, wrapped by the stage
    names, and stops where [UploadFile] stopped: no request goes to the
    chat endpoint and nothing is sent. *)
Theorem upload_failure_aborts_the_run (W : World) (cfg : AppConfig)
        (message user conversationID filePath : string) (tr tr1 : Trace)
        (uploadResp : gmap string JSON) (e : Error) :
  BotType (Dify cfg) = "chat" ->
  HasPrefix message "/image " = false ->
  filePath <> EmptyString ->
  UploadFile W cfg filePath user tr = (Ret (uploadResp, Some e), tr1) ->
  ConvertAndSend W cfg message user conversationID filePath tr
  = (Ret (Some (Errorf "failed to call Dify API: %w" []
                       (Some (Errorf "failed to upload file to Dify: %w" [] (Some e))))),
     tr1)
  /\ exists added,
      tr1 = tr ++ added
      /\ Forall (attempt_at [BaseURL (Dify cfg) +:+ difyFileUploadPath]) added
      /\ sends added = [].
Proof.
  intros Hbot Hprefix Hfp Hup.
  assert (Hfp' : is_empty filePath = false).
  { destruct (is_empty filePath) eqn:E; [| reflexivity]. by apply is_empty_spec in E. }
  split.
  - rewrite ConvertAndSend_unfold, Hprefix, Hfp', andb_false_r.
    rewrite call_and_deliver_unfold. unfold call_backend. rewrite Hbot. simpl.
    rewrite (call_chat_unfold W cfg _ user conversationID filePath tr Hfp'), Hup.
    reflexivity.
  - destruct (UploadFile_emits W cfg filePath user tr) as (r & added & Heq & Hadded).
    rewrite Hup in Heq. injection Heq as _ ->. exists added. split; [reflexivity |].
    split.
    + apply (Forall_impl _ _ _ Hadded). by intros x [_ Hx].
    + apply backend_events_no_sends. apply (Forall_impl _ _ _ Hadded). by intros x [Hx _].
Qed.

Lemma upload_failure_aborts_the_run_witness :
  let W := examples.world [] (inr 200) examples.all_accepted in
  let req := request_of examples.chat_cfg "POST" difyFileUploadPath
                        ("report.txt" +:+ "content" +:+ "u1")
                        "multipart/form-data; boundary=b" in
  let e := Errorf "%s 请求在 %d 次重试后仍然失败: %w" [AStr "File Upload API"; AInt 3]
                  (Some examples.refused) in
  UploadFile W examples.chat_cfg "/tmp/report.txt" "u1" []
  = (Ret (∅, Some e),
     [EvOpen "/tmp/report.txt"; EvReadFile "/tmp/report.txt";
      EvDo req; EvSleep 1; EvDo req; EvSleep 2; EvDo req])
  /\ ConvertAndSend W examples.chat_cfg "see attachment" "u1" EmptyString "/tmp/report.txt" []
     = (Ret (Some (Errorf "failed to call Dify API: %w" []
                          (Some (Errorf "failed to upload file to Dify: %w" [] (Some e))))),
        [EvOpen "/tmp/report.txt"; EvReadFile "/tmp/report.txt";
         EvDo req; EvSleep 1; EvDo req; EvSleep 2; EvDo req]).
Proof.
  intros W req e.
  assert (Hup : UploadFile W examples.chat_cfg "/tmp/report.txt" "u1" []
                = (Ret (∅, Some e),
                   [EvOpen "/tmp/report.txt"; EvReadFile "/tmp/report.txt";
                    EvDo req; EvSleep 1; EvDo req; EvSleep 2; EvDo req]))
    by reflexivity.
  split; [exact Hup |].
  exact (proj1 (upload_failure_aborts_the_run W examples.chat_cfg "see attachment" "u1"
                  EmptyString "/tmp/report.txt" [] _ ∅ e eq_refl eq_refl
                  ltac:(discriminate) Hup)).
Defined.

(** With a request that can be built, the first event of [doDifyRequest]
    is the attempt of that request. *)
Lemma doDifyRequest_first {A} (W : World) (cfg : AppConfig)
      (method path body contentType logPrefix : string)
      (responseStruct : option (string -> Error + A)) (dst : A) (tr : Trace) :
  http_NewRequest W method (BaseURL (Dify cfg) +:+ path) = None ->
  exists res rest,
    doDifyRequest W cfg method path body contentType logPrefix responseStruct dst tr
    = (Ret res, tr ++ EvDo (request_of cfg method path body contentType) :: rest).
Proof.
  intros Hnew.
  destruct (doDifyRequest_shape W cfg method path body contentType logPrefix
                                responseStruct dst tr) as (res & added & Heq & Hshape).
  rewrite Hnew in Hshape. destruct Hshape as (k & Hk & ->).
  exists res. rewrite Heq.
  destruct (backoff_cases (request_of cfg method path body contentType) k Hk)
    as [-> | [-> | ->]]; eexists; reflexivity.
Qed.

Lemma CallDifyChatAPI_first (W : World) (cfg : AppConfig) (request : DifyChatRequest)
      (body : string) (tr : Trace) :
  not_configured cfg = false ->
  json_Marshal_chat W (chat_normalized request) = inr body ->
  http_NewRequest W "POST" (BaseURL (Dify cfg) +:+ difyChatMessagesPath) = None ->
  exists r rest,
    CallDifyChatAPI W cfg request tr
    = (Ret r, tr ++ EvDo (request_of cfg "POST" difyChatMessagesPath body
                                     "application/json") :: rest).
Proof.
  intros Hcfg Hm Hnew.
  rewrite (CallDifyChatAPI_configured W cfg request body tr Hcfg Hm).
  destruct (doDifyRequest_first W cfg "POST" difyChatMessagesPath body "application/json"
              "Chat API" (Some (json_Unmarshal_chat W)) (mkChatResp EmptyString) tr Hnew)
    as ([[e |] response] & rest & ->); [eauto |].
  destruct (is_empty (Answer response)); eauto.
Qed.

Lemma UploadFile_configured (W : World) (cfg : AppConfig) (filePath user : string)
      (tr tr1 : Trace) (uploadResp : gmap string JSON) :
  UploadFile W cfg filePath user tr = (Ret (uploadResp, None), tr1) ->
  not_configured cfg = false.
Proof.
  unfold UploadFile. destruct (not_configured cfg); [discriminate | reflexivity].
Qed.

(** X14. The handle of an uploaded attachment goes into the chat request: after
    a successful upload whose response has a string [id], the request that
    [ConvertAndSend] puts on the wire next is the chat request whose files
    are the one entry with that id as [upload_file_id], the transfer method
    [local_file] and the type of the path; without an [id] the chat request
    goes out with no files. *)
Theorem upload_handle_reaches_the_chat_request (W : World) (cfg : AppConfig)
        (message user conversationID filePath : string) (tr tr1 : Trace)
        (uploadResp : gmap string JSON) (body : string) :
  BotType (Dify cfg) = "chat" ->
  HasPrefix message "/image " = false ->
  filePath <> EmptyString ->
  UploadFile W cfg filePath user tr = (Ret (uploadResp, None), tr1) ->
  let files := match uploadResp !! "id" with
               | Some (JString fileID) => [attachment W filePath fileID]
               | _ => []
               end in
  json_Marshal_chat W (chat_normalized
                         (chat_request (effective_message cfg message) user
                                       conversationID files)) = inr body ->
  http_NewRequest W "POST" (BaseURL (Dify cfg) +:+ difyChatMessagesPath) = None ->
  exists r rest,
    ConvertAndSend W cfg message user conversationID filePath tr
    = (r, tr1 ++ EvDo (request_of cfg "POST" difyChatMessagesPath body
                                  "application/json") :: rest).
Proof.
  intros Hbot Hprefix Hfp Hup files Hm Hnew.
  assert (Hfp' : is_empty filePath = false).
  { destruct (is_empty filePath) eqn:E; [| reflexivity]. by apply is_empty_spec in E. }
  rewrite ConvertAndSend_unfold, Hprefix, Hfp', andb_false_r.
  rewrite call_and_deliver_unfold. unfold call_backend. rewrite Hbot. simpl.
  rewrite (call_chat_unfold W cfg _ user conversationID filePath tr Hfp'), Hup.
  cbv zeta. fold files.
  destruct (CallDifyChatAPI_first W cfg _ body tr1
              (UploadFile_configured W cfg _ _ _ _ _ Hup) Hm Hnew)
    as ([resp [e |]] & rest & ->); [eauto |].
  destruct (postprocess_emits W cfg (Answer resp)
              (tr1 ++ EvDo (request_of cfg "POST" difyChatMessagesPath body
                                       "application/json") :: rest))
    as (rp & delivery & -> & _).
  rewrite <- app_assoc. simpl. destruct rp as [[e |] |]; eauto.
Qed.

Lemma upload_handle_reaches_the_chat_request_witness :
  let W := more_examples.world2 [more_examples.ok more_examples.upload_body;
                                 more_examples.ok examples.hello_body]
                                (inr 200) examples.all_accepted (inr "{}") in
  let upload := request_of examples.chat_cfg "POST" difyFileUploadPath
                           ("report.TXT" +:+ "content" +:+ "u1")
                           "multipart/form-data; boundary=b" in
  let request := chat_request "see attachment" "u1" EmptyString
                              [attachment W "/tmp/report.TXT" "file-123"] in
  let body := more_examples.chat_json_with_files (chat_normalized request) in
  UploadFile W examples.chat_cfg "/tmp/report.TXT" "u1" []
  = (Ret (more_examples.upload_response, None),
     [EvOpen "/tmp/report.TXT"; EvReadFile "/tmp/report.TXT"; EvDo upload])
  /\ getFileTypeFromPath W "/tmp/report.TXT" = "text"
  /\ exists r rest,
      ConvertAndSend W examples.chat_cfg "see attachment" "u1" EmptyString
                     "/tmp/report.TXT" []
      = (r, [EvOpen "/tmp/report.TXT"; EvReadFile "/tmp/report.TXT"; EvDo upload]
              ++ EvDo (request_of examples.chat_cfg "POST" difyChatMessagesPath body
                                  "application/json") :: rest).
Proof.
  intros W upload request body.
  assert (Hup : UploadFile W examples.chat_cfg "/tmp/report.TXT" "u1" []
                = (Ret (more_examples.upload_response, None),
                   [EvOpen "/tmp/report.TXT"; EvReadFile "/tmp/report.TXT"; EvDo upload]))
    by (vm_compute; reflexivity).
  split; [exact Hup |]. split; [reflexivity |].
  exact (upload_handle_reaches_the_chat_request W examples.chat_cfg "see attachment" "u1"
           EmptyString "/tmp/report.TXT" [] _ more_examples.upload_response body
           eq_refl eq_refl ltac:(discriminate) Hup eq_refl eq_refl).
Defined.

Lemma with_role_lookup (inputs : option (gmap string JSON)) (k : string) :
  with_role inputs !! k =
  if bool_decide (k = "role")
  then Some (default (JString defaultRole) (default ∅ inputs !! "role"))
  else default ∅ inputs !! k.
Proof.
  unfold with_role. destruct inputs as [m |]; simpl.
  - destruct (m !! "role") as [v |] eqn:Hr.
    + case_bool_decide as Hk; [subst k; by rewrite Hr | reflexivity].
    + case_bool_decide as Hk.
      * subst k. apply lookup_insert_eq.
      * by rewrite lookup_insert_ne.
  - rewrite lookup_empty. simpl. case_bool_decide as Hk.
    + subst k. apply lookup_insert_eq.
    + by rewrite lookup_insert_ne.
Qed.

(** X15. What a chat call puts on the wire: whatever the caller's request (nil
    inputs, another response mode), the request marshalled and sent has the
    response mode [blocking] and an input [role], the caller's own when
    there is one and the default role otherwise; the other inputs, the user,
    the files, the query and the conversation id are the caller's. *)
Theorem chat_request_is_normalized (W : World) (cfg : AppConfig)
        (request : DifyChatRequest) (body : string) (tr : Trace) :
  not_configured cfg = false ->
  json_Marshal_chat W (chat_normalized request) = inr body ->
  http_NewRequest W "POST" (BaseURL (Dify cfg) +:+ difyChatMessagesPath) = None ->
  (exists r rest,
      CallDifyChatAPI W cfg request tr
      = (Ret r, tr ++ EvDo (request_of cfg "POST" difyChatMessagesPath body
                                       "application/json") :: rest))
  /\ ResponseMode (chat_base (chat_normalized request)) = "blocking"
  /\ (exists inputs,
         Inputs (chat_base (chat_normalized request)) = Some inputs
         /\ inputs !! "role"
            = Some (default (JString defaultRole)
                            (default ∅ (Inputs (chat_base request)) !! "role"))
         /\ forall k, k <> "role" ->
                      inputs !! k = default ∅ (Inputs (chat_base request)) !! k)
  /\ User (chat_base (chat_normalized request)) = User (chat_base request)
  /\ Files (chat_base (chat_normalized request)) = Files (chat_base request)
  /\ Query (chat_normalized request) = Query request
  /\ ConversationID (chat_normalized request) = ConversationID request.
Proof.
  intros Hcfg Hm Hnew.
  split; [by apply CallDifyChatAPI_first |]. split; [reflexivity |].
  split; [| by repeat split].
  exists (with_role (Inputs (chat_base request))). split; [reflexivity |]. split.
  - by rewrite with_role_lookup, bool_decide_eq_true_2.
  - intros k Hk. by rewrite with_role_lookup, bool_decide_eq_false_2.
Qed.

Lemma chat_request_is_normalized_witness :
  let W := examples.world [more_examples.ok examples.hello_body] (inr 200)
                          examples.all_accepted in
  let request := mkChatReq (mkBase None "u1" "streaming" []) "hello" "c-1" in
  let body := examples.chat_json "u1" "hello" "c-1" in
  json_Marshal_chat W (chat_normalized request) = inr body
  /\ CallDifyChatAPI W examples.chat_cfg request []
     = (Ret (mkChatResp "hi there", None),
        [EvDo (request_of examples.chat_cfg "POST" difyChatMessagesPath body
                          "application/json")])
  /\ ResponseMode (chat_base (chat_normalized request)) = "blocking".
Proof.
  intros W request body.
  destruct (chat_request_is_normalized W examples.chat_cfg request body []
              eq_refl eq_refl eq_refl) as (_ & Hmode & _).
  split; [reflexivity |]. split; [reflexivity | exact Hmode].
Defined.

(** X16. The completion and workflow bot types do not look at the attachment
    nor at the conversation id: whenever the message that goes to the
    backend is not empty, the run is the same as with neither of them; and
    with an empty message the attachment only lets the run through, to a
    backend call made with the empty message. *)
Theorem only_chat_uses_the_attachment (W : World) (cfg : AppConfig)
        (message user conversationID filePath : string) (tr : Trace) :
  BotType (Dify cfg) = "completion" \/ BotType (Dify cfg) = "workflow" ->
  (effective_message cfg message <> EmptyString ->
   ConvertAndSend W cfg message user conversationID filePath tr
   = ConvertAndSend W cfg message user EmptyString EmptyString tr)
  /\ (effective_message cfg message = EmptyString ->
      filePath <> EmptyString ->
      ConvertAndSend W cfg message user conversationID filePath tr
      = call_and_deliver W cfg EmptyString user EmptyString EmptyString tr).
Proof.
  intros Hbot.
  assert (Hcall : forall m f c,
             call_and_deliver W cfg m user c f tr
             = call_and_deliver W cfg m user EmptyString EmptyString tr).
  { intros m f c. unfold call_and_deliver, call_backend.
    destruct Hbot as [-> | ->]; reflexivity. }
  split.
  - intros Hmsg. rewrite !ConvertAndSend_unfold.
    destruct (HasPrefix message "/image "); [reflexivity |].
    assert (He : is_empty (effective_message cfg message) = false).
    { destruct (is_empty _) eqn:E; [| reflexivity]. by apply is_empty_spec in E. }
    rewrite He. simpl. apply Hcall.
  - intros Hmsg Hfp. rewrite ConvertAndSend_unfold.
    assert (Hnp : HasPrefix message "/image " = false).
    { unfold effective_message in Hmsg. destruct message; [reflexivity |].
      simpl in Hmsg. discriminate. }
    assert (Hf : is_empty filePath = false).
    { destruct (is_empty filePath) eqn:E; [| reflexivity]. by apply is_empty_spec in E. }
    rewrite Hnp, Hf, andb_false_r, Hmsg. apply Hcall.
Qed.

Lemma only_chat_uses_the_attachment_witness :
  let W := examples.world [] (inr 200) examples.all_accepted in
  let cfg := examples.cfg_of "completion" EmptyString in
  let req := request_of cfg "POST" difyCompletionMessagesPath
                        (examples.completion_json "u1" EmptyString) "application/json" in
  (BotType (Dify cfg) = "completion" \/ BotType (Dify cfg) = "workflow")
  /\ effective_message cfg "hello" <> EmptyString
  /\ ConvertAndSend W cfg "hello" "u1" "c-1" "/tmp/cat.png" []
     = ConvertAndSend W cfg "hello" "u1" EmptyString EmptyString []
  /\ fst (ConvertAndSend W cfg EmptyString "u1" "c-1" "/tmp/cat.png" []) <> Panic
  /\ snd (ConvertAndSend W cfg EmptyString "u1" "c-1" "/tmp/cat.png" [])
     = [EvDo req; EvSleep 1; EvDo req; EvSleep 2; EvDo req].
Proof.
  intros W cfg req.
  assert (Hbot : BotType (Dify cfg) = "completion" \/ BotType (Dify cfg) = "workflow")
    by (left; reflexivity).
  assert (Hmsg : effective_message cfg "hello" <> EmptyString) by discriminate.
  destruct (only_chat_uses_the_attachment W cfg "hello" "u1" "c-1" "/tmp/cat.png" [] Hbot)
    as [Hsame _].
  destruct (only_chat_uses_the_attachment W cfg EmptyString "u1" "c-1" "/tmp/cat.png" []
              Hbot) as [_ Hempty].
  split; [exact Hbot |]. split; [exact Hmsg |]. split; [exact (Hsame Hmsg) |].
  rewrite (Hempty eq_refl ltac:(discriminate)). split; [discriminate | reflexivity].
Defined.



Lemma DownloadFile_no_remove (W : World) (url path : string) :
  emits no_remove (DownloadFile W url path).
Proof. unfold DownloadFile. emit. Qed.

(** X18. The scratch file of an image or file delivery never stays behind: when
    the formatter creates one, it removes it exactly once, and after the
    removal nothing happens but, at most, the Text notice; when the scratch
    file cannot be created, or the payload has no artifact, the formatter
    only sends. *)
Theorem scratch_file_is_removed (W : World) (cfg : AppConfig) (payload : string)
        (tr : Trace) :
  exists r added,
    postprocessDifyResponse W cfg payload tr = (r, tr ++ added)
    /\ match added with
       | EvCreateTemp pattern :: rest =>
           match os_CreateTemp W tr pattern with
           | inl _ => Forall text_only rest
           | inr path =>
               exists mid tail,
                 rest = mid ++ EvRemove path :: tail
                 /\ Forall no_remove mid
                 /\ Forall text_only tail
           end
       | _ => Forall (fun e => is_send e = true) added
       end.
Proof.
  rewrite postprocess_by_shape.
  destruct (decide_shape _ _) as [url | url | content | |].
  - pose proof (send_image_cases W url tr) as H. cbv zeta in H.
    set (pattern := "dify_image_*" +:+ _) in H.
    destruct (os_CreateTemp W tr pattern) as [e | path] eqn:Htemp.
    { eexists _, [EvCreateTemp pattern; EvSendText _]. rewrite H, <- app_assoc.
      split; [reflexivity |]. rewrite Htemp. by repeat constructor. }
    destruct H as (d & downloading & Hd & _ & H).
    destruct (DownloadFile_no_remove W url path (tr ++ [EvCreateTemp pattern]))
      as (d' & downloading' & Hd' & Hnr).
    rewrite Hd in Hd'. injection Hd' as _ Happ. apply app_inv_head in Happ as <-.
    destruct d as [e |];
      [| destruct (robot_SendImageMessage W _ path) as [e |]]; rewrite H.
    + eexists _, (EvCreateTemp pattern :: downloading ++ [EvRemove path; EvSendText _]).
      split; [f_equal; by rewrite <- !app_assoc |]. rewrite Htemp.
      exists downloading, [EvSendText (image_download_failed url)].
      split; [reflexivity |]. split; [exact Hnr | by repeat constructor].
    + eexists _, (EvCreateTemp pattern
                    :: (downloading ++ [EvSendImage path; EvSendText _]) ++ [EvRemove path]).
      split; [f_equal; by rewrite <- !app_assoc |]. rewrite Htemp.
      exists (downloading ++ [EvSendImage path; EvSendText (image_send_failed url)]), [].
      split; [reflexivity |]. split; [| constructor].
      apply Forall_app. split; [exact Hnr | by repeat constructor].
    + eexists _, (EvCreateTemp pattern :: (downloading ++ [EvSendImage path])
                    ++ [EvRemove path]).
      split; [f_equal; by rewrite <- !app_assoc |]. rewrite Htemp.
      exists (downloading ++ [EvSendImage path]), [].
      split; [reflexivity |]. split; [| constructor].
      apply Forall_app. split; [exact Hnr | by repeat constructor].
  - pose proof (send_file_cases W url tr) as H. cbv zeta in H.
    set (pattern := "dify_file_*" +:+ _) in H.
    destruct (os_CreateTemp W tr pattern) as [e | path] eqn:Htemp.
    { eexists _, [EvCreateTemp pattern; EvSendText _]. rewrite H, <- app_assoc.
      split; [reflexivity |]. rewrite Htemp. by repeat constructor. }
    destruct H as (d & downloading & Hd & _ & H).
    destruct (DownloadFile_no_remove W url path (tr ++ [EvCreateTemp pattern]))
      as (d' & downloading' & Hd' & Hnr).
    rewrite Hd in Hd'. injection Hd' as _ Happ. apply app_inv_head in Happ as <-.
    destruct d as [e |];
      [| destruct (robot_SendFileMessage W _ path) as [e |]]; rewrite H.
    + eexists _, (EvCreateTemp pattern :: downloading ++ [EvRemove path; EvSendText _]).
      split; [f_equal; by rewrite <- !app_assoc |]. rewrite Htemp.
      exists downloading, [EvSendText (file_download_failed url)].
      split; [reflexivity |]. split; [exact Hnr | by repeat constructor].
    + eexists _, (EvCreateTemp pattern
                    :: (downloading ++ [EvSendFile path; EvSendText _]) ++ [EvRemove path]).
      split; [f_equal; by rewrite <- !app_assoc |]. rewrite Htemp.
      exists (downloading ++ [EvSendFile path; EvSendText (file_send_failed url)]), [].
      split; [reflexivity |]. split; [| constructor].
      apply Forall_app. split; [exact Hnr | by repeat constructor].
    + eexists _, (EvCreateTemp pattern :: (downloading ++ [EvSendFile path])
                    ++ [EvRemove path]).
      split; [f_equal; by rewrite <- !app_assoc |]. rewrite Htemp.
      exists (downloading ++ [EvSendFile path]), [].
      split; [reflexivity |]. split; [| constructor].
      apply Forall_app. split; [exact Hnr | by repeat constructor].
  - eexists _, [EvSendMarkdown content]. split; [reflexivity |]. by repeat constructor.
  - eexists _, [EvSendText payload]. split; [reflexivity |]. by repeat constructor.
  - unfold send_plain. destruct (_ <? _).
    + destruct (slice_to _ _ _ _) as [runes |].
      * eexists _, [EvSendText _]. split; [reflexivity |]. by repeat constructor.
      * exists Panic, []. rewrite app_nil_r. split; [reflexivity | constructor].
    + eexists _, [EvSendText payload]. split; [reflexivity |]. by repeat constructor.
Qed.

End pipeline_facts.

(* ===================================================================== *)
(** * Truncation and UTF-8                                                *)
(* ===================================================================== *)

Module truncation_facts.
Import gostring config service spec.
Import gostring_facts formatter_facts.

Lemma string_of_list_ascii_app (l1 l2 : list ascii) :
  string_of_list_ascii (l1 ++ l2) = string_of_list_ascii l1 +:+ string_of_list_ascii l2.
Proof. induction l1 as [|c l1 IH]; simpl; [reflexivity|by rewrite IH]. Qed.

Lemma of_runes_app (a b : list Z) : of_runes (a ++ b) = of_runes a +:+ of_runes b.
Proof.
  unfold of_runes, of_bytes.
  by rewrite List.map_app, List.concat_app, List.map_app, string_of_list_ascii_app.
Qed.

Lemma string_append_assoc (a b c : string) : (a +:+ b) +:+ c = a +:+ (b +:+ c).
Proof.
  induction a as [|x a IH]; [reflexivity|].
  change (String x ((a +:+ b) +:+ c) = String x (a +:+ (b +:+ c))). by rewrite IH.
Qed.

(** X19. Truncation cuts between characters.  For a plain-text payload
    over the limit that is well-formed UTF-8 (it survives the conversion to
    runes and back): with 1998 characters or more, the text sent is a
    prefix of the payload's bytes, the encoding of its first 1998
    characters, followed by the note, so that no character is cut in half
    or replaced; with fewer than 1998 characters nothing is cut at all:
    the slice expression reaches beyond the length, and the run panics
    before anything is sent or sends the whole payload padded with zero
    runes up to 1998, then the note. *)
Theorem truncation_cuts_between_characters
        (W : World) (cfg : AppConfig) (payload : string) (tr : Trace)
        (Hshape : decide_shape (json_Unmarshal_object W payload) (BotType (Dify cfg))
                  = PlainText)
        (Hlen : maxWeComMessageLength < len payload)
        (Hvalid : of_runes (to_runes payload) = payload) :
  let n := List.length (to_runes payload) in
  ((1998 <= n)%nat ->
   exists kept dropped,
     payload = kept +:+ dropped
     /\ kept = of_runes (firstn 1998 (to_runes payload))
     /\ postprocessDifyResponse W cfg payload tr
        = (Ret (robot_SendTextMessage W tr (kept +:+ truncation_note)),
           tr ++ [EvSendText (kept +:+ truncation_note)]))
  /\ ((n < 1998)%nat ->
      let text := payload +:+ of_runes (repeat 0 (1998 - n)) +:+ truncation_note in
      postprocessDifyResponse W cfg payload tr
      = if (1998 <=? n + runtime_rune_spare W n)%nat
        then (Ret (robot_SendTextMessage W tr text), tr ++ [EvSendText text])
        else (Panic, tr)).
Proof.
  intros n. rewrite postprocess_by_shape, Hshape.
  pose proof (send_plain_over_limit W payload tr Hlen) as H. split.
  - intros Hn. rewrite slice_to_prefix in H by exact Hn.
    exists (of_runes (firstn 1998 (to_runes payload))),
           (of_runes (skipn 1998 (to_runes payload))).
    split; [|split; [reflexivity|exact H]].
    by rewrite <- of_runes_app, firstn_skipn.
  - intros Hn text. unfold slice_to in H. fold n in H.
    replace (1998 <=? n)%nat with false in H by (symmetry; apply Nat.leb_gt; lia).
    destruct (1998 <=? n + runtime_rune_spare W n)%nat; [|exact H].
    rewrite of_runes_app, Hvalid, string_append_assoc in H. exact H.
Qed.

Lemma truncation_cuts_between_characters_witness :
  let W := examples.world [] (inr 200) examples.all_accepted in
  let payload := text_examples.accented_text in
  exists kept dropped,
    payload = kept +:+ dropped
    /\ kept = of_runes (firstn 1998 (to_runes payload))
    /\ postprocessDifyResponse W examples.chat_cfg payload []
       = (Ret (robot_SendTextMessage W [] (kept +:+ truncation_note)),
          [] ++ [EvSendText (kept +:+ truncation_note)]).
Proof.
  intros W payload.
  assert (H1 : decide_shape (json_Unmarshal_object W payload) "chat" = PlainText)
    by (vm_compute; reflexivity).
  assert (H2 : maxWeComMessageLength < len payload) by (vm_compute; reflexivity).
  assert (H3 : of_runes (to_runes payload) = payload) by (vm_compute; reflexivity).
  apply (proj1 (truncation_cuts_between_characters W examples.chat_cfg payload [] H1 H2 H3)).
  apply Nat.leb_le. vm_compute. reflexivity.
Defined.

End truncation_facts.

(* ===================================================================== *)
(** * Facts about the configuration and the schedulers                    *)
(* ===================================================================== *)

Module config_facts.
Import gostring fullconfig.
Import gostring_facts service_facts.

Lemma is_empty_false (s : string) : is_empty s = false <-> s <> EmptyString.
Proof. destruct s; simpl; split; congruence. Qed.

Lemma Validate_accepts (c : AppConfig) :
  Validate c = None
  <-> config.APIKey (Dify c) <> EmptyString
      /\ config.BaseURL (Dify c) <> EmptyString
      /\ WebhookURL (WeCom c) <> EmptyString
      /\ (EnableAuth c = true -> AuthToken c <> EmptyString).
Proof.
  unfold Validate. rewrite <- !is_empty_false.
  destruct (is_empty (config.APIKey (Dify c))),
           (is_empty (config.BaseURL (Dify c))),
           (is_empty (WebhookURL (WeCom c))),
           (EnableAuth c), (is_empty (AuthToken c)); simpl;
    intuition congruence.
Qed.

Lemma validated_inr (c c' : AppConfig) :
  validated c = inr c' <-> c' = c /\ Validate c = None.
Proof.
  unfold validated. destruct (Validate c); split.
  - discriminate.
  - intros [_ ?]; discriminate.
  - intros [= <-]. by split.
  - intros [-> _]. reflexivity.
Qed.

Lemma LoadConfig_validated (E : Env) (c : AppConfig) :
  LoadConfig E = inr c -> Validate c = None.
Proof.
  unfold LoadConfig.
  destruct (os_Stat E yamlConfigPath); [|by intros [-> ?]%validated_inr|discriminate].
  destruct (os_ReadFile E yamlConfigPath); [discriminate|].
  destruct (yaml_Unmarshal E _); [discriminate|].
  by intros [-> ?]%validated_inr.
Qed.

(** X20. What [LoadConfig] returns has passed [Validate]; the service
    therefore never finds it unconfigured, the robot has a webhook URL, and
    authentication, when on, has a token. *)
Theorem loaded_configuration_is_complete (E : Env) (c : AppConfig)
  (Hload : LoadConfig E = inr c) :
  Validate c = None
  /\ service.not_configured (service_view c) = false
  /\ WebhookURL (WeCom c) <> EmptyString
  /\ (EnableAuth c = true -> AuthToken c <> EmptyString).
Proof.
  pose proof (LoadConfig_validated _ _ Hload) as Hv.
  split; [exact Hv|].
  apply Validate_accepts in Hv as (Hk & Hb & Hw & Ha).
  repeat split; try assumption.
  unfold service.not_configured, service_view. simpl.
  apply is_empty_false in Hk, Hb. by rewrite Hk, Hb.
Qed.

Lemma loaded_configuration_is_complete_witness :
  exists c,
    LoadConfig (environment_only container_environment) = inr c
    /\ Validate c = None
    /\ service.not_configured (service_view c) = false
    /\ WebhookURL (WeCom c) <> EmptyString
    /\ (EnableAuth c = true -> AuthToken c <> EmptyString).
Proof.
  eexists. split; [reflexivity|].
  apply (loaded_configuration_is_complete (environment_only container_environment)).
  reflexivity.
Defined.

(** X21. Without the YAML file the configuration comes from the
    environment alone: loading succeeds exactly when [DIFY_API_KEY],
    [DIFY_BASE_URL] and [WECHAT_WEBHOOK_URL] are set and, if [ENABLE_AUTH]
    is [true], [AUTH_TOKEN] is set too; the result then has one scheduler,
    and neither the file nor the YAML decoder is consulted. *)
Theorem environment_fallback (E : Env) (e : Error)
  (Hstat : os_Stat E yamlConfigPath = NotExist e) :
  ((exists c, LoadConfig E = inr c)
   <-> os_Getenv E "DIFY_API_KEY" <> EmptyString
       /\ os_Getenv E "DIFY_BASE_URL" <> EmptyString
       /\ os_Getenv E "WECHAT_WEBHOOK_URL" <> EmptyString
       /\ (os_Getenv E "ENABLE_AUTH" = "true" -> os_Getenv E "AUTH_TOKEN" <> EmptyString))
  /\ (forall c, LoadConfig E = inr c ->
        c = from_environment E /\ List.length (Schedulers c) = 1%nat)
  /\ (forall read expand decode,
        LoadConfig {| os_Stat := os_Stat E; os_ReadFile := read; os_Expand := expand;
                      yaml_Unmarshal := decode; os_Getenv := os_Getenv E |}
        = LoadConfig E).
Proof.
  assert (Hl : LoadConfig E = validated (from_environment E)).
  { unfold LoadConfig. by rewrite Hstat. }
  split; [|split].
  - rewrite Hl. split.
    + intros [c [-> Hv]%validated_inr].
      apply Validate_accepts in Hv as (Hk & Hb & Hw & Ha).
      simpl in *. repeat split; try assumption.
      intros Heq. apply Ha. by rewrite Heq.
    + intros (Hk & Hb & Hw & Ha). exists (from_environment E).
      apply validated_inr. split; [reflexivity|].
      apply Validate_accepts. simpl. repeat split; try assumption.
      intros Heq. apply Ha. by apply String.eqb_eq.
  - intros c. rewrite Hl. by intros [-> _]%validated_inr.
  - intros read expand decode. rewrite Hl. unfold LoadConfig. simpl.
    by rewrite Hstat.
Qed.

Lemma environment_fallback_witness :
  let E := environment_only container_environment in
  ((exists c, LoadConfig E = inr c)
   <-> os_Getenv E "DIFY_API_KEY" <> EmptyString
       /\ os_Getenv E "DIFY_BASE_URL" <> EmptyString
       /\ os_Getenv E "WECHAT_WEBHOOK_URL" <> EmptyString
       /\ (os_Getenv E "ENABLE_AUTH" = "true" -> os_Getenv E "AUTH_TOKEN" <> EmptyString))
  /\ (forall c, LoadConfig E = inr c ->
        c = from_environment E /\ List.length (Schedulers c) = 1%nat)
  /\ (forall read expand decode,
        LoadConfig {| os_Stat := os_Stat E; os_ReadFile := read; os_Expand := expand;
                      yaml_Unmarshal := decode; os_Getenv := os_Getenv E |}
        = LoadConfig E).
Proof.
  exact (environment_fallback (environment_only container_environment) _ eq_refl).
Defined.

(** ** [parseInt] reads what [%d] prints *)

Lemma digit_value_char (d : N) :
  (d < 10)%N -> digit_value (pretty_N_char d) = Some (Z.of_N d).
Proof.
  intros Hd.
  assert (d = 0 \/ d = 1 \/ d = 2 \/ d = 3 \/ d = 4 \/ d = 5 \/ d = 6 \/ d = 7
          \/ d = 8 \/ d = 9)%N as H by lia.
  repeat (destruct H as [-> | H]; [reflexivity|]). by subst.
Qed.

Lemma digits_value_pretty_go (x : N) :
  forall s, (0 < x)%N ->
    digits_value (pretty_N_go x s) 0 = digits_value s (Z.of_N x).
Proof.
  induction (N.lt_wf_0 x) as [x _ IH]. intros s Hx.
  rewrite pretty_N_go_step by done.
  assert (Hmod : (x `mod` 10 < 10)%N) by (apply N.mod_lt; lia).
  assert (Hdiv : (x = 10 * (x `div` 10) + x `mod` 10)%N) by (apply N.div_mod; lia).
  destruct (decide (x `div` 10 = 0)%N) as [Hz|Hnz].
  - rewrite Hz, pretty_N_go_0. simpl. rewrite digit_value_char by done.
    f_equal. lia.
  - rewrite IH; [|apply N.div_lt; lia|lia].
    simpl. rewrite digit_value_char by done. f_equal. lia.
Qed.

Lemma pretty_go_head (x : N) :
  forall s, (0 < x)%N ->
    exists d rest, (d < 10)%N /\ pretty_N_go x s = String (pretty_N_char d) rest.
Proof.
  induction (N.lt_wf_0 x) as [x _ IH]. intros s Hx.
  rewrite pretty_N_go_step by done.
  destruct (decide (x `div` 10 = 0)%N) as [Hz|Hnz].
  - rewrite Hz, pretty_N_go_0. eexists _, _. split; [|reflexivity].
    apply N.mod_lt; lia.
  - apply IH; [apply N.div_lt; lia|by apply N.neq_0_lt_0].
Qed.

Lemma digit_char_not_sign (d : N) :
  (d < 10)%N ->
  Ascii.eqb (pretty_N_char d) "-" = false /\ Ascii.eqb (pretty_N_char d) "+" = false.
Proof.
  intros Hd.
  assert (d = 0 \/ d = 1 \/ d = 2 \/ d = 3 \/ d = 4 \/ d = 5 \/ d = 6 \/ d = 7
          \/ d = 8 \/ d = 9)%N as H by lia.
  repeat (destruct H as [-> | H]; [by split|]). by subst.
Qed.

Lemma pretty_positive_go (p : positive) : pretty (Z.pos p) = pretty_N_go (N.pos p) EmptyString.
Proof. reflexivity. Qed.

Lemma Atoi_pretty (n : Z) :
  minInt <= n <= maxInt -> Atoi (pretty n) = Some n.
Proof.
  intros Hn. destruct n as [|p|p].
  - reflexivity.
  - rewrite pretty_positive_go.
    destruct (pretty_go_head (N.pos p) EmptyString) as (d & rest & Hd & Heq); [lia|].
    pose proof (digits_value_pretty_go (N.pos p) EmptyString ltac:(lia)) as Hv.
    rewrite Heq in Hv |- *. unfold Atoi.
    destruct (digit_char_not_sign d Hd) as [-> ->]. simpl orb. cbv iota.
    change (is_empty (String (pretty_N_char d) rest)) with false. cbv iota.
    rewrite Hv. simpl digits_value. cbv beta iota zeta.
    match goal with
    | |- (if ?b then _ else _) = _ => destruct b eqn:Hr; [reflexivity|]
    end.
    apply andb_false_iff in Hr. rewrite !Z.leb_gt in Hr.
    unfold minInt, maxInt in *. lia.
  - change (pretty (Z.neg p)) with (String "-" (pretty_N_go (N.pos p) EmptyString)).
    destruct (pretty_go_head (N.pos p) EmptyString) as (d & rest & Hd & Heq); [lia|].
    pose proof (digits_value_pretty_go (N.pos p) EmptyString ltac:(lia)) as Hv.
    rewrite Heq in Hv |- *. unfold Atoi.
    change (Ascii.eqb "-" "-") with true. simpl orb. cbv iota.
    change (is_empty (String (pretty_N_char d) rest)) with false. cbv iota.
    rewrite Hv. simpl digits_value. cbv beta iota zeta.
    match goal with
    | |- (if ?b then _ else _) = _ => destruct b eqn:Hr; [reflexivity|]
    end.
    apply andb_false_iff in Hr. rewrite !Z.leb_gt in Hr.
    unfold minInt, maxInt in *. lia.
Qed.

Lemma Atoi_range (s : string) (n : Z) : Atoi s = Some n -> minInt <= n <= maxInt.
Proof.
  unfold Atoi. destruct s as [|c rest]; [discriminate|].
  destruct (is_empty _); [discriminate|].
  destruct (digits_value _ 0) as [m|]; [|discriminate].
  destruct (_ && _) eqn:Hr; [|discriminate].
  intros [= <-]. apply andb_true_iff in Hr as [?%Z.leb_le ?%Z.leb_le]. lia.
Qed.

Lemma parseInt_pretty (n defaultValue : Z) :
  minInt <= n <= maxInt -> parseInt (pretty n) defaultValue = n.
Proof.
  intros Hn. pose proof (Atoi_pretty n Hn) as H. unfold parseInt. rewrite H.
  destruct (pretty n); [discriminate|reflexivity].
Qed.

(** X22. [parseInt] reads back the decimal text that [%d] prints of any
    [int], whatever the default; and whatever the text, its result is an
    [int] when the default is one. *)
Theorem parseInt_reads_decimal (n defaultValue : Z) (s : string)
  (Hn : minInt <= n <= maxInt) (Hd : minInt <= defaultValue <= maxInt) :
  parseInt (Sprintf "%d" [render (AInt n)]) defaultValue = n
  /\ minInt <= parseInt s defaultValue <= maxInt
  /\ parseInt EmptyString defaultValue = defaultValue.
Proof.
  split; [|split].
  - change (Sprintf "%d" [render (AInt n)]) with (pretty n +:+ EmptyString).
    rewrite append_empty. by apply parseInt_pretty.
  - unfold parseInt. destruct (is_empty s); [exact Hd|].
    destruct (Atoi s) as [i|] eqn:Hi; [|exact Hd]. by apply Atoi_range in Hi.
  - reflexivity.
Qed.

Lemma parseInt_reads_decimal_witness :
  parseInt (Sprintf "%d" [render (AInt (-120))]) 7 = -120
  /\ minInt <= parseInt "12x" 7 <= maxInt
  /\ parseInt EmptyString 7 = 7.
Proof.
  apply (parseInt_reads_decimal (-120) 7 "12x"); unfold minInt, maxInt; lia.
Defined.

(** ** The schedulers *)

Lemma every_spec (n : Z) (suffix : string) :
  Sprintf ("@every %d" +:+ suffix) [render (AInt n)] = "@every " +:+ pretty n +:+ Sprintf suffix [].
Proof. reflexivity. Qed.

(** When the loop body hands a scheduler to [c.AddFunc], and with which
    spec. *)
Lemma start_scheduler_AddFunc (s : SchedulerConfig) (spec : string) :
  start_scheduler s = AddFunc spec
  <-> Enable s = true
      /\ ((CronSpec s <> EmptyString /\ spec = CronSpec s)
          \/ (CronSpec s = EmptyString /\ 0 < Interval s
              /\ exists suffix, In (Unit s, suffix) unit_suffix
                   /\ spec = "@every " +:+ pretty (Interval s) +:+ suffix)).
Proof.
  unfold start_scheduler. destruct (Enable s); simpl negb; cbv iota;
    [|split; [discriminate|intros [? _]; discriminate]].
  destruct (is_empty (CronSpec s)) eqn:Hc; simpl negb; cbv iota.
  - apply is_empty_spec in Hc.
    assert (Hev : forall verb suffix,
      verb = "@every %d" +:+ suffix -> Sprintf suffix [] = suffix ->
      ((if Interval s <=? 0 then InvalidInterval
        else AddFunc (Sprintf verb [render (AInt (Interval s))])) = AddFunc spec
       <-> 0 < Interval s /\ spec = "@every " +:+ pretty (Interval s) +:+ suffix)).
    { intros verb suffix -> Hs. rewrite every_spec, Hs.
      destruct (Interval s <=? 0) eqn:Hi.
      - apply Z.leb_le in Hi. split; [discriminate|lia].
      - apply Z.leb_gt in Hi. split; [intros [= <-]|intros [_ ->]]; by split. }
    destruct (String.eqb (Unit s) "second") eqn:H1;
      [|destruct (String.eqb (Unit s) "minute") eqn:H2;
        [|destruct (String.eqb (Unit s) "hour") eqn:H3]].
    + apply String.eqb_eq in H1. rewrite (Hev "@every %ds" "s" eq_refl eq_refl).
      split.
      * intros [? ->]. split; [done|]. right. repeat split; try done.
        exists "s". split; [|done]. rewrite H1. by left.
      * intros [_ [[? _]|(_ & ? & suffix & Hin & ->)]]; [done|]. split; [done|].
        rewrite H1 in Hin. simpl in Hin.
        destruct Hin as [[= <-]|[[=]|[[=]|[]]]]. reflexivity.
    + apply String.eqb_eq in H2. rewrite (Hev "@every %dm" "m" eq_refl eq_refl).
      split.
      * intros [? ->]. split; [done|]. right. repeat split; try done.
        exists "m". split; [|done]. rewrite H2. right. by left.
      * intros [_ [[? _]|(_ & ? & suffix & Hin & ->)]]; [done|]. split; [done|].
        rewrite H2 in Hin. simpl in Hin.
        destruct Hin as [[=]|[[= <-]|[[=]|[]]]]. reflexivity.
    + apply String.eqb_eq in H3. rewrite (Hev "@every %dh" "h" eq_refl eq_refl).
      split.
      * intros [? ->]. split; [done|]. right. repeat split; try done.
        exists "h". split; [|done]. rewrite H3. right. right. by left.
      * intros [_ [[? _]|(_ & ? & suffix & Hin & ->)]]; [done|]. split; [done|].
        rewrite H3 in Hin. simpl in Hin.
        destruct Hin as [[=]|[[=]|[[= <-]|[]]]]. reflexivity.
    + apply String.eqb_neq in H1, H2, H3. split; [discriminate|].
      intros [_ [[? _]|(_ & _ & suffix & Hin & _)]]; [done|].
      simpl in Hin. destruct Hin as [H|[H|[H|[]]]]; injection H as Hu _; congruence.
  - apply is_empty_false in Hc. split.
    + intros [= <-]. split; [done|]. by left.
    + intros [_ [[_ ->]|[? _]]]; [reflexivity|done].
Qed.

Lemma schedule_all_from (cron_Parse : string -> option Error)
      (schedulers : list SchedulerConfig) :
  forall (i : Z) (entries : list string),
    match schedule_all cron_Parse i schedulers entries with
    | (held, None) =>
        held = entries ++ to_start schedulers
        /\ Forall (fun spec => cron_Parse spec = None) (to_start schedulers)
    | (held, Some message) =>
        exists before s after spec err,
          schedulers = before ++ s :: after
          /\ start_scheduler s = AddFunc spec
          /\ cron_Parse spec = Some err
          /\ held = entries ++ to_start before
          /\ Forall (fun spec => cron_Parse spec = None) (to_start before)
          /\ message = Sprintf (fatal_format s)
                               [Sprintf "定时器 %d"
                                        [render (AInt (i + Z.of_nat (List.length before)))];
                                Error_string err]
    end.
Proof.
  induction schedulers as [| s rest IH]; intros i entries.
  { simpl. rewrite app_nil_r. by split. }
  assert (Hidx : forall before : list SchedulerConfig,
            i + Z.of_nat (List.length (s :: before))
            = i + 1 + Z.of_nat (List.length before))
    by (intros before; simpl List.length; lia).
  unfold to_start in *. simpl.
  destruct (start_scheduler s) as [| spec | |] eqn:Hs.
  2:{ destruct (cron_Parse spec) as [err |] eqn:Hp.
      - exists [], s, rest, spec, err. simpl. rewrite app_nil_r, Z.add_0_r.
        by repeat split.
      - specialize (IH (i + 1) (entries ++ [spec])).
        destruct (schedule_all cron_Parse (i + 1) rest (entries ++ [spec]))
          as [held [message |]].
        + destruct IH as (before & s' & after & spec' & err & -> & Hs' & Hp' & -> & Hall & ->).
          exists (s :: before), s', after, spec', err. rewrite Hidx. simpl. rewrite Hs.
          split; [reflexivity |]. split; [exact Hs' |]. split; [exact Hp' |].
          split; [by rewrite <- app_assoc |]. split; [by constructor | reflexivity].
        + destruct IH as [-> Hall]. split; [by rewrite <- app_assoc | by constructor]. }
  all: specialize (IH (i + 1) entries);
    destruct (schedule_all cron_Parse (i + 1) rest entries) as [held [message |]];
    [ destruct IH as (before & s' & after & spec' & err & -> & Hs' & Hp' & -> & Hall & ->);
      exists (s :: before), s', after, spec', err; rewrite Hidx; simpl; rewrite Hs;
      (split; [reflexivity |]); (split; [exact Hs' |]); (split; [exact Hp' |]);
      (split; [reflexivity |]); (split; [exact Hall | reflexivity])
    | exact IH ].
Qed.

(** X23. Which schedulers [main] hands to cron.  The loop takes the
    schedulers in order; it calls [c.AddFunc] for one exactly when that one
    is enabled and either has a cron spec, which is then used as it is
    whatever the unit and the interval, or has none, a unit among second,
    minute and hour and a positive interval, the spec then being [@every]
    with the interval and the unit's letter.  The first spec that cron
    rejects ends the process: cron then holds the specs of the schedulers
    before it, and the schedulers after it are never looked at.  When none
    is rejected, cron holds the specs of all the schedulers to be started,
    in order. *)
Theorem scheduler_start_conditions (cron_Parse : string -> option Error)
        (schedulers : list SchedulerConfig) :
  (forall s spec,
     start_scheduler s = AddFunc spec
     <-> Enable s = true
         /\ ((CronSpec s <> EmptyString /\ spec = CronSpec s)
             \/ (CronSpec s = EmptyString /\ 0 < Interval s
                 /\ exists suffix, In (Unit s, suffix) unit_suffix
                      /\ spec = "@every " +:+ pretty (Interval s) +:+ suffix)))
  /\ match schedule_all cron_Parse 0 schedulers [] with
     | (held, None) =>
         held = to_start schedulers
         /\ Forall (fun spec => cron_Parse spec = None) held
     | (held, Some message) =>
         exists before s after spec err,
           schedulers = before ++ s :: after
           /\ start_scheduler s = AddFunc spec
           /\ cron_Parse spec = Some err
           /\ held = to_start before
           /\ Forall (fun spec => cron_Parse spec = None) held
           /\ message = Sprintf (fatal_format s)
                                [Sprintf "定时器 %d"
                                         [render (AInt (Z.of_nat (List.length before)))];
                                 Error_string err]
           /\ forall after', schedule_all cron_Parse 0 (before ++ s :: after') []
                             = (held, Some message)
     end.
Proof.
  split.
  { intros s spec. apply start_scheduler_AddFunc. }
  pose proof (schedule_all_from cron_Parse schedulers 0 []) as H.
  destruct (schedule_all cron_Parse 0 schedulers []) as [held [message |]].
  - destruct H as (before & s & after & spec & err & -> & Hs & Hp & -> & Hall & ->).
    exists before, s, after, spec, err. simpl.
    split; [reflexivity |]. split; [exact Hs |]. split; [exact Hp |].
    split; [reflexivity |]. split; [exact Hall |]. split; [reflexivity |].
    intros after'.
    pose proof (schedule_all_from cron_Parse (before ++ s :: after') 0 []) as H'.
    destruct (schedule_all cron_Parse 0 (before ++ s :: after') []) as [held' [message' |]].
    + destruct H' as (before' & s' & after'' & spec' & err' & Heq & Hs' & Hp' & -> & Hall' & ->).
      simpl.
      assert (Hfirst : before' = before /\ s' = s).
      { clear - Heq Hs Hp Hall Hs' Hp' Hall'. revert before' Heq Hall'.
        induction before as [| b before IH]; intros [| b' before'] Heq Hall'; simpl in *.
        - injection Heq as <- _. by split.
        - injection Heq as <- Hrest. unfold to_start in Hall'. simpl in Hall'.
          rewrite Hs in Hall'. apply Forall_cons in Hall' as [Hacc _]. congruence.
        - injection Heq as -> Hrest. unfold to_start in Hall. simpl in Hall.
          rewrite Hs' in Hall. apply Forall_cons in Hall as [Hacc _]. congruence.
        - injection Heq as -> Hrest.
          assert (Hb : Forall (fun spec => cron_Parse spec = None) (to_start before)
                       /\ Forall (fun spec => cron_Parse spec = None) (to_start before')).
          { unfold to_start in *. simpl in Hall, Hall'.
            destruct (start_scheduler b'); simpl in *;
              rewrite ?Forall_cons in Hall, Hall'; tauto. }
          destruct (IH (proj1 Hb) before' Hrest (proj2 Hb)) as [-> ->]. by split. }
      destruct Hfirst as [-> ->].
      assert (spec' = spec) as -> by congruence.
      assert (err' = err) as -> by congruence. reflexivity.
    + exfalso. destruct H' as [_ Hall'].
      assert (Hin : In spec (to_start (before ++ s :: after'))).
      { unfold to_start. apply list_elem_of_In, list_elem_of_omap.
        exists s. split; [apply list_elem_of_In, in_elt | by rewrite Hs]. }
      apply list_elem_of_In in Hin.
      pose proof (proj1 (Forall_forall _ _) Hall' _ Hin) as Hacc. simpl in Hacc. congruence.
  - destruct H as [-> Hall]. by split.
Qed.

Lemma scheduler_start_conditions_example :
  let rejects (spec : string) :=
    if String.eqb spec "every day" then Some (External "expected exactly 5 fields") else None in
  let s1 := mkSchedulerConfig true EmptyString 15 "minute" "http://localhost:8080/webhook" "hi" in
  let s2 := mkSchedulerConfig true "every day" 0 EmptyString "http://localhost:8080/webhook" "hi" in
  let s3 := mkSchedulerConfig true "0 8 * * *" 0 EmptyString "http://localhost:8080/webhook" "hi" in
  schedule_all rejects 0 [s1; s3] [] = (["@every 15m"; "0 8 * * *"], None)
  /\ fst (schedule_all rejects 0 [s1; s2; s3] []) = ["@every 15m"]
  /\ snd (schedule_all rejects 0 [s1; s2; s3] []) <> None.
Proof. intros rejects s1 s2 s3. repeat split. discriminate. Qed.

(** X24. A periodic scheduler is judged by its unit before its interval:
    with an unknown unit the interval is never looked at; and a scheduler
    that is not enabled, or has a cron spec, is settled without either. *)
Theorem unit_is_checked_before_interval (s : SchedulerConfig)
  (Hen : Enable s = true) (Hcron : CronSpec s = EmptyString) :
  (start_scheduler s = UnknownUnit
   <-> ~ exists suffix, In (Unit s, suffix) unit_suffix)
  /\ (start_scheduler s = InvalidInterval
      <-> (exists suffix, In (Unit s, suffix) unit_suffix) /\ Interval s <= 0).
Proof.
  unfold start_scheduler. rewrite Hen, Hcron. simpl negb. cbv iota.
  assert (Hin : (exists suffix, In (Unit s, suffix) unit_suffix)
                <-> (Unit s = "second" \/ Unit s = "minute" \/ Unit s = "hour")).
  { split.
    - intros [suffix H]. simpl in H.
      destruct H as [H|[H|[H|[]]]]; injection H as <- _; tauto.
    - intros [-> | [-> | ->]]; eexists; simpl; eauto. }
  rewrite Hin.
  destruct (String.eqb (Unit s) "second") eqn:H1;
    [|destruct (String.eqb (Unit s) "minute") eqn:H2;
      [|destruct (String.eqb (Unit s) "hour") eqn:H3]];
    rewrite ?String.eqb_eq, ?String.eqb_neq in *.
  1-3: destruct (Interval s <=? 0) eqn:Hi;
       rewrite ?Z.leb_le, ?Z.leb_gt in Hi;
       (split; split; try discriminate; try tauto; try (intros [_ ?]; lia);
        try (intros _; split; [tauto|lia])).
  split; split; try discriminate; try tauto.
Qed.

Lemma unit_is_checked_before_interval_witness :
  let s := mkSchedulerConfig true EmptyString (-5) "day" "http://localhost:8080/webhook" "hi" in
  (start_scheduler s = UnknownUnit
   <-> ~ exists suffix, In (Unit s, suffix) unit_suffix)
  /\ (start_scheduler s = InvalidInterval
      <-> (exists suffix, In (Unit s, suffix) unit_suffix) /\ Interval s <= 0).
Proof.
  exact (unit_is_checked_before_interval
           (mkSchedulerConfig true EmptyString (-5) "day" "http://localhost:8080/webhook" "hi")
           eq_refl eq_refl).
Defined.

(** X25. The one scheduler of an environment configuration: when
    [SCHEDULER_ENABLE] is [true], no cron spec is set, the unit is second,
    minute or hour and [SCHEDULER_INTERVAL] is the decimal text of a
    positive [int], cron receives [@every] followed by that very text and
    the unit's letter; when the interval is unset or is no number, the
    scheduler is not started. *)
Theorem environment_scheduler (E : Env) (n : Z) (suffix : string)
  (Hen : os_Getenv E "SCHEDULER_ENABLE" = "true")
  (Hcron : os_Getenv E "SCHEDULER_CRON_SPEC" = EmptyString)
  (Hunit : In (os_Getenv E "SCHEDULER_UNIT", suffix) unit_suffix) :
  (0 < n <= maxInt -> os_Getenv E "SCHEDULER_INTERVAL" = pretty n ->
     List.map start_scheduler (Schedulers (from_environment E))
     = [AddFunc ("@every " +:+ os_Getenv E "SCHEDULER_INTERVAL" +:+ suffix)])
  /\ (Atoi (os_Getenv E "SCHEDULER_INTERVAL") = None ->
        List.map start_scheduler (Schedulers (from_environment E)) = [InvalidInterval]).
Proof.
  assert (Hu : os_Getenv E "SCHEDULER_UNIT" = "second" /\ suffix = "s"
               \/ os_Getenv E "SCHEDULER_UNIT" = "minute" /\ suffix = "m"
               \/ os_Getenv E "SCHEDULER_UNIT" = "hour" /\ suffix = "h").
  { simpl in Hunit. destruct Hunit as [H|[H|[H|[]]]]; injection H as <- <-; tauto. }
  split.
  - intros Hn Hi. simpl. f_equal. unfold start_scheduler. simpl.
    rewrite Hen, Hcron, Hi, parseInt_pretty by (unfold minInt; lia). simpl.
    replace (n <=? 0) with false by (symmetry; apply Z.leb_gt; lia).
    destruct Hu as [[-> ->]|[[-> ->]|[-> ->]]]; reflexivity.
  - intros Hi. simpl. f_equal. unfold start_scheduler. simpl.
    assert (Hp : parseInt (os_Getenv E "SCHEDULER_INTERVAL") 0 = 0).
    { unfold parseInt. rewrite Hi. by destruct (is_empty _). }
    rewrite Hen, Hcron, Hp. simpl.
    destruct Hu as [[-> ->]|[[-> ->]|[-> ->]]]; reflexivity.
Qed.

Lemma environment_scheduler_witness :
  List.map start_scheduler
           (Schedulers (from_environment (environment_only container_environment)))
  = [AddFunc "@every 15m"].
Proof.
  apply (proj1 (environment_scheduler (environment_only container_environment) 15 "m"
                  eq_refl eq_refl (or_intror (or_introl eq_refl)))).
  - unfold maxInt. lia.
  - reflexivity.
Defined.

End config_facts.

(* ===================================================================== *)
(** * Facts about the group robot                                         *)
(* ===================================================================== *)

Module wecom_facts.
Import gostring wecom wecom_examples.
Import gostring_facts service_facts.

Lemma Post_cases (W : RobotWorld) (url contentType body : string) (tr : Trace) :
  let req := mkRequest "POST" url body contentType EmptyString in
  (exists err, http_NewRequest W "POST" url = Some err
               /\ Post W url contentType body tr = (Ret (inl err), tr))
  \/ (http_NewRequest W "POST" url = None
      /\ Post W url contentType body tr = (Ret (http_Do W tr req), tr ++ [EvDo req])).
Proof.
  unfold Post. destruct (http_NewRequest W "POST" url) as [err|].
  - left. by exists err.
  - right. by split.
Qed.

(** What [sendMessageToWeCom] does and when it returns nil. *)
Lemma sendMessageToWeCom_cases (W : RobotWorld) (cfg : fullconfig.AppConfig)
      (msgType : string) (payload : Payload) (tr : Trace) :
  exists r added,
    sendMessageToWeCom W cfg msgType payload tr = (Ret r, tr ++ added)
    /\ (added = []
        \/ exists body, json_Marshal W msgType payload = inr body
                        /\ added = [EvDo (message_request cfg body)])
    /\ (r = None ->
        exists body, json_Marshal W msgType payload = inr body
                     /\ added = [EvDo (message_request cfg body)]
                     /\ accepted W cfg tr body)
    /\ (forall body, json_Marshal W msgType payload = inr body ->
                     accepted W cfg tr body -> r = None).
Proof.
  unfold sendMessageToWeCom.
  destruct (json_Marshal W msgType payload) as [err|body] eqn:Hm.
  { eexists _, []. rewrite app_nil_r. split; [reflexivity|].
    split; [by left|]. split; [discriminate|]. intros ? [=]. }
  rewrite bind_unfold.
  destruct (Post_cases W (webhookURL cfg) "application/json" body tr)
    as [(err & Hn & ->)|[Hn ->]].
  { eexists _, []. rewrite app_nil_r. split; [reflexivity|].
    split; [by left|]. split; [discriminate|].
    intros ? [= <-] (? & ? & ? & Hn' & _). congruence. }
  fold (message_request cfg body).
  destruct (http_Do W tr (message_request cfg body)) as [err|resp] eqn:Hdo.
  { eexists _, _. split; [reflexivity|]. split; [right; by exists body|].
    split; [discriminate|].
    intros ? [= <-] (? & ? & ? & _ & Hdo' & _). congruence. }
  destruct (StatusCode resp =? StatusOK) eqn:Hs; simpl negb; cbv iota.
  2:{ apply Z.eqb_neq in Hs.
      destruct (Body resp) as [e|b]; (eexists _, _; split; [reflexivity|];
        split; [right; by exists body|]; split; [discriminate|];
        intros ? [= <-] (? & ? & ? & _ & Hdo' & Hs' & _); congruence). }
  apply Z.eqb_eq in Hs.
  destruct (Body resp) as [e|respBody] eqn:Hb.
  { eexists _, _. split; [reflexivity|]. split; [right; by exists body|].
    split; [discriminate|].
    intros ? [= <-] (? & ? & ? & _ & Hdo' & _ & Hb' & _). congruence. }
  destruct (json_Unmarshal_send W respBody) as [e|result] eqn:Hu.
  { eexists _, _. split; [reflexivity|]. split; [right; by exists body|].
    split; [discriminate|].
    intros ? [= <-] (? & ? & ? & _ & Hdo' & _ & Hb' & Hu' & _). congruence. }
  destruct (ErrCode result =? 0) eqn:He; simpl negb; cbv iota.
  - apply Z.eqb_eq in He. eexists _, _. split; [reflexivity|].
    split; [right; by exists body|]. split; [|done].
    intros _. exists body. repeat split. by exists resp, respBody, result.
  - apply Z.eqb_neq in He.
    destruct (ErrCode result =? rateLimited);
      (eexists _, _; split; [reflexivity|]; split; [right; by exists body|];
       split; [discriminate|];
       intros ? [= <-] (? & ? & ? & _ & Hdo' & _ & Hb' & Hu' & He'); congruence).
Qed.

(** X26. A message is one POST at most: [sendMessageToWeCom] always
    returns, calls the webhook URL once with the JSON message, or not at
    all when the message cannot be serialised or the request cannot be
    built; and it returns nil exactly when the exchange gave status 200, a
    readable body that parses, and error code 0. *)
Theorem message_is_one_post (W : RobotWorld) (cfg : fullconfig.AppConfig)
        (msgType : string) (payload : Payload) (tr : Trace) :
  exists r added,
    sendMessageToWeCom W cfg msgType payload tr = (Ret r, tr ++ added)
    /\ (added = []
        \/ exists body, json_Marshal W msgType payload = inr body
                        /\ added = [EvDo (message_request cfg body)])
    /\ (r = None
        <-> exists body, json_Marshal W msgType payload = inr body
                         /\ accepted W cfg tr body).
Proof.
  destruct (sendMessageToWeCom_cases W cfg msgType payload tr)
    as (r & added & Hrun & Hshape & Hnil & Hok).
  exists r, added. split; [exact Hrun|]. split; [exact Hshape|]. split.
  - intros Hr. destruct (Hnil Hr) as (body & ? & _ & ?). by exists body.
  - intros (body & ? & ?). by apply (Hok body).
Qed.




(** X27. The answer of the upload endpoint is judged by its body alone:
    the HTTP status of the response plays no part in [uploadMedia], whereas
    the webhook's answer to a message is an error unless the status is
    200. *)
Theorem upload_ignores_the_status (W : RobotWorld) (cfg : fullconfig.AppConfig)
        (f : Z -> Z) (path mediaType : string) (tr : Trace) :
  uploadMedia (restatus f W) cfg path mediaType tr = uploadMedia W cfg path mediaType tr
  /\ forall msgType payload body resp,
       json_Marshal W msgType payload = inr body ->
       http_NewRequest W "POST" (webhookURL cfg) = None ->
       http_Do W tr (message_request cfg body) = inr resp ->
       StatusCode resp <> StatusOK ->
       exists e, sendMessageToWeCom W cfg msgType payload tr
                 = (Ret (Some e), tr ++ [EvDo (message_request cfg body)]).
Proof.
  split.
  - unfold uploadMedia, getWebhookKey, restatus, bind, call, ret.
    cbn [url_Parse os_Open multipart_CreateFormFile io_Copy multipart_body
         multipart_FormDataContentType http_NewRequest http_Do json_Marshal
         json_Unmarshal_upload json_Unmarshal_send].
    destruct (url_Parse W (webhookURL cfg)) as [e|q]; [reflexivity|].
    destruct (is_empty (q "key")); [reflexivity|].
    destruct (os_Open W tr path); [reflexivity|].
    destruct (multipart_CreateFormFile W "media" (Base path)); [reflexivity|].
    destruct (io_Copy W (tr ++ [EvOpen path]) path); [reflexivity|].
    destruct (http_NewRequest W "POST" _); [reflexivity|].
    destruct (http_Do W _ _) as [e|resp]; [reflexivity|]. cbn [Body].
    destruct (Body resp); reflexivity.
  - intros msgType payload body resp Hm Hn Hdo Hs.
    unfold sendMessageToWeCom, Post. rewrite Hm, bind_unfold, Hn. unfold call.
    fold (message_request cfg body). rewrite Hdo.
    apply Z.eqb_neq in Hs. rewrite Hs. simpl negb. cbv iota.
    destruct (Body resp); eexists; reflexivity.
Qed.





(** X30. A news message goes out only with one to eight articles: with
    none or with nine or more, [SendNewsMessage] returns an error and calls
    nothing; with one to eight it posts them all in one message. *)
Theorem news_needs_one_to_eight_articles (W : RobotWorld) (cfg : fullconfig.AppConfig)
        (articles : list Article) (tr : Trace) :
  exists r added,
    SendNewsMessage W cfg articles tr = (Ret r, tr ++ added)
    /\ (r = None \/ added <> [] ->
        (1 <= List.length articles <= 8)%nat
        /\ exists body, json_Marshal W "news" (Articles articles) = inr body
                        /\ added = [EvDo (message_request cfg body)])
    /\ ((1 <= List.length articles <= 8)%nat ->
        SendNewsMessage W cfg articles tr
        = sendMessageToWeCom W cfg "news" (Articles articles) tr).
Proof.
  unfold SendNewsMessage.
  destruct (Nat.eqb (List.length articles) 0) eqn:H0; simpl orb; cbv iota.
  { apply Nat.eqb_eq in H0. eexists _, []. rewrite app_nil_r.
    split; [reflexivity|]. split; [intros [[=]|?]; done|]. lia. }
  apply Nat.eqb_neq in H0.
  destruct (8 <? List.length articles)%nat eqn:H8.
  { apply Nat.ltb_lt in H8. eexists _, []. rewrite app_nil_r.
    split; [reflexivity|]. split; [intros [[=]|?]; done|]. lia. }
  apply Nat.ltb_ge in H8.
  destruct (sendMessageToWeCom_cases W cfg "news" (Articles articles) tr)
    as (r & added & Hrun & Hshape & Hnil & _).
  exists r, added. split; [exact Hrun|]. split; [|done].
  intros Hor. split; [lia|].
  destruct Hshape as [->|(body & Hm & ->)].
  - destruct Hor as [Hr|?]; [|done]. destruct (Hnil Hr) as (? & _ & [=] & _).
  - by exists body.
Qed.

End wecom_facts.
